(** * APCR-Control: pan/tilt motion core

    A shallow embedding of the virtual-wall planner and the preset recall
    of [presets.py] and of the guard, the cumulative-delta accumulator,
    the repeat/stop state machine and the adaptive-speed interpolation of
    [controls.py], followed by the properties the design document states
    about them.

    Numbers.  The Python code works on [int] and [float] values.  They are
    embedded as exact rationals ([Q]): [x % m] is the floored remainder,
    [int(x)] truncates toward zero, [x / y] is true division.  The
    concrete runs evaluated below only meet whole and half degrees, which
    binary floats represent exactly, so they agree with the program run on
    the same inputs.  Where a float result is rounded to an integer that
    goes into a frame ([build_pan_tilt_roll_packet]), the rounding of the
    float operation itself is modelled ([b64]).

    Frames.  The hexadecimal text of a frame is a [string], and
    [bytes.fromhex] fails on it where Python raises [ValueError]: a
    camera id outside 0..255 does not fit the two digits the text gives
    it.

    State.  Module globals are fields of explicit state records that the
    functions take and return; a raised exception is a [Raised] result; a
    loop whose termination depends on its inputs carries fuel and returns
    [None] when it would not end, and is then proved to end.  The loop
    of [do_move_segment], which ends only when the feedback lets it, is
    not run: a recall is followed up to its call, and one pass of the
    loop is modelled on its own. *)

From Stdlib Require Import QArith Qround Qminmax Qpower ZArith List Bool.
From Stdlib Require Import Lia Lqa.
From Stdlib Require Ascii String.
Import ListNotations.

Local Open Scope Q_scope.

(** ** Python arithmetic on rationals *)

Module Py.

(** [x % m] for a positive modulus: the result has the sign of [m]. *)
Definition pymod (x m : Q) : Q := x - m * inject_Z (Qfloor (x / m)).

(** [int(x)]: truncation toward zero. *)
Definition int_of (x : Q) : Z := Z.quot (Qnum x) (Zpos (Qden x)).

Definition Qleb (x y : Q) : bool := Qle_bool x y.
Definition Qltb (x y : Q) : bool := negb (Qle_bool y x).
Definition Qeqb (x y : Q) : bool := Qeq_bool x y.

(** [min] and [max] return their first argument on ties, as Python's do. *)
Definition pymin (x y : Q) : Q := if Qltb y x then y else x.
Definition pymax (x y : Q) : Q := if Qltb x y then y else x.

Definition pyabs (x : Q) : Q := if Qltb x 0 then - x else x.

End Py.

(** ** Hexadecimal text *)

Module Hex.
Import Ascii String.
Local Open Scope string_scope.

(** One hexadecimal digit as [format] writes it, by character code:
    the digits from ["0"], the letters from ["A"] or ["a"]. *)
Definition hex_digit (upper : bool) (d : Z) : ascii :=
  let base :=
    if (d <? 10)%Z then 48%Z else if upper then 55%Z else 87%Z in
  ascii_of_N (Z.to_N (base + d)).

(** The digits of a natural number, most significant first. *)
Fixpoint hex_digits (upper : bool) (fuel : nat) (n : Z) (acc : string)
  : string :=
  match fuel with
  | O => acc
  | S f =>
      let acc' := String (hex_digit upper (n mod 16)%Z) acc in
      if (n / 16 =? 0)%Z then acc' else hex_digits upper f (n / 16)%Z acc'
  end.

(** [f"{n:02X}"] and [f"{n:02x}"]: sign, digits, zero-padded to width 2. *)
Definition format_02 (upper : bool) (n : Z) : string :=
  let body :=
    hex_digits upper (S (Z.to_nat (Z.log2 (Z.abs n)))) (Z.abs n) "" in
  let signed := if (n <? 0)%Z then String "-"%char body else body in
  if (length signed <? 2)%nat then String "0"%char signed else signed.

(** The value of a hexadecimal digit of either case, by character
    code. *)
Definition hex_value (c : ascii) : option Z :=
  let code := Z.of_N (N_of_ascii c) in
  if ((48 <=? code) && (code <=? 57))%Z then Some (code - 48)%Z
  else if ((65 <=? code) && (code <=? 70))%Z then Some (code - 55)%Z
  else if ((97 <=? code) && (code <=? 102))%Z then Some (code - 87)%Z
  else None.

(** [bytes.fromhex(s)] on a string without blanks: [None] where Python
    raises [ValueError]. *)
Fixpoint fromhex (s : string) : option (list Z) :=
  match s with
  | EmptyString => Some []
  | String a (String b r) =>
      match hex_value a, hex_value b, fromhex r with
      | Some x, Some y, Some l => Some ((16 * x + y)%Z :: l)
      | _, _, _ => None
      end
  | String _ EmptyString => None
  end.

(** Whether a byte, written by [format_02], reads back as itself. *)
Definition byte_round_trips (upper : bool) (b : Z) : bool :=
  match format_02 upper b with
  | String c1 (String c2 EmptyString) =>
      match hex_value c1, hex_value c2 with
      | Some x, Some y => ((x =? b / 16) && (y =? b mod 16))%Z
      | _, _ => false
      end
  | _ => false
  end.

End Hex.

(** ** Configuration read by both modules *)

Module Config.

(** A device entry ([apcr]) of the settings.  Every entry carries its
    [camid], [ip] and [name], so the dictionary is never empty and
    [if apcr:] tests only for [None]; the keys below are the ones the
    motion core reads, [None] standing for a key that is absent or null.
    The [camid] is the integer read from the device or typed by the
    user, of any size; an entry whose [camid] is null addresses no
    device and is not modelled. *)
Record Apcr := {
  camid : Z;
  virtualwallstart_pan : option Q;
  virtualwallend_pan : option Q;
  virtualwallstart_tilt : option Q;
  virtualwallend_tilt : option Q;
  adaptive_speed_map_0 : option Q;
  adaptive_speed_map_10 : option Q;
  adaptive_speed_map_25 : option Q;
  adaptive_speed_map_50 : option Q;
  adaptive_speed_map_75 : option Q;
  adaptive_speed_map_100 : option Q
}.

(** [settings["global_settings"]]: each key may be absent, and is then
    read through [.get(key, default)]. *)
Record GlobalSettings := {
  virtualwall : option bool;
  virtualwallpreset : option bool;
  adaptive_speed : option bool;
  ptr_speed : option Q;
  preset_transition_speed : option Q
}.

(** The settings dictionary; [None] for its ["global_settings"] key when
    the key is absent. *)
Record Settings := { global_settings : option GlobalSettings }.

Definition get_default {A} (o : option A) (d : A) : A :=
  match o with Some v => v | None => d end.

End Config.

(** ** controls.py: guard, accumulator, state machine, adaptive speed *)

Module Controls.
Import Py Config.

Inductive Axis := Pan | Tilt | Roll | Zoom.

(** The direction strings ['positive'], ['negative'], ['in'], ['out']. *)
Inductive Direction := Positive | Negative | ZoomIn | ZoomOut.

(** The control kinds ['axis'], ['button'], and any other string. *)
Inductive ControlType := AxisControl | ButtonControl | OtherControl.

Inductive exn := TypeError | KeyError | UnboundLocalError | ValueError.

Inductive result (A : Type) :=
| Ok (a : A)
| Raised (e : exn).
Arguments Ok {A} a.
Arguments Raised {A} e.

Definition REPEAT_INTERVAL : Q := 2 # 10.
Definition IDLE_DELAY : Q := 1 # 10.

(** *** Wall membership *)

Definition norm360 (x : Q) : Q := pymod x 360.

(** [inWall(x, w1, w2)] of controls.py: the bounds are normalized and
    ordered, the position is compared as it is. *)
Definition inWall (x w1 w2 : Q) : bool :=
  let lower := pymin (norm360 w1) (norm360 w2) in
  let upper := pymax (norm360 w1) (norm360 w2) in
  Qleb lower x && Qleb x upper.

(** [use_absolute]: a bound outside [[0, 360)] selects absolute mode. *)
Definition use_absolute (wall_start wall_end : Q) : bool :=
  Qltb wall_start 0 || Qleb 360 wall_start
  || Qltb wall_end 0 || Qleb 360 wall_end.

(** The nested [pos_in_wall(pos)] of [update_virtual_wall_state], closed
    over the bounds and the margin of the enclosing call. *)
Definition pos_in_wall (wall_start wall_end margin pos : Q) : bool :=
  if use_absolute wall_start wall_end then
    if Qltb wall_end wall_start
    then Qleb (wall_start - margin) pos || Qleb pos (wall_end + margin)
    else Qleb (wall_start - margin) pos && Qleb pos (wall_end + margin)
  else inWall pos wall_start wall_end.

(** *** The wall tracker *)

(** The dictionary stored per axis: each key may be missing. *)
Record Tracker := {
  entry_direction : option Z;
  entry_position : option Q
}.

Definition empty_tracker : Tracker :=
  {| entry_direction := None; entry_position := None |}.

Inductive WallAxis := WPan | WTilt.

(** [virtual_wall_tracker]: both keys always exist; a slot holds [None]
    (the value at start-up, and after a preset recall) or a dictionary. *)
Record TrackerStore := {
  trk_pan : option Tracker;
  trk_tilt : option Tracker
}.

Definition initial_tracker_store : TrackerStore :=
  {| trk_pan := None; trk_tilt := None |}.

Definition trk_get (ts : TrackerStore) (a : WallAxis) : option Tracker :=
  match a with WPan => trk_pan ts | WTilt => trk_tilt ts end.

Definition trk_set (ts : TrackerStore) (a : WallAxis) (v : option Tracker)
  : TrackerStore :=
  match a with
  | WPan => {| trk_pan := v; trk_tilt := trk_tilt ts |}
  | WTilt => {| trk_pan := trk_pan ts; trk_tilt := v |}
  end.

(** [1 if d > 0 else -1] *)
Definition entry_sign (d : Q) : Z := if Qltb 0 d then 1%Z else (-1)%Z.

(** [1 if d > 0 else -1 if d < 0 else 0] *)
Definition cmd_sign (d : Q) : Z :=
  if Qltb 0 d then 1%Z else if Qltb d 0 then (-1)%Z else 0%Z.

(** The exit target chosen once a command inside the wall is refused. *)
Definition allowed_exit_target (wall_start wall_end : Q) (entry : Z) : Q :=
  if use_absolute wall_start wall_end then
    if Qltb wall_end wall_start then
      if (0 <? entry)%Z then wall_end + 1 else wall_start - 1
    else
      if (0 <? entry)%Z then wall_start - 1 else wall_end + 1
  else
    if (0 <? entry)%Z
    then pymod (norm360 wall_start - 1) 360
    else pymod (norm360 wall_end + 1) 360.

Definition correction_of (target current_pos : Q) : Q :=
  pymod (target - current_pos + 540) 360 - 180.

(** The answer [(block, trigger_correction, correction_delta)]. *)
Record Verdict := {
  block : bool;
  trigger_correction : bool;
  correction_delta : Q
}.

Definition allow : Verdict :=
  {| block := false; trigger_correction := false; correction_delta := 0 |}.

Definition wall_bounds (apcr : Apcr) (axis : WallAxis) : option Q * option Q :=
  match axis with
  | WPan => (virtualwallstart_pan apcr, virtualwallend_pan apcr)
  | WTilt => (virtualwallstart_tilt apcr, virtualwallend_tilt apcr)
  end.

(** [update_virtual_wall_state(axis, current_pos, command_delta, apcr,
    virtualwall_active, margin)], threading [virtual_wall_tracker].
    A slot holding [None] makes the item assignment and the [in] test
    raise [TypeError]. *)
Definition update_virtual_wall_state (axis : WallAxis)
    (current_pos command_delta : Q) (apcr : Apcr)
    (virtualwall_active : bool) (margin : Q) (ts : TrackerStore)
  : result (Verdict * TrackerStore) :=
  if negb virtualwall_active then
    Ok (allow, trk_set ts axis (Some empty_tracker))
  else
    match wall_bounds apcr axis with
    | (Some wall_start, Some wall_end) =>
        let expected_pos := current_pos + command_delta in
        let tracker := trk_get ts axis in
        let current_in_wall := pos_in_wall wall_start wall_end margin current_pos in
        let expected_in_wall := pos_in_wall wall_start wall_end margin expected_pos in
        if negb current_in_wall && negb expected_in_wall then
          Ok (allow, trk_set ts axis (Some empty_tracker))
        else if negb current_in_wall && expected_in_wall then
          match tracker with
          | None => Raised TypeError
          | Some _ =>
              let tracker' :=
                {| entry_direction := Some (entry_sign command_delta);
                   entry_position := Some current_pos |} in
              Ok ({| block := true; trigger_correction := true;
                     correction_delta := 0 |},
                  trk_set ts axis (Some tracker'))
          end
        else
          match tracker with
          | None => Raised TypeError
          | Some t =>
              let t' :=
                match entry_direction t with
                | Some _ => t
                | None =>
                    {| entry_direction := Some (entry_sign command_delta);
                       entry_position := Some current_pos |}
                end in
              let ts' := trk_set ts axis (Some t') in
              let entry := get_default (entry_direction t') 0%Z in
              let allowed_exit_direction := (- entry)%Z in
              let new_cmd_direction := cmd_sign command_delta in
              if (new_cmd_direction =? allowed_exit_direction)%Z then
                Ok (allow, ts')
              else
                let target := allowed_exit_target wall_start wall_end entry in
                Ok ({| block := true; trigger_correction := true;
                       correction_delta := correction_of target current_pos |},
                    ts')
          end
    | _ => Ok (allow, trk_set ts axis (Some empty_tracker))
    end.

(** *** Adaptive speed *)

(** [max(0, min(100, zoom_percentage))] *)
Definition clamp_zoom (zoom_percentage : Q) : Q :=
  pymax 0 (pymin 100 zoom_percentage).

(** One pass of the loop over [optional_zoom_levels]: a configured value
    wins, otherwise the level is kept only if [default_mapping] has it. *)
Definition mapping_entry (level : Q) (custom default : option Q)
  : list (Q * Q) :=
  match custom, default with
  | Some v, _ => [(level, v)]
  | None, Some d => [(level, d)]
  | None, None => []
  end.

(** [zoom_speed_mapping.sort(key=lambda x: x[0])]: a stable sort on the
    zoom level. *)
Fixpoint insert_by_zoom (p : Q * Q) (l : list (Q * Q)) : list (Q * Q) :=
  match l with
  | [] => [p]
  | q :: r => if Qltb (fst p) (fst q) then p :: q :: r
              else q :: insert_by_zoom p r
  end.

Definition sort_by_zoom (l : list (Q * Q)) : list (Q * Q) :=
  fold_left (fun acc p => insert_by_zoom p acc) l [].

Definition build_zoom_speed_mapping (apcr : Apcr) : list (Q * Q) :=
  sort_by_zoom
    (mapping_entry 0 (adaptive_speed_map_0 apcr) (Some 50)
     ++ mapping_entry 10 (adaptive_speed_map_10 apcr) None
     ++ mapping_entry 25 (adaptive_speed_map_25 apcr) None
     ++ mapping_entry 50 (adaptive_speed_map_50 apcr) None
     ++ mapping_entry 75 (adaptive_speed_map_75 apcr) None
     ++ mapping_entry 100 (adaptive_speed_map_100 apcr) (Some 3)).

(** Whether the zoom levels of a mapping strictly increase. *)
Fixpoint levels_increase (m : list (Q * Q)) : bool :=
  match m with
  | p :: rest =>
      match rest with
      | q :: _ => Qltb (fst p) (fst q) && levels_increase rest
      | [] => true
      end
  | [] => true
  end.

(** [max(1, min(100, adjusted_speed))] on the truncated value. *)
Definition clamp_speed (adjusted : Z) : Z := Z.max 1 (Z.min 100 adjusted).

(** The interpolation loop: the first bracketing pair of neighbours
    decides; [None] when the loop ends without a [return]. *)
Fixpoint interpolate_loop (zoom : Q) (m : list (Q * Q)) : option Z :=
  match m with
  | (lower_zoom, lower_speed) :: rest =>
      match rest with
      | (upper_zoom, upper_speed) :: _ =>
          if Qleb lower_zoom zoom && Qleb zoom upper_zoom then
            let range_percentage :=
              (zoom - lower_zoom) / (upper_zoom - lower_zoom) in
            Some (clamp_speed
                    (int_of (lower_speed
                             + range_percentage * (upper_speed - lower_speed))))
          else interpolate_loop zoom rest
      | [] => None
      end
  | [] => None
  end.

(** The part of [calculate_adaptive_speed] that follows the construction
    of the mapping.  The zoom levels of a mapping built above are pairwise
    distinct, so the division in the loop is defined. *)
Definition speed_from_mapping (zoom base_speed : Q) (m : list (Q * Q)) : Q :=
  if (length m <? 2)%nat then base_speed
  else
    match interpolate_loop zoom m with
    | Some s => inject_Z s
    | None =>
        if Qltb zoom (fst (hd (0, 0) m)) then snd (hd (0, 0) m)
        else snd (last m (0, 0))
    end.

Definition adaptive_speed_enabled (settings : option Settings) : bool :=
  match settings with
  | Some s =>
      match global_settings s with
      | Some gs => get_default (adaptive_speed gs) false
      | None => false
      end
  | None => false
  end.

(** [calculate_adaptive_speed(zoom_percentage, base_speed, settings, apcr)] *)
Definition calculate_adaptive_speed (zoom_percentage base_speed : Q)
    (settings : option Settings) (apcr : option Apcr) : Q :=
  if negb (adaptive_speed_enabled settings) then base_speed
  else
    match apcr with
    | None => base_speed
    | Some dev =>
        speed_from_mapping (clamp_zoom zoom_percentage) base_speed
          (build_zoom_speed_mapping dev)
    end.

(** *** Positions, packets, timers and the shared state *)

Record Position := {
  pos_pan : Q;
  pos_tilt : Q;
  pos_roll : Q;
  pos_zoom : Q
}.

(** The frames handed to [send_apcr_command], by content: the idle frame
    of an axis, a pan/tilt/roll frame (the 1% base frame with its last two
    bytes replaced by the packed speed), and a zoom frame.  A frame
    exists only once [bytes.fromhex] has read its text. *)
Inductive Packet :=
| IdlePacket (axis : Axis) (cam : Z)
| MovePacket (axis : Axis) (dir : option Direction) (cam : Z) (speed_val : Z)
| ZoomPacket (cam : Z) (dir : Direction) (speed_val : Z).

Inductive Callback :=
| RepeatCb (as_name : Axis) (apcr : Apcr) (settings : option Settings)
           (cumulative_arg : option Q)
| IdleCb (as_name : Axis) (apcr : Apcr).

Inductive TimerStatus := Pending | Cancelled | Fired.

(** A started [threading.Timer]. *)
Record Timer := {
  t_delay : Q;
  t_callback : Callback;
  t_status : TimerStatus
}.

(** One slot of [movement_state]; [control_type] and
    [original_percentage] are keys that may be missing. *)
Record AxisState := {
  active : bool;
  direction : option Direction;
  percentage : Q;
  control_type : option ControlType;
  original_percentage : option Q;
  timer : option nat;
  idle_timer : option nat
}.

Definition idle_axis_state : AxisState :=
  {| active := false; direction := None; percentage := 0;
     control_type := None; original_percentage := None;
     timer := None; idle_timer := None |}.

(** The module globals the state machine touches, the timers started so
    far (a handle is an index into [timers]), the frames sent so far
    (oldest first) and the zoom-activity flag kept by the interpreter. *)
Record World := {
  movement_state : Axis -> AxisState;
  timers : list Timer;
  outbox : list Packet;
  cumulative_delta : Q;
  predicted_block : bool;
  current_position : Z -> option Position;
  last_input_time : option Q;
  zoom_active : bool;
  status_updates : nat
}.

Definition Axis_eqb (a b : Axis) : bool :=
  match a, b with
  | Pan, Pan | Tilt, Tilt | Roll, Roll | Zoom, Zoom => true
  | _, _ => false
  end.

Definition set_axis (ms : Axis -> AxisState) (a : Axis) (st : AxisState)
  : Axis -> AxisState :=
  fun b => if Axis_eqb a b then st else ms b.

Definition with_movement (w : World) (ms : Axis -> AxisState) : World :=
  {| movement_state := ms; timers := timers w; outbox := outbox w;
     cumulative_delta := cumulative_delta w;
     predicted_block := predicted_block w;
     current_position := current_position w;
     last_input_time := last_input_time w;
     zoom_active := zoom_active w; status_updates := status_updates w |}.

Definition with_timers (w : World) (ts : list Timer) : World :=
  {| movement_state := movement_state w; timers := ts; outbox := outbox w;
     cumulative_delta := cumulative_delta w;
     predicted_block := predicted_block w;
     current_position := current_position w;
     last_input_time := last_input_time w;
     zoom_active := zoom_active w; status_updates := status_updates w |}.

Definition with_cumulative (w : World) (d : Q) : World :=
  {| movement_state := movement_state w; timers := timers w;
     outbox := outbox w; cumulative_delta := d;
     predicted_block := predicted_block w;
     current_position := current_position w;
     last_input_time := last_input_time w;
     zoom_active := zoom_active w; status_updates := status_updates w |}.

(** [send_apcr_command(apcr, data)] *)
Definition send_apcr_command (w : World) (p : Packet) : World :=
  {| movement_state := movement_state w; timers := timers w;
     outbox := outbox w ++ [p];
     cumulative_delta := cumulative_delta w;
     predicted_block := predicted_block w;
     current_position := current_position w;
     last_input_time := last_input_time w;
     zoom_active := zoom_active w; status_updates := status_updates w |}.

(** [user_input_received()]: [last_input_time = time.time()] *)
Definition user_input_received (now : Q) (w : World) : World :=
  {| movement_state := movement_state w; timers := timers w;
     outbox := outbox w; cumulative_delta := cumulative_delta w;
     predicted_block := predicted_block w;
     current_position := current_position w;
     last_input_time := Some now;
     zoom_active := zoom_active w; status_updates := status_updates w |}.

(** [interpreter.notify_zoom_activity(is_active)]: a status update goes
    to the companion application when the flag changes; no frame is sent
    to the device. *)
Definition notify_zoom_activity (is_active : bool) (w : World) : World :=
  if Bool.eqb (zoom_active w) is_active then w
  else
    {| movement_state := movement_state w; timers := timers w;
       outbox := outbox w; cumulative_delta := cumulative_delta w;
       predicted_block := predicted_block w;
       current_position := current_position w;
       last_input_time := last_input_time w;
       zoom_active := is_active; status_updates := S (status_updates w) |}.

(** *** The cumulative-delta accumulator *)

Definition update_cumulative_delta (delta : Q) (w : World) : World :=
  with_cumulative w (cumulative_delta w + delta).


Definition get_cumulative_delta (w : World) : Q := cumulative_delta w.

(** *** Reading the position cache *)

(** [get_current_position(apcr)]: the cached sample of the device, which
    the callers split back into its fields. *)
Definition get_current_position (w : World) (apcr : Apcr) : option Position :=
  current_position w (camid apcr).

(** [get_current_zoom_percentage(apcr)] *)
Definition get_current_zoom_percentage (w : World) (apcr : Apcr) : option Q :=
  match get_current_position w apcr with
  | Some p => Some ((pos_zoom p - 1) * 100 / 4094)
  | None => None
  end.

(** The axis value a wall check reads: pan for pan, tilt otherwise. *)
Definition axis_position (as_name : Axis) (p : Position) : Q :=
  match as_name with Pan => pos_pan p | _ => pos_tilt p end.

(** *** Frames *)

Definition is_positive (d : option Direction) : bool :=
  match d with Some Positive => true | _ => false end.

(** The frames as hexadecimal text, the camera id written by
    [f"{camid:02x}"]: two digits for 0..255, more digits or a sign
    otherwise. *)
Module Text.
Import Ascii String Hex.
Local Open Scope string_scope.

(** [get_idle_packet(as_name, camid)]: the text of the idle frame,
    defined for all four axes. *)
Definition get_idle_packet (as_name : Axis) (cam : Z) : option string :=
  let cam_hex := format_02 false cam in
  match as_name with
  | Pan => Some ("0A" ++ cam_hex ++ "0600000E068180000000")
  | Tilt => Some ("0A" ++ cam_hex ++ "0600000E078180000000")
  | Roll => Some ("0A" ++ cam_hex ++ "0600000E0880000000")
  | Zoom => Some ("0A" ++ cam_hex ++ "060000000980000000")
  end.

(** The text [get_base_packet(as_name, direction, camid)] gives to
    [bytes.fromhex]: the 1% frame of a pan, tilt or roll direction. *)
Definition base_packet_text (as_name : Axis) (d : option Direction)
    (cam : Z) : option string :=
  let cam_hex := format_02 false cam in
  match as_name with
  | Pan =>
      Some (if is_positive d then "0A" ++ cam_hex ++ "0600000E0680001400"
            else "0A" ++ cam_hex ++ "0600000E068000ECFF")
  | Tilt =>
      Some (if is_positive d then "0A" ++ cam_hex ++ "0600000E0780001400"
            else "0A" ++ cam_hex ++ "0600000E078000ECFF")
  | Roll =>
      Some (if is_positive d then "0A" ++ cam_hex ++ "0600000E0880001400"
            else "0A" ++ cam_hex ++ "0600000E088000ECFF")
  | Zoom => None
  end.

(** The text [get_zoom_packet] gives to [bytes.fromhex] for the part of
    the frame before the speed. *)
Definition zoom_prefix_text (cam : Z) : string :=
  "0A" ++ format_02 false cam ++ "06000000098000".

End Text.
Export Text.

(** [bytes.fromhex(text)]: it raises [ValueError] on a text that is not
    a whole number of bytes in hexadecimal digits. *)
Definition bytes_fromhex (text : String.string) : result (list Z) :=
  match Hex.fromhex text with
  | Some data => Ok data
  | None => Raised ValueError
  end.

(** [get_base_packet(as_name, direction, camid)]: the bytes of the 1%
    frame, [None] for an axis without one. *)
Definition get_base_packet (as_name : Axis) (d : option Direction)
    (cam : Z) : result (option (list Z)) :=
  match base_packet_text as_name d cam with
  | Some text =>
      match bytes_fromhex text with
      | Ok data => Ok (Some data)
      | Raised e => Raised e
      end
  | None => Ok None
  end.

(** [(base_min, base_max)]: tilt is inverted relative to pan and roll. *)
Definition base_range (as_name : Axis) (d : option Direction) : Q * Q :=
  match as_name with
  | Tilt => if is_positive d then (-(20), -(2024)) else (20, 2024)
  | _ => if is_positive d then (20, 2024) else (-(20), -(2024))
  end.

(** [int(base_min + (percentage - 1) * (base_max - base_min) / 99)] *)
Definition speed_value (as_name : Axis) (d : option Direction)
    (pct : Q) : Z :=
  let '(base_min, base_max) := base_range as_name d in
  int_of (base_min + (pct - 1) * (base_max - base_min) / 99).

(** [(speed_val / 2024.0) * 90.0] *)
Definition delta_of_speed (speed_val : Z) : Q :=
  (inject_Z speed_val / 2024) * 90.

(** The values [struct.pack('<h', v)] and [struct.pack('<H', v)] accept. *)
Definition fits_int16 (v : Z) : bool :=
  ((-32768 <=? v) && (v <=? 32767))%Z.
Definition fits_uint16 (v : Z) : bool :=
  ((0 <=? v) && (v <=? 65535))%Z.

(** A percentage that is a whole number, as [struct.pack] requires. *)
Definition as_int (q : Q) : option Z :=
  match Qden (Qred q) with
  | xH => Some (Qnum (Qred q))
  | _ => None
  end.

(** [get_zoom_packet(percentage, direction, control_type, camid)]; every
    exception inside, of [struct.pack] or of [bytes.fromhex], is turned
    into [None]. *)
Definition get_zoom_packet (pct : Q) (d : option Direction)
    (ct : ControlType) (cam : Z) : option Packet :=
  let scale := match ct with OtherControl => 1%Z | _ => 10%Z end in
  let framed (packet : Packet) :=
    match bytes_fromhex (zoom_prefix_text cam) with
    | Ok _ => Some packet
    | Raised _ => None
    end in
  match d, as_int pct with
  | Some ZoomIn, Some p =>
      let speed_val := (scale * p)%Z in
      if fits_uint16 speed_val then framed (ZoomPacket cam ZoomIn speed_val)
      else None
  | Some ZoomOut, Some p =>
      let speed_val := (- scale * p)%Z in
      if fits_int16 speed_val then framed (ZoomPacket cam ZoomOut speed_val)
      else None
  | _, _ => None
  end.

(** What the wall check inside [send_movement_packet] decides. *)
Inductive LiveVerdict := LiveAllow | LiveBlock.

(** The live check of [send_movement_packet]: plain comparisons against
    the configured bounds, no margin and no tracker. *)
Definition live_wall_check (wall_start wall_end current_pos command_delta : Q)
  : LiveVerdict :=
  let flipped := Qltb wall_end wall_start in
  let inside (p : Q) :=
    if flipped then Qleb wall_start p || Qleb p wall_end
    else Qleb wall_start p && Qleb p wall_end in
  let current_in_wall := inside current_pos in
  let expected_in_wall := inside (current_pos + command_delta) in
  let moving_direction := cmd_sign command_delta in
  if current_in_wall then
    let exit_direction :=
      if flipped then
        if Qleb wall_start current_pos then (-1)%Z else 1%Z
      else
        if Qltb current_pos ((wall_start + wall_end) / 2)
        then (-1)%Z else 1%Z in
    if (moving_direction =? exit_direction)%Z then LiveAllow else LiveBlock
  else if expected_in_wall then LiveBlock
  else LiveAllow.

Definition virtualwall_enabled (settings : option Settings) : bool :=
  match settings with
  | Some s =>
      match global_settings s with
      | Some gs => get_default (virtualwall gs) false
      | None => false
      end
  | None => false
  end.

(** The bounds the live check reads: the pan pair for pan, the tilt pair
    for every other axis that reaches it. *)
Definition live_bounds (as_name : Axis) (apcr : Apcr) : option Q * option Q :=
  match as_name with
  | Pan => (virtualwallstart_pan apcr, virtualwallend_pan apcr)
  | _ => (virtualwallstart_tilt apcr, virtualwallend_tilt apcr)
  end.

(** The idle frame the live check sends in place of a blocked command:
    [send_apcr_command(apcr, bytes.fromhex(idle_hex))]. *)
Definition send_idle_frame (as_name : Axis) (cam : Z) (w : World)
  : result World :=
  match get_idle_packet as_name cam with
  | Some idle_hex =>
      match bytes_fromhex idle_hex with
      | Ok _ => Ok (send_apcr_command w (IdlePacket as_name cam))
      | Raised e => Raised e
      end
  | None => Ok w
  end.

(** [send_movement_packet(as_name, direction, percentage,
    send_apcr_command, apcr, control_type, settings)].  The body runs
    inside [try ... except Exception], so a failing [struct.pack] or
    [bytes.fromhex] leaves the state as it was and nothing is sent. *)
Definition send_movement_packet (as_name : Axis) (d : option Direction)
    (pct : Q) (apcr : Apcr) (ct : ControlType)
    (settings : option Settings) (w : World) : World :=
  let cam := camid apcr in
  match as_name with
  | Zoom =>
      match get_zoom_packet pct d ct cam with
      | None => w
      | Some packet => notify_zoom_activity true (send_apcr_command w packet)
      end
  | _ =>
      let speed_val := speed_value as_name d pct in
      if negb (fits_int16 speed_val) then w
      else
      match get_base_packet as_name d cam with
      | Raised _ => w
      | Ok None => w
      | Ok (Some base_packet) =>
        let data := MovePacket as_name d cam speed_val in
        let verdict :=
          if virtualwall_enabled settings then
            match live_bounds as_name apcr with
            | (Some wall_start, Some wall_end) =>
                match get_current_position w apcr with
                | Some p =>
                    live_wall_check wall_start wall_end
                      (axis_position as_name p) (delta_of_speed speed_val)
                | None => LiveAllow
                end
            | _ => LiveAllow
            end
          else LiveAllow in
        match verdict with
        | LiveBlock =>
            match send_idle_frame as_name cam w with
            | Ok w' => w'
            | Raised _ => w
            end
        | LiveAllow => send_apcr_command w data
        end
      end
  end.

(** *** Timers *)

(** [timer.cancel()]: only a timer that has not fired yet is affected. *)
Fixpoint cancel_at (n : nat) (ts : list Timer) : list Timer :=
  match ts, n with
  | [], _ => []
  | t :: r, O =>
      match t_status t with
      | Pending => {| t_delay := t_delay t; t_callback := t_callback t;
                      t_status := Cancelled |} :: r
      | _ => t :: r
      end
  | t :: r, S n' => t :: cancel_at n' r
  end.

Definition cancel_handle (h : option nat) (w : World) : World :=
  match h with
  | Some n => with_timers w (cancel_at n (timers w))
  | None => w
  end.

(** [threading.Timer(delay, callback).start()]: the handle of the new
    timer and the state holding it. *)
Definition start_timer (delay : Q) (cb : Callback) (w : World) : nat * World :=
  (length (timers w),
   with_timers w (timers w ++ [{| t_delay := delay; t_callback := cb;
                                  t_status := Pending |}])).

Definition is_pending (t : Timer) : bool :=
  match t_status t with Pending => true | _ => false end.

(** The timers that will still fire. *)
Definition pending_timers (w : World) : list Timer :=
  filter is_pending (timers w).

(** *** The state machine *)

(** [send_idle_if_still_inactive(as_name, send_apcr_command, apcr)]: no
    [try] surrounds [bytes.fromhex], whose [ValueError] ends the call
    before anything is sent. *)
Definition send_idle_if_still_inactive (as_name : Axis) (apcr : Apcr)
    (w : World) : result World :=
  if negb (active (movement_state w as_name)) then
    match get_idle_packet as_name (camid apcr) with
    | Some idle_packet_hex =>
        match bytes_fromhex idle_packet_hex with
        | Ok _ => Ok (send_apcr_command w (IdlePacket as_name (camid apcr)))
        | Raised e => Raised e
        end
    | None => Ok w
    end
  else Ok w.

(** The part of [stop_movement] that follows the idle frame: the slot is
    marked inactive, both timers are cancelled and the idle-grace timer
    is started. *)
Definition mark_stopped (as_name : Axis) (apcr : Apcr) (w1 : World) : World :=
  let st := movement_state w1 as_name in
  let w2 := cancel_handle (timer st) w1 in
  let w3 := cancel_handle (idle_timer st) w2 in
  let '(h, w4) := start_timer IDLE_DELAY (IdleCb as_name apcr) w3 in
  let st' :=
    {| active := false; direction := None; percentage := 0;
       control_type := None;
       original_percentage := original_percentage st;
       timer := None; idle_timer := Some h |} in
  let w5 := with_movement w4 (set_axis (movement_state w4) as_name st') in
  match as_name with
  | Zoom => notify_zoom_activity false w5
  | _ => w5
  end.

(** [stop_movement(as_name, send_apcr_command, apcr)], the definition
    that is in force once the module is loaded (the later of the two).
    [bytes.fromhex] runs before the slot is touched and outside any
    [try]: its [ValueError] leaves the axis active and its timer
    running. *)
Definition stop_movement (as_name : Axis) (apcr : Apcr) (w : World)
  : result World :=
  let st := movement_state w as_name in
  if active st then
    match get_idle_packet as_name (camid apcr) with
    | Some idle_packet_hex =>
        match bytes_fromhex idle_packet_hex with
        | Ok _ =>
            Ok (mark_stopped as_name apcr
                  (send_apcr_command w (IdlePacket as_name (camid apcr))))
        | Raised e => Raised e
        end
    | None => Ok (mark_stopped as_name apcr w)
    end
  else Ok w.

(** The state a call of [stop_movement] leaves behind: the one it
    returns with, or the one it was given when it raises. *)
Definition after_stop (as_name : Axis) (apcr : Apcr) (w : World) : World :=
  match stop_movement as_name apcr w with
  | Ok w' => w'
  | Raised _ => w
  end.

Definition ptr_axis (as_name : Axis) : bool :=
  match as_name with Zoom => false | _ => true end.

(** The percentage a repeat tick works with: recomputed from the zoom
    level when adaptive speed is enabled for a pan, tilt or roll axis. *)
Definition tick_percentage (as_name : Axis) (apcr : Apcr)
    (settings : option Settings) (w : World) : Q :=
  let st := movement_state w as_name in
  let current_percentage := percentage st in
  if ptr_axis as_name && adaptive_speed_enabled settings then
    match get_current_zoom_percentage w apcr with
    | Some zoom_percentage =>
        calculate_adaptive_speed zoom_percentage
          (get_default (original_percentage st) current_percentage)
          settings (Some apcr)
    | None => current_percentage
    end
  else current_percentage.

(** The angular delta a repeat tick attributes to itself. *)
Definition tick_delta (as_name : Axis) (d : option Direction) (pct : Q) : Q :=
  match as_name with
  | Pan | Tilt => delta_of_speed (speed_value as_name d pct)
  | _ => 0
  end.

(** [repeat_command(as_name, send_apcr_command, apcr, settings,
    cumulative_delta)]; [now] is the clock reading taken by
    [user_input_received]. *)
Definition repeat_command (now : Q) (as_name : Axis) (apcr : Apcr)
    (settings : option Settings) (w : World) : World :=
  let w0 := user_input_received now w in
  let st := movement_state w0 as_name in
  if active st then
    let current_percentage := tick_percentage as_name apcr settings w0 in
    let command_delta := tick_delta as_name (direction st) current_percentage in
    let w1 := update_cumulative_delta command_delta w0 in
    if predicted_block w1 then w1
    else
      let st1 :=
        {| active := active st; direction := direction st;
           percentage := current_percentage;
           control_type := control_type st;
           original_percentage := original_percentage st;
           timer := timer st; idle_timer := idle_timer st |} in
      let w2 :=
        if Qeqb current_percentage (percentage st) then w1
        else with_movement w1 (set_axis (movement_state w1) as_name st1) in
      let w3 :=
        send_movement_packet as_name (direction st) current_percentage apcr
          (get_default (control_type st) AxisControl) settings w2 in
      let '(h, w4) :=
        start_timer REPEAT_INTERVAL
          (RepeatCb as_name apcr settings (Some (get_cumulative_delta w3))) w3 in
      let st4 := movement_state w4 as_name in
      with_movement w4
        (set_axis (movement_state w4) as_name
           {| active := active st4; direction := direction st4;
              percentage := percentage st4;
              control_type := control_type st4;
              original_percentage := original_percentage st4;
              timer := Some h; idle_timer := idle_timer st4 |})
  else w0.

(** A timer reaching its delay: a pending timer runs its callback once,
    in a thread of its own, which an exception of the callback ends. *)
Definition fire_timer (now : Q) (n : nat) (w : World) : World :=
  match nth_error (timers w) n with
  | Some t =>
      if is_pending t then
        let fired := {| t_delay := t_delay t; t_callback := t_callback t;
                        t_status := Fired |} in
        let w1 := with_timers w (firstn n (timers w) ++ fired
                                 :: skipn (S n) (timers w)) in
        match t_callback t with
        | RepeatCb a apcr settings _ => repeat_command now a apcr settings w1
        | IdleCb a apcr =>
            match send_idle_if_still_inactive a apcr w1 with
            | Ok w2 => w2
            | Raised _ => w1
            end
        end
      else w
  | None => w
  end.

(** The timers once both handles of a slot have been cancelled. *)
Definition cancelled_timers (st : AxisState) (ts : list Timer) : list Timer :=
  let ts1 := match timer st with Some h => cancel_at h ts | None => ts end in
  match idle_timer st with Some h => cancel_at h ts1 | None => ts1 end.

(** *** The predictor *)



(** *** The stand-alone wall check *)

(** [check_virtual_wall(axis, current, delta, wall_start, wall_end)]:
    the delta to use and whether it is a correction. *)
Definition check_virtual_wall (axis : WallAxis)
    (current delta wall_start wall_end : Q) : Q * bool :=
  let new_position := pymod (current + delta) 360 in
  if inWall new_position wall_start wall_end then
    if inWall current wall_start wall_end then
      let lower := pymin (norm360 wall_start) (norm360 wall_end) in
      let upper := pymax (norm360 wall_start) (norm360 wall_end) in
      let dist_to_lower :=
        if Qleb lower current then current - lower
        else current + 360 - lower in
      let dist_to_upper :=
        if Qleb current upper then upper - current
        else upper + 360 - current in
      let target :=
        if Qltb dist_to_lower dist_to_upper
        then pymod (lower - 1) 360
        else pymod (upper + 1) 360 in
      (pymod (target - current + 540) 360 - 180, true)
    else (0, false)
  else (delta, false).

(** *** Starting a movement *)

(** The entries of the input mapping of a device
    ([settings["devices"][device_id]]): a dictionary with its ["type"],
    ["index"], ["axis_0"] and ["axis_1"] keys, a list of such
    dictionaries, or anything else. *)
Inductive MapType := AbsoluteAxis | VirtualAxis | OtherType.

Record Mapping := {
  m_type : MapType;
  m_index : option Z;
  m_axis_0 : option Z;
  m_axis_1 : option Z
}.

Inductive MapEntry :=
| MDict (m : Mapping)
| MList (subs : list Mapping)
| MOther.

Definition opt_Z_is (o : option Z) (v : Z) : bool :=
  match o with Some x => (x =? v)%Z | None => false end.

(** Whether a mapping makes the physical axis [axis_idx] a slider or part
    of a virtual axis. *)
Definition takes_axis (axis_idx : Z) (m : Mapping) : bool :=
  match m_type m with
  | AbsoluteAxis => opt_Z_is (m_index m) axis_idx
  | VirtualAxis =>
      opt_Z_is (m_axis_0 m) axis_idx || opt_Z_is (m_axis_1 m) axis_idx
  | OtherType => false
  end.

Definition entry_takes_axis (axis_idx : Z) (e : MapEntry) : bool :=
  match e with
  | MDict m => takes_axis axis_idx m
  | MList subs => existsb (takes_axis axis_idx) subs
  | MOther => false
  end.

Definition Direction_eqb (a b : Direction) : bool :=
  match a, b with
  | Positive, Positive | Negative, Negative
  | ZoomIn, ZoomIn | ZoomOut, ZoomOut => true
  | _, _ => false
  end.

Definition ControlType_eqb (a b : ControlType) : bool :=
  match a, b with
  | AxisControl, AxisControl | ButtonControl, ButtonControl
  | OtherControl, OtherControl => true
  | _, _ => false
  end.

Definition same_direction (a b : option Direction) : bool :=
  match a, b with
  | Some x, Some y => Direction_eqb x y
  | None, None => true
  | _, _ => false
  end.

Definition same_control_type (a b : option ControlType) : bool :=
  match a, b with
  | Some x, Some y => ControlType_eqb x y
  | None, None => true
  | _, _ => false
  end.

(** The early return of [start_or_update_movement]: an axis event for a
    physical axis that the mapping of the device uses as a slider or in a
    virtual axis starts nothing. *)
Definition claimed_by_mapping (ct : ControlType) (axis_idx : option Z)
    (settings : option Settings) (dev_map : list MapEntry) : bool :=
  match ct, axis_idx, settings with
  | AxisControl, Some idx, Some _ => existsb (entry_takes_axis idx) dev_map
  | _, _, _ => false
  end.

(** [start_or_update_movement(as_name, direction, percentage,
    send_apcr_command, apcr, control_type, axis_idx, settings)];
    [dev_map] lists the values of the input mapping the function reads
    from [settings["devices"]] for the device of [apcr], empty when there
    is none. *)
Definition start_or_update_movement (as_name : Axis) (d : option Direction)
    (pct : Q) (apcr : Apcr) (ct : ControlType) (axis_idx : option Z)
    (settings : option Settings) (dev_map : list MapEntry) (w : World)
  : World :=
  let st := movement_state w as_name in
  let changed :=
    negb (same_direction (direction st) d)
    || negb (Qeqb (percentage st) pct)
    || negb (same_control_type (control_type st) (Some ct)) in
  if claimed_by_mapping ct axis_idx settings dev_map then w
  else
    let original_percentage_ := pct in
    let adapted :=
      if ptr_axis as_name && adaptive_speed_enabled settings then
        match get_current_zoom_percentage w apcr with
        | Some zoom_percentage =>
            Some (calculate_adaptive_speed zoom_percentage pct settings
                    (Some apcr))
        | None => None
        end
      else None in
    let percentage_ := get_default adapted pct in
    let changed :=
      match adapted with
      | Some p => changed || negb (Qeqb (percentage st) p)
      | None => changed
      end in
    if changed || negb (active st) then
      let st1 :=
        {| active := true; direction := d; percentage := percentage_;
           control_type := Some ct;
           original_percentage :=
             match adapted with
             | Some _ => Some original_percentage_
             | None => original_percentage st
             end;
           timer := timer st; idle_timer := idle_timer st |} in
      let w1 := with_movement w (set_axis (movement_state w) as_name st1) in
      let w2 := send_movement_packet as_name d percentage_ apcr ct settings w1 in
      let w3 := cancel_handle (timer st) w2 in
      let '(h, w4) :=
        start_timer REPEAT_INTERVAL (RepeatCb as_name apcr settings None) w3 in
      let w5 := cancel_handle (idle_timer st) w4 in
      let w6 :=
        with_movement w5
          (set_axis (movement_state w5) as_name
             {| active := true; direction := d; percentage := percentage_;
                control_type := Some ct;
                original_percentage := original_percentage st1;
                timer := Some h; idle_timer := None |}) in
      match as_name with
      | Zoom => notify_zoom_activity true w6
      | _ => w6
      end
    else w.

(** The axis a frame is addressed to, and whether the frame moves it. *)
Definition packet_axis (p : Packet) : Axis :=
  match p with
  | IdlePacket a _ => a
  | MovePacket a _ _ _ => a
  | ZoomPacket _ _ _ => Zoom
  end.

Definition moves_axis (a : Axis) (p : Packet) : bool :=
  match p with
  | IdlePacket _ _ => false
  | _ => Axis_eqb a (packet_axis p)
  end.

(** [timer.cancel()] through a handle that may be [None]. *)
Definition cancel_opt (h : option nat) (ts : list Timer) : list Timer :=
  match h with Some n => cancel_at n ts | None => ts end.

(** *** The process as a whole *)

(** The state at start-up: every axis at rest, no timer started. *)
Definition at_rest (w : World) : Prop :=
  timers w = [] /\ forall a, movement_state w a = idle_axis_state.


(** Every timer that will still fire is held by the slot of its axis: a
    repeat timer as the [timer] of an axis that is moving, an idle timer
    as the [idle_timer]. *)
Definition timers_owned (w : World) : Prop :=
  forall n t,
    nth_error (timers w) n = Some t -> is_pending t = true ->
    match t_callback t with
    | RepeatCb a _ _ _ =>
        timer (movement_state w a) = Some n
        /\ active (movement_state w a) = true
    | IdleCb a _ => idle_timer (movement_state w a) = Some n
    end.

(** *** Notions used to state properties of the frames *)

(** Whether a command drives the axis value upwards: tilt is inverted. *)
Definition drives_positive (as_name : Axis) (d : option Direction) : bool :=
  match as_name with
  | Tilt => negb (is_positive d)
  | _ => is_positive d
  end.

(** The containment test of the live check, on the bounds as configured. *)
Definition live_inside (wall_start wall_end p : Q) : bool :=
  if Qltb wall_end wall_start
  then Qleb wall_start p || Qleb p wall_end
  else Qleb wall_start p && Qleb p wall_end.

(** The direction in which the live check lets an axis leave the wall. *)
Definition live_exit_direction (wall_start wall_end current_pos : Q) : Z :=
  if Qltb wall_end wall_start then
    if Qleb wall_start current_pos then (-1)%Z else 1%Z
  else
    if Qltb current_pos ((wall_start + wall_end) / 2) then (-1)%Z else 1%Z.

End Controls.

(** ** presets.py: the preset motion planner *)

Module Presets.
Import Py Config.

(** [norm360(x)]: [x % 360.0]. *)
Definition norm360 (x : Q) : Q := pymod x 360.

(** The conversion used throughout the planner: a value whose magnitude
    exceeds 359 is taken to be in tenths of a degree. *)
Definition to_degrees (x : Q) : Q := if Qltb 359 (pyabs x) then x / 10 else x.

(** [native_to_normalized(angle)].  The module defines this name twice; the
    second definition (tenths threshold 359, then [% 360.0]) replaces the
    first when the module is loaded and is the one every caller reaches. *)
Definition native_to_normalized (angle : Q) : Q :=
  pymod (to_degrees angle) 360.

(** The two arms of the membership test of [inWall]. *)
Inductive wall_branch := NoWrap | Wrap.

(** The bounds "in the correct order", as [inWall] and
    [rotation_crosses_wall] compute them. *)
Definition ordered_bounds (w1_norm w2_norm : Q) : Q * Q :=
  if Qleb w1_norm w2_norm then (w1_norm, w2_norm) else (w2_norm, w1_norm).

(** The membership test applied to one normalized point. *)
Definition point_in_wall (wall_start wall_end pt : Q) : wall_branch * bool :=
  if Qleb wall_start wall_end
  then (NoWrap, Qleb wall_start pt && Qleb pt wall_end)
  else (Wrap, Qleb wall_start pt || Qleb pt wall_end).

(** [inWall(angle, w1, w2)] together with the arm that produced the answer
    ([None] for the early return on a missing bound). *)
Definition inWall_traced (angle : Q) (w1 w2 : option Q)
  : option wall_branch * bool :=
  match w1, w2 with
  | Some w1, Some w2 =>
      let angle_norm := native_to_normalized angle in
      let '(wall_start, wall_end) :=
        ordered_bounds (native_to_normalized w1) (native_to_normalized w2) in
      let '(br, result) := point_in_wall wall_start wall_end angle_norm in
      (Some br, result)
  | _, _ => (None, false)
  end.

Definition inWall (angle : Q) (w1 w2 : option Q) : bool :=
  snd (inWall_traced angle w1 w2).

(** *** Sampling an arc *)

(** [while current < limit: current = min(current + step, limit);
    points.append(...)], the appended value reduced modulo 360 when
    [wrap] is set.  [None] when the fuel runs out before the loop ends. *)
Fixpoint climb (fuel : nat) (current limit step : Q) (wrap : bool)
  : option (list Q) :=
  if Qltb current limit then
    match fuel with
    | O => None
    | S f =>
        let current' := pymin (current + step) limit in
        match climb f current' limit step wrap with
        | Some r => Some ((if wrap then pymod current' 360 else current') :: r)
        | None => None
        end
    end
  else Some [].

(** [while current > limit: current = max(current - step, limit); ...] *)
Fixpoint descend (fuel : nat) (current limit step : Q) (wrap : bool)
  : option (list Q) :=
  if Qltb limit current then
    match fuel with
    | O => None
    | S f =>
        let current' := pymax (current - step) limit in
        match descend f current' limit step wrap with
        | Some r => Some ((if wrap then pymod current' 360 else current') :: r)
        | None => None
        end
    end
  else Some [].

(** Passes enough for a loop that covers [dist] in strides of [step]. *)
Definition steps_needed (dist step : Q) : nat :=
  S (Z.to_nat (Qceiling (dist / step))).

Definition opt_app (a b : option (list Q)) : option (list Q) :=
  match a, b with
  | Some x, Some y => Some (x ++ y)
  | _, _ => None
  end.

(** [sample_arc_normalized(start_norm, end_norm, direction, step)];
    [None] stands for a loop that never ends. *)
Definition sample_arc_normalized (start_norm end_norm : Q) (direction : Z)
    (step : Q) : option (list Q) :=
  let body :=
    if (direction =? 1)%Z then
      if Qltb start_norm end_norm then
        climb (steps_needed (end_norm - start_norm) step)
          start_norm end_norm step false
      else
        opt_app
          (climb (steps_needed (360 - start_norm) step) start_norm 360 step true)
          (climb (steps_needed end_norm step) 0 end_norm step false)
    else
      if Qltb end_norm start_norm then
        descend (steps_needed (start_norm - end_norm) step)
          start_norm end_norm step false
      else
        opt_app
          (descend (steps_needed start_norm step) start_norm 0 step false)
          (descend (steps_needed (360 - end_norm) step) 360 end_norm step true)
  in
  match body with
  | Some r =>
      let points := start_norm :: r in
      if Qeqb (last points start_norm) end_norm then Some points
      else Some (points ++ [end_norm])
  | None => None
  end.

(** The value a sampling loop appends for [current]. *)
Definition appended (wrap : bool) (current : Q) : Q :=
  if wrap then pymod current 360 else current.

(** Whether two angles lie at most [step] apart on the circle. *)
Definition near (step x y : Q) : bool :=
  Qleb (pyabs (x - y)) step || Qleb (360 - pyabs (x - y)) step.

(** Whether each sample lies at most [step] from the next one. *)
Fixpoint chain_near (step : Q) (pts : list Q) : bool :=
  match pts with
  | x :: rest =>
      match rest with
      | y :: _ => near step x y && chain_near step rest
      | [] => true
      end
  | [] => true
  end.

(** The loop of [rotation_crosses_wall] over neighbouring samples. *)
Fixpoint any_pair_in_wall (wall_start wall_end : Q) (pts : list Q) : bool :=
  match pts with
  | pt :: rest =>
      match rest with
      | next_pt :: _ =>
          if snd (point_in_wall wall_start wall_end pt)
             || snd (point_in_wall wall_start wall_end next_pt)
          then true
          else any_pair_in_wall wall_start wall_end rest
      | [] => false
      end
  | [] => false
  end.

(** [rotation_crosses_wall(start, end, direction, w1, w2)] *)
Definition rotation_crosses_wall (start end_ : Q) (direction : Z)
    (w1 w2 : option Q) : option bool :=
  match w1, w2 with
  | Some w1, Some w2 =>
      let start_norm := native_to_normalized start in
      let end_norm := native_to_normalized end_ in
      let '(wall_start, wall_end) :=
        ordered_bounds (native_to_normalized w1) (native_to_normalized w2) in
      match sample_arc_normalized start_norm end_norm direction 2 with
      | Some sample_points =>
          Some (any_pair_in_wall wall_start wall_end sample_points)
      | None => None
      end
  | _, _ => Some false
  end.

(** *** The planner *)

(** The answer of the planner: [(None, None)] or [(distance, direction)]. *)
Inductive Plan :=
| NoRoute
| Route (rotation : Q) (direction : Z).

(** [calculate_shortest_rotation(a, b)] *)
Definition calculate_shortest_rotation (a b : Q) : Plan :=
  let a_deg := to_degrees a in
  let b_deg := to_degrees b in
  let rotation := b_deg - a_deg in
  let rotation :=
    if Qltb 180 rotation then rotation - 360
    else if Qltb rotation (-(180)) then rotation + 360
    else rotation in
  Route rotation (if Qleb 0 rotation then 1%Z else (-1)%Z).

(** [cw_rot] and [ccw_rot] as the planner computes them. *)
Definition cw_rot (a_norm b_norm : Q) : Q :=
  let r := pymod (a_norm - b_norm) 360 in
  let r := if Qltb 180 r then r - 360 else r in
  - r.

Definition ccw_rot (a_norm b_norm : Q) : Q :=
  let r := pymod (b_norm - a_norm) 360 in
  if Qltb 180 r then r - 360 else r.

(** The values computed when the start lies inside the wall. *)
Record ExitPlan := {
  exit_pt : Q;
  exit_dir : Z;
  exit_dist : Q;
  remaining_dist : Q
}.

(** The branch of [shortest_rotation] taken when the start is inside the
    wall, up to the computation of [total_rot]. *)
Definition plan_exit (a_norm b_norm wstart_deg wend_deg : Q) : ExitPlan :=
  let w1 := norm360 wstart_deg in
  let w2 := norm360 wend_deg in
  let lower := pymin w1 w2 in
  let upper := pymax w1 w2 in
  let is_at_lower_half :=
    if Qleb w1 w2 then Qltb (a_norm - lower) (upper - a_norm)
    else if Qleb lower a_norm
         then Qltb (a_norm - lower) (360 - a_norm + upper)
         else Qltb (360 - lower + a_norm) (upper - a_norm) in
  if is_at_lower_half then
    let pt := norm360 (lower - 1) in
    let d := pymod (a_norm - pt) 360 in
    let d := if Qltb 180 d then d - 360 else d in
    {| exit_pt := pt; exit_dir := (-1)%Z; exit_dist := - d;
       remaining_dist :=
         if Qleb b_norm pt then - (pt - b_norm)
         else - (360 - b_norm + pt) |}
  else
    let pt := norm360 (upper + 1) in
    let d := pymod (pt - a_norm) 360 in
    let d := if Qltb 180 d then d - 360 else d in
    {| exit_pt := pt; exit_dir := 1%Z; exit_dist := d;
       remaining_dist :=
         if Qleb pt b_norm then b_norm - pt
         else 360 - pt + b_norm |}.

Definition virtualwallpreset_enabled (settings : option Settings) : bool :=
  match settings with
  | Some s =>
      match global_settings s with
      | Some gs => get_default (virtualwallpreset gs) false
      | None => false
      end
  | None => false
  end.

Definition pan_bounds (apcr : option Apcr) : option Q * option Q :=
  match apcr with
  | Some dev => (virtualwallstart_pan dev, virtualwallend_pan dev)
  | None => (None, None)
  end.

(** [shortest_rotation(a, b, apcr, settings)]; the outer [None] stands
    for a run that never returns. *)
Definition shortest_rotation (a b : Q) (apcr : option Apcr)
    (settings : option Settings) : option Plan :=
  if negb (virtualwallpreset_enabled settings) then
    Some (calculate_shortest_rotation a b)
  else
    match pan_bounds apcr with
    | (Some virtualwallstart, Some virtualwallend) =>
        let a_deg := to_degrees a in
        let b_deg := to_degrees b in
        let wstart_deg := to_degrees virtualwallstart in
        let wend_deg := to_degrees virtualwallend in
        let a_norm := norm360 a_deg in
        let b_norm := norm360 b_deg in
        let cw := cw_rot a_norm b_norm in
        let ccw := ccw_rot a_norm b_norm in
        let shortest_option :=
          if Qleb (pyabs cw) (pyabs ccw) then cw else ccw in
        let shortest_dir :=
          if Qeqb shortest_option cw then (-1)%Z else 1%Z in
        if inWall b_deg (Some wstart_deg) (Some wend_deg) then Some NoRoute
        else if inWall a_deg (Some wstart_deg) (Some wend_deg) then
          let e := plan_exit a_norm b_norm wstart_deg wend_deg in
          Some (Route (exit_dist e + remaining_dist e) (exit_dir e))
        else
          match rotation_crosses_wall a_deg b_deg (-1)
                  (Some wstart_deg) (Some wend_deg),
                rotation_crosses_wall a_deg b_deg 1
                  (Some wstart_deg) (Some wend_deg) with
          | Some cw_cross, Some ccw_cross =>
              if cw_cross && ccw_cross then Some NoRoute
              else if cw_cross then Some (Route ccw 1)
              else if ccw_cross then Some (Route cw (-1))
              else Some (Route shortest_option shortest_dir)
          | _, _ => None
          end
    | _ => Some (calculate_shortest_rotation a b)
    end.

(** *** Preset recall *)

(** [preset_data['position']] *)
Record Preset := {
  pan : Q;
  tilt : Q;
  roll : Q;
  zoom : Q
}.

(** What a recall does to the outside: the position-request frame
    [08 <camid> 04 00 00 0e 14 00 00] it sends, its waits, and the call of
    [do_move_segment], the only place of a recall from which pan, tilt,
    roll or zoom commands leave. *)
Inductive RecallEvent :=
| PositionRequest (cam : Z)
| Sleep (seconds : Q)
| MoveSegment (cPan cTilt cRoll cZoom tgtPan tgtTilt tgtRoll tgtZoom : Q)
              (speed : Q) (direction : Z).

(** The globals a recall reads and writes: [_recall_active], [_localPan],
    [controls.virtual_wall_tracker], and the
    ["position_request_frequency"] entry of the settings it overwrites
    and restores; [events] lists its effects, oldest first. *)
Record RecallState := {
  recall_active : bool;
  localPan : Q;
  tracker : Controls.TrackerStore;
  request_frequency : option Q;
  events : list RecallEvent
}.

Definition set_active (b : bool) (s : RecallState) : RecallState :=
  {| recall_active := b; localPan := localPan s; tracker := tracker s;
     request_frequency := request_frequency s; events := events s |}.

Definition set_frequency (f : option Q) (s : RecallState) : RecallState :=
  {| recall_active := recall_active s; localPan := localPan s;
     tracker := tracker s; request_frequency := f; events := events s |}.

Definition reset_tracker (s : RecallState) : RecallState :=
  {| recall_active := recall_active s; localPan := localPan s;
     tracker := Controls.initial_tracker_store;
     request_frequency := request_frequency s; events := events s |}.

Definition emit (e : list RecallEvent) (s : RecallState) : RecallState :=
  {| recall_active := recall_active s; localPan := localPan s;
     tracker := tracker s; request_frequency := request_frequency s;
     events := events s ++ e |}.

(** The three position requests sent before the position is read. *)
Definition position_requests (cam : Z) : list RecallEvent :=
  [PositionRequest cam; Sleep (4 # 100);
   PositionRequest cam; Sleep (4 # 100);
   PositionRequest cam; Sleep (4 # 100)].

Module RequestText.
Import Ascii String Hex.
Local Open Scope string_scope.

(** The text of a position request:
    ["08" + camid_hex + "0400000e140000"]. *)
Definition position_request_hex (cam : Z) : string :=
  "08" ++ format_02 false cam ++ "0400000e140000".

End RequestText.
Export RequestText.

(** How far a recall has come: it has returned, or it has called
    [do_move_segment] and that call is running, [original_freq] being
    the request frequency to restore afterwards. *)
Inductive RecallStage :=
| Returned (s : RecallState)
| InSegment (s : RecallState) (original_freq : Q).

(** [recall_preset(camid, slot_num, apcr, settings)] up to its call of
    [do_move_segment].  [preset_data] is what
    [get_preset(camid, slot_num)] returns and [cpos] what
    [controls.get_current_position(apcr)] returns when it is read.  An
    exception inside the [try] (a missing ["global_settings"], a
    position request whose text [bytes.fromhex] refuses) goes to the
    [except] clause, and the [finally] clause clears [_recall_active] on
    every path that entered the [try]; the request frequency is restored
    only on the paths that do so themselves.  [InSegment s f] is the
    state in which [do_move_segment] is called, the call being the last
    event of [s].  The outer [None] stands for a planner that never
    returns. *)
Definition recall_until_segment (cam : Z) (apcr : Apcr) (settings : Settings)
    (preset_data : option Preset) (cpos : option Controls.Position)
    (s : RecallState) : option RecallStage :=
  if negb (camid apcr =? cam)%Z then Some (Returned s)
  else if recall_active s then Some (Returned s)
  else
    let s := set_active true (reset_tracker (set_active false s)) in
    match preset_data with
    | None => Some (Returned (set_active false s))
    | Some tg =>
        match global_settings settings with
        | None => Some (Returned (set_active false s))
        | Some gs =>
            let sp := get_default (preset_transition_speed gs) 50 in
            let virtualwall_active := get_default (virtualwallpreset gs) false in
            let target_in_wall :=
              if virtualwall_active then
                match virtualwallstart_pan apcr, virtualwallend_pan apcr with
                | Some wstart, Some wend =>
                    inWall (pan tg) (Some wstart) (Some wend)
                | _, _ => false
                end
              else false in
            if target_in_wall then Some (Returned (set_active false s))
            else
              let original_freq :=
                get_default (request_frequency s) (12 # 10) in
              let s := set_frequency (Some (5 # 100)) s in
              match Controls.bytes_fromhex
                      (position_request_hex (camid apcr)) with
              | Controls.Raised _ =>
                  Some (Returned (set_active false (emit [Sleep (2 # 10)] s)))
              | Controls.Ok _ =>
              let s := emit (Sleep (2 # 10) :: position_requests (camid apcr)) s in
              match cpos with
              | None =>
                  Some (Returned
                          (set_active false
                             (set_frequency (Some original_freq) s)))
              | Some p =>
                  let cPan := localPan s in
                  let cTilt := Controls.pos_tilt p / 10 in
                  let cRoll := Controls.pos_roll p / 10 in
                  let cZoom := Controls.pos_zoom p in
                  match shortest_rotation cPan (pan tg) (Some apcr)
                          (Some settings) with
                  | None => None
                  | Some NoRoute =>
                      Some (Returned
                              (set_active false
                                 (set_frequency (Some original_freq) s)))
                  | Some (Route distance direction) =>
                      let finalPan := cPan + distance in
                      Some (InSegment
                              (emit [MoveSegment cPan cTilt cRoll cZoom
                                       finalPan (tilt tg) (roll tg) (zoom tg)
                                       sp direction] s)
                              original_freq)
                  end
              end
              end
        end
    end.

(** What [recall_preset] does once [do_move_segment] has returned: it
    restores the request frequency and its [finally] clause clears
    [_recall_active]. *)
Definition after_segment (original_freq : Q) (s : RecallState)
  : RecallState :=
  set_active false (set_frequency (Some original_freq) s).

(** [recall_preset(camid, slot_num, apcr, settings)] from call to
    return.  The loop of [do_move_segment] is not unfolded here: it ends
    when the feedback reports every axis at its target, on a zoom
    overshoot, on a timeout or on a missing position, keeps sending
    commands until then, and need not end at all.  For a recall that
    goes through [do_move_segment] the result is the state in which the
    recall returns if that call returns; until then the state is the one
    of [recall_until_segment]. *)
Definition recall_preset (cam : Z) (apcr : Apcr) (settings : Settings)
    (preset_data : option Preset) (cpos : option Controls.Position)
    (s : RecallState) : option RecallState :=
  match recall_until_segment cam apcr settings preset_data cpos s with
  | None => None
  | Some (Returned s') => Some s'
  | Some (InSegment s' original_freq) => Some (after_segment original_freq s')
  end.

(** The events that stand for motion commands. *)
Definition is_motion (e : RecallEvent) : bool :=
  match e with MoveSegment _ _ _ _ _ _ _ _ _ _ => true | _ => false end.

(** *** One pass of the movement loop *)

(** [clamp(val, mn, mx)]: [max(mn, min(val, mx))]. *)
Definition clamp (val mn mx : Q) : Q := pymax mn (pymin val mx).

Definition EASE_MARGIN : Q := 1.
Definition EASE_PERIOD : Q := 20.
Definition MAX_STEP_SIZE_PAN : Q := 140.
Definition MAX_STEP_SIZE_TILT : Q := 100.
Definition MAX_STEP_SIZE_ROLL : Q := 50.

(** The pan distance a pass of [do_move_segment] starts from: the
    difference folded into [(-180, 180]]. *)
Definition folded_delta (tgtPan localPan_ : Q) : Q :=
  let dp := pymod (tgtPan - localPan_) 360 in
  if Qltb 180 dp then dp - 360 else dp.

(** What one pass of the loop of [do_move_segment] computes for pan, tilt
    and roll: the three moves it clamps, the flags that end the segment
    once zoom is done too, and the direction sign and overshoot count it
    keeps for the next pass. *)
Record PtrStep := {
  mv_p : Q;
  mv_t : Q;
  mv_r : Q;
  doneP : bool;
  doneT : bool;
  doneR : bool;
  next_dp_sign : Z;
  next_overshoot_count : nat
}.

(** The pan, tilt and roll part of one pass of the [while] loop of
    [do_move_segment], from the computation of [dp] to the clamped moves;
    [localPan_] is [_localPan] as the feedback last set it,
    [virtual_wall_active] the ["virtualwallpreset"] switch. *)
Definition ptr_step (speed : Q) (direction : Z) (virtual_wall_active : bool)
    (tgtPan localPan_ tgtTilt cTilt tgtRoll cRoll : Q)
    (last_dp_sign : option Z) (overshoot_count : nat) : PtrStep :=
  let st_pan_max := pymin (MAX_STEP_SIZE_PAN * speed / 100) 90 in
  let st_tilt := MAX_STEP_SIZE_TILT * speed / 100 in
  let st_roll := MAX_STEP_SIZE_ROLL * speed / 100 in
  let pan_ease_frac := EASE_PERIOD / 100 in
  let dp := folded_delta tgtPan localPan_ in
  let current_dp_sign := if Qleb 0 dp then 1%Z else (-1)%Z in
  let overshoot_detected :=
    match last_dp_sign with
    | Some l =>
        negb (current_dp_sign =? l)%Z && Qltb (pyabs dp) (EASE_MARGIN * 5)
    | None => false
    end in
  let overshoot_count :=
    if overshoot_detected then S overshoot_count else overshoot_count in
  let p_st :=
    if Qltb (pyabs dp) 20
    then st_pan_max * pymax (3 # 10) (pymin 1 (pyabs dp / 20))
    else st_pan_max in
  let dp :=
    if Qleb (pyabs dp) (EASE_MARGIN * 3) || overshoot_detected
       || (2 <=? overshoot_count)%nat || negb virtual_wall_active
    then dp
    else if ((direction =? 1)%Z && Qltb dp 0)
            || ((direction =? -1)%Z && Qltb 0 dp)
         then - dp else dp in
  let dt := tgtTilt - cTilt in
  let dr := tgtRoll - cRoll in
  let mxptr := pymax (pymax (pyabs dp) (pyabs dt)) (pyabs dr) in
  let eased :=
    Qltb mxptr (pan_ease_frac * pymax (pymax p_st st_tilt) st_roll) in
  let p_st := if eased then p_st * (1 # 2) else p_st in
  let t_st := if eased then st_tilt * (1 # 2) else st_tilt in
  let r_st := if eased then st_roll * (1 # 2) else st_roll in
  {| mv_p := clamp dp (- p_st) p_st;
     mv_t := clamp dt (- t_st) t_st;
     mv_r := clamp dr (- r_st) r_st;
     doneP := Qleb (pyabs dp) EASE_MARGIN;
     doneT := Qleb (pyabs dt) EASE_MARGIN;
     doneR := Qleb (pyabs dr) EASE_MARGIN;
     next_dp_sign := current_dp_sign;
     next_overshoot_count := overshoot_count |}.

(** *** Notions used to state properties of the planner *)

(** Two angles that differ by a whole number of turns. *)
Definition same_heading (x y : Q) : Prop :=
  exists k : Z, x == y + 360 * inject_Z k.

(** Membership of a sample in the wall between sorted normalized bounds. *)
Definition in_sorted_wall (wall_start wall_end p : Q) : bool :=
  Qleb wall_start p && Qleb p wall_end.

(** The rotation and the direction of a plan that has a route. *)
Definition plan_rotation (p : Plan) : option Q :=
  match p with Route r _ => Some r | NoRoute => None end.

Definition plan_direction (p : Plan) : option Z :=
  match p with Route _ d => Some d | NoRoute => None end.

(** What a move segment started by a recall of preset [tg] from state [s]
    is expected to carry: the tracked pan as its start, a target pan with
    the heading of the preset's pan, the preset's tilt, roll and zoom, and
    a direction [1] or [-1]. *)
Definition aims_at (s : RecallState) (tg : Preset) (e : RecallEvent) : Prop :=
  match e with
  | MoveSegment cP _ _ _ tP tT tR tZ _ d =>
      cP = localPan s
      /\ same_heading tP (to_degrees (pan tg))
      /\ tT = tilt tg /\ tR = roll tg /\ tZ = zoom tg
      /\ (d = 1 \/ d = -1)%Z
  | _ => True
  end.

End Presets.

(** ** presets.py: the frames of a recall on the wire *)

Module Wire.
Import Py Hex Ascii String.
Local Open Scope string_scope.

(** [round(x)] to an integer: halves go to the even neighbour. *)
Definition py_round (x : Q) : Z :=
  let f := Qfloor x in
  let r := x - inject_Z f in
  if Qltb r (1 # 2) then f
  else if Qltb (1 # 2) r then (f + 1)%Z
  else if Z.even f then f else (f + 1)%Z.

(** The exponent of a positive number: the [e] with
    [2 ^ e <= x < 2 ^ (e + 1)]. *)
Definition floor_log2 (x : Q) : Z :=
  let e0 := (Z.log2 (Qnum x) - Z.log2 (Zpos (Qden x)))%Z in
  if Qleb (2 ^ e0) x then e0 else (e0 - 1)%Z.

(** The binary64 number nearest to [x], ties going to the even
    significand of 53 bits: what a float literal and a float operation
    whose exact value is [x] evaluate to, for magnitudes in the normal
    range of the format. *)
Definition b64 (x : Q) : Q :=
  if Qeqb x 0 then 0
  else
    let ulp := 2 ^ (floor_log2 (pyabs x) - 52) in
    inject_Z (py_round (x / ulp)) * ulp.

(** [SCALES[axis]]: the float literals [13.48] and [13.365]. *)
Definition SCALES (axis : Controls.Axis) : Q :=
  match axis with
  | Controls.Pan => b64 (1348 # 100)
  | _ => b64 (13365 # 1000)
  end.

(** [clamp(val, mn, mx)] on integers. *)
Definition clamp_int (val mn mx : Z) : Z := Z.max mn (Z.min val mx).

(** The two bytes of [v.to_bytes(2, byteorder='little', signed=True)] and
    of [struct.pack('<h', v)], for [v] in the signed 16-bit range, written
    by [.hex()]. *)
Definition le16_hex (v : Z) : string :=
  let u := (v mod 65536)%Z in
  format_02 false (u mod 256)%Z ++ format_02 false (u / 256)%Z.

(** The signed value of two little-endian bytes. *)
Definition le16_signed (lo hi : Z) : Z :=
  let u := (lo + 256 * hi)%Z in
  if (u <? 32768)%Z then u else (u - 65536)%Z.

(** [build_pan_tilt_roll_packet(camid, axis, degrees, relative)] of
    presets.py; an axis other than pan, tilt and roll gives [None].
    [degrees] is a float, and [degrees * SCALES[axis]] is the float
    product: the exact product rounded to binary64, which [round] then
    takes to an integer. *)
Definition build_pan_tilt_roll_packet (camid : Z) (axis : Controls.Axis)
    (degrees : Q) (relative : bool) : option string :=
  let CMD_IDS :=
    match axis with
    | Controls.Pan => Some "06"
    | Controls.Tilt => Some "07"
    | Controls.Roll => Some "08"
    | Controls.Zoom => None
    end in
  match CMD_IDS with
  | None => None
  | Some cmd =>
      let sval := py_round (b64 (degrees * SCALES axis)) in
      let sval := clamp_int sval (-32768) 32767 in
      let lehex := le16_hex sval in
      let ctrl := if relative then "80" else "81" in
      Some ("0A" ++ format_02 true camid ++ "06" ++ "00000" ++ "E" ++ cmd
            ++ ctrl ++ "00" ++ lehex)
  end.

(** [build_relative_zoom_packet(camid, speed_int)] *)
Definition build_relative_zoom_packet (camid speed_int : Z) : string :=
  let speed_int := clamp_int speed_int (-32768) 32767 in
  let lohi := le16_hex speed_int in
  "0A" ++ format_02 true camid ++ "06" ++ "000000" ++ "098000" ++ lohi.

(** [build_absolute_zoom_packet(camid, zoom_val)] *)
Definition build_absolute_zoom_packet (camid : Z) (zoom_val : Q) : string :=
  let z := clamp_int (py_round zoom_val) 0 4095 in
  let lo := Z.land z 255 in
  let hi := Z.land (Z.shiftr z 8) 255 in
  ("0A" ++ format_02 true camid ++ "0600000E0A80")
  ++ ("00" ++ format_02 true lo ++ format_02 true hi).

(** The scale of an axis as the source writes it in decimal. *)
Definition axis_scale (axis : Controls.Axis) : Q :=
  match axis with
  | Controls.Pan => 1348 # 100
  | _ => 13365 # 1000
  end.

(** The command byte of an axis in a pan, tilt or roll frame. *)
Definition axis_command (axis : Controls.Axis) : Z :=
  match axis with
  | Controls.Pan => 6
  | Controls.Tilt => 7
  | Controls.Roll => 8
  | Controls.Zoom => 9
  end%Z.

End Wire.

(** ** Configurations used in the examples *)

Module Examples.
Import Config.

(** A device with no wall and no adaptive-speed overrides. *)
Definition plain_device : Apcr :=
  {| camid := 1;
     virtualwallstart_pan := None; virtualwallend_pan := None;
     virtualwallstart_tilt := None; virtualwallend_tilt := None;
     adaptive_speed_map_0 := None; adaptive_speed_map_10 := None;
     adaptive_speed_map_25 := None; adaptive_speed_map_50 := None;
     adaptive_speed_map_75 := None; adaptive_speed_map_100 := None |}.

(** A device with the given camera id, no wall and no overrides. *)
Definition numbered_device (c : Z) : Apcr :=
  {| camid := c;
     virtualwallstart_pan := None; virtualwallend_pan := None;
     virtualwallstart_tilt := None; virtualwallend_tilt := None;
     adaptive_speed_map_0 := None; adaptive_speed_map_10 := None;
     adaptive_speed_map_25 := None; adaptive_speed_map_50 := None;
     adaptive_speed_map_75 := None; adaptive_speed_map_100 := None |}.

(** The same device with a pan wall between [w1] and [w2]. *)
Definition walled_device (w1 w2 : Q) : Apcr :=
  {| camid := 1;
     virtualwallstart_pan := Some w1; virtualwallend_pan := Some w2;
     virtualwallstart_tilt := None; virtualwallend_tilt := None;
     adaptive_speed_map_0 := None; adaptive_speed_map_10 := None;
     adaptive_speed_map_25 := None; adaptive_speed_map_50 := None;
     adaptive_speed_map_75 := None; adaptive_speed_map_100 := None |}.

(** Settings with the three switches set as given and no speed keys. *)
Definition switches (wall preset_wall adaptive : bool) : Settings :=
  {| global_settings :=
       Some {| virtualwall := Some wall;
               virtualwallpreset := Some preset_wall;
               adaptive_speed := Some adaptive;
               ptr_speed := None;
               preset_transition_speed := None |} |}.

(** A recall state at rest, the tracked pan at 50 degrees. *)
Definition resting_at_50 : Presets.RecallState :=
  {| Presets.recall_active := false; Presets.localPan := 50;
     Presets.tracker := Controls.initial_tracker_store;
     Presets.request_frequency := None; Presets.events := [] |}.

(** A recall state at rest, the tracked pan at 355 degrees. *)
Definition resting_at_355 : Presets.RecallState :=
  {| Presets.recall_active := false; Presets.localPan := 355;
     Presets.tracker := Controls.initial_tracker_store;
     Presets.request_frequency := None; Presets.events := [] |}.

(** The position report of a device at pan 355 degrees, level and
    zoomed out, in tenths of a degree. *)
Definition reported_at_355 : Controls.Position :=
  {| Controls.pos_pan := 3550; Controls.pos_tilt := 0;
     Controls.pos_roll := 0; Controls.pos_zoom := 1 |}.

(** A stored preset with the given pan, level and zoomed out. *)
Definition preset_at (p : Q) : Presets.Preset :=
  {| Presets.pan := p; Presets.tilt := 0; Presets.roll := 0;
     Presets.zoom := 1 |}.

(** The exit computed for current pan 150, target 250 and the wall
    between 100 and 200. *)
Definition exit_150_250 : Presets.ExitPlan :=
  Presets.plan_exit (Presets.norm360 150) (Presets.norm360 250) 100 200.

(** The pan slot of an axis held to the right at full speed, its repeat
    timer being the first timer started. *)
Definition pan_moving : Controls.AxisState :=
  {| Controls.active := true;
     Controls.direction := Some Controls.Positive;
     Controls.percentage := 100;
     Controls.control_type := Some Controls.AxisControl;
     Controls.original_percentage := None;
     Controls.timer := Some 0%nat;
     Controls.idle_timer := None |}.

(** A process in which only the pan axis moves, the device last reported
    pan, tilt and roll 0 at the widest zoom, and the predicted-block flag
    is as given. *)
Definition moving_world (blocked : bool) : Controls.World :=
  {| Controls.movement_state :=
       fun a => match a with
                | Controls.Pan => pan_moving
                | _ => Controls.idle_axis_state
                end;
     Controls.timers :=
       [{| Controls.t_delay := Controls.REPEAT_INTERVAL;
           Controls.t_callback :=
             Controls.RepeatCb Controls.Pan plain_device None None;
           Controls.t_status := Controls.Pending |}];
     Controls.outbox :=
       [Controls.MovePacket Controls.Pan (Some Controls.Positive) 1 2024];
     Controls.cumulative_delta := 0;
     Controls.predicted_block := blocked;
     Controls.current_position :=
       fun _ => Some {| Controls.pos_pan := 0; Controls.pos_tilt := 0;
                        Controls.pos_roll := 0; Controls.pos_zoom := 1 |};
     Controls.last_input_time := None;
     Controls.zoom_active := false;
     Controls.status_updates := 0 |}.


(** The process at start-up, with no position report received yet. *)
Definition rest_world : Controls.World :=
  {| Controls.movement_state := fun _ => Controls.idle_axis_state;
     Controls.timers := [];
     Controls.outbox := [];
     Controls.cumulative_delta := 0;
     Controls.predicted_block := false;
     Controls.current_position := fun _ => None;
     Controls.last_input_time := None;
     Controls.zoom_active := false;
     Controls.status_updates := 0 |}.

(** The process after the pan axis of the device with camera id 256 has
    been started to the right at half speed. *)
Definition moving_on_256 : Controls.World :=
  Controls.start_or_update_movement Controls.Pan (Some Controls.Positive) 50
    (numbered_device 256) Controls.AxisControl None None [] rest_world.

End Examples.

(** * Properties *)

Import Py Config.

(** ** Facts about the arithmetic *)

Lemma Qleb_spec x y : Qleb x y = true <-> x <= y.
Proof. apply Qle_bool_iff. Qed.

Lemma Qltb_spec x y : Qltb x y = true <-> x < y.
Proof.
  unfold Qltb. rewrite negb_true_iff.
  split; intro H.
  - apply Qnot_le_lt. intro Hle. apply Qle_bool_iff in Hle. congruence.
  - destruct (Qle_bool y x) eqn:E; [|reflexivity].
    apply Qle_bool_iff in E. exfalso. apply (Qlt_not_le _ _ H E).
Qed.

Lemma Qleb_false x y : Qleb x y = false <-> y < x.
Proof.
  split; intro H.
  - apply Qnot_le_lt. intro Hle. apply Qleb_spec in Hle. congruence.
  - destruct (Qleb x y) eqn:E; [|reflexivity].
    apply Qleb_spec in E. exfalso. apply (Qlt_not_le _ _ H E).
Qed.

Lemma Qltb_false x y : Qltb x y = false <-> y <= x.
Proof.
  unfold Qltb. rewrite negb_false_iff. apply Qle_bool_iff.
Qed.

Lemma pymin_le_l x y : pymin x y <= x.
Proof.
  unfold pymin. destruct (Qltb y x) eqn:E.
  - apply Qltb_spec in E. lra.
  - lra.
Qed.

Lemma pymin_le_r x y : pymin x y <= y.
Proof.
  unfold pymin. destruct (Qltb y x) eqn:E.
  - lra.
  - apply Qltb_false in E. lra.
Qed.

Lemma pymax_ge_l x y : x <= pymax x y.
Proof.
  unfold pymax. destruct (Qltb x y) eqn:E.
  - apply Qltb_spec in E. lra.
  - lra.
Qed.

Lemma pymax_ge_r x y : y <= pymax x y.
Proof.
  unfold pymax. destruct (Qltb x y) eqn:E.
  - lra.
  - apply Qltb_false in E. lra.
Qed.

(** The floored remainder lies in [[0, m)]. *)
Lemma pymod_range x m : 0 < m -> 0 <= pymod x m /\ pymod x m < m.
Proof.
  intro Hm. unfold pymod.
  assert (Hne : ~ m == 0) by lra.
  pose proof (Qfloor_le (x / m)) as Hlo.
  pose proof (Qlt_floor (x / m)) as Hhi.
  assert (Hx : x == m * (x / m)) by (field; exact Hne).
  set (q := x / m) in *.
  set (f := inject_Z (Qfloor q)) in *.
  assert (Hf1 : inject_Z (Qfloor q + 1) == f + 1).
  { unfold f. rewrite inject_Z_plus. reflexivity. }
  rewrite Hf1 in Hhi.
  split.
  - assert (m * f <= m * q) by (apply Qmult_le_l; assumption).
    lra.
  - assert (m * q < m * (f + 1)) by (apply Qmult_lt_l; assumption).
    lra.
Qed.

Lemma pymod_congr x m : 0 < m -> exists k : Z, pymod x m == x - m * inject_Z k.
Proof. intros _. exists (Qfloor (x / m)). reflexivity. Qed.

(** A value already in [[0, m)] is left alone. *)
Lemma pymod_small x m : 0 <= x -> x < m -> pymod x m == x.
Proof.
  intros H0 Hm. unfold pymod.
  assert (Hmpos : 0 < m) by lra.
  assert (Hf : Qfloor (x / m) = 0%Z).
  { assert (H1 : 0 <= x / m).
    { apply Qle_shift_div_l; lra. }
    assert (H2 : x / m < 1).
    { apply Qlt_shift_div_r; lra. }
    pose proof (Qfloor_le (x / m)) as Hlo.
    pose proof (Qlt_floor (x / m)) as Hhi.
    rewrite inject_Z_plus in Hhi.
    assert (Ha : (Qfloor (x / m) < 1)%Z).
    { rewrite Zlt_Qlt. change (inject_Z 1) with 1. lra. }
    assert (Hb : (-1 < Qfloor (x / m))%Z).
    { rewrite Zlt_Qlt. change (inject_Z (-1)) with (-(1)).
      change (inject_Z 1) with 1 in Hhi. lra. }
    lia. }
  rewrite Hf. change (inject_Z 0) with 0. ring.
Qed.

(** The floored remainder is the only value of [[0, m)] that differs from
    [x] by a multiple of [m]. *)
Lemma pymod_unique x m r (k : Z) :
  0 < m -> 0 <= r -> r < m -> x == r + m * inject_Z k -> pymod x m == r.
Proof.
  intros Hm H0 H1 Hx. unfold pymod.
  assert (Hq : x / m == r / m + inject_Z k).
  { rewrite Hx. field. lra. }
  assert (Hr0 : 0 <= r / m) by (apply Qle_shift_div_l; lra).
  assert (Hr1 : r / m < 1) by (apply Qlt_shift_div_r; lra).
  pose proof (Qfloor_le (x / m)) as Hlo.
  pose proof (Qlt_floor (x / m)) as Hhi.
  rewrite inject_Z_plus in Hhi. change (inject_Z 1) with 1 in Hhi.
  assert (Hf : Qfloor (x / m) = k).
  { assert (Ha : (Qfloor (x / m) < k + 1)%Z).
    { rewrite Zlt_Qlt, inject_Z_plus. change (inject_Z 1) with 1. lra. }
    assert (Hb : (k < Qfloor (x / m) + 1)%Z).
    { rewrite Zlt_Qlt, inject_Z_plus. change (inject_Z 1) with 1. lra. }
    lia. }
  rewrite Hf, Hx. ring.
Qed.

Lemma Qeqb_spec x y : Qeqb x y = true <-> x == y.
Proof. apply Qeq_bool_iff. Qed.

(** Rewrites every boolean comparison among the hypotheses into the
    order fact it stands for. *)
Ltac bool_to_order :=
  repeat match goal with
  | H : Qleb _ _ = true |- _ => apply Qleb_spec in H
  | H : Qleb _ _ = false |- _ => apply Qleb_false in H
  | H : Qltb _ _ = true |- _ => apply Qltb_spec in H
  | H : Qltb _ _ = false |- _ => apply Qltb_false in H
  | H : Qeqb _ _ = true |- _ => apply Qeqb_spec in H
  | H : _ && _ = true |- _ => apply andb_true_iff in H; destruct H
  end.

(** ** The wall-membership test of the planner *)

Section PresetWall.
Import Presets.

Lemma native_to_normalized_range x :
  0 <= native_to_normalized x /\ native_to_normalized x < 360.
Proof. unfold native_to_normalized. apply pymod_range. lra. Qed.

Lemma ordered_bounds_sorted n1 n2 :
  fst (ordered_bounds n1 n2) <= snd (ordered_bounds n1 n2).
Proof.
  unfold ordered_bounds. destruct (Qleb n1 n2) eqn:E; simpl; bool_to_order; lra.
Qed.

Lemma ordered_bounds_min_max n1 n2 :
  fst (ordered_bounds n1 n2) == Qmin n1 n2
  /\ snd (ordered_bounds n1 n2) == Qmax n1 n2.
Proof.
  unfold ordered_bounds. destruct (Qleb n1 n2) eqn:E; simpl; bool_to_order.
  - split; [symmetry; apply Q.min_l | symmetry; apply Q.max_r]; lra.
  - split; [symmetry; apply Q.min_r | symmetry; apply Q.max_l]; lra.
Qed.

(** On sorted bounds the test is the closed-interval test and takes the
    first arm. *)
Lemma point_in_wall_sorted ws we pt :
  ws <= we ->
  point_in_wall ws we pt = (NoWrap, Qleb ws pt && Qleb pt we).
Proof.
  intro H. unfold point_in_wall.
  destruct (Qleb ws we) eqn:E; [reflexivity|].
  bool_to_order. lra.
Qed.

Lemma inWall_traced_eq angle w1 w2 :
  inWall_traced angle (Some w1) (Some w2) =
  (Some NoWrap,
   Qleb (fst (ordered_bounds (native_to_normalized w1) (native_to_normalized w2)))
        (native_to_normalized angle)
   && Qleb (native_to_normalized angle)
        (snd (ordered_bounds (native_to_normalized w1) (native_to_normalized w2)))).
Proof.
  unfold inWall_traced.
  pose proof (ordered_bounds_sorted (native_to_normalized w1)
                (native_to_normalized w2)) as Hs.
  destruct (ordered_bounds _ _) as [ws we]. simpl in *.
  rewrite (point_in_wall_sorted _ _ _ Hs). reflexivity.
Qed.

Lemma inWall_interval angle w1 w2 :
  inWall angle (Some w1) (Some w2) = true <->
  Qmin (native_to_normalized w1) (native_to_normalized w2)
    <= native_to_normalized angle
  /\ native_to_normalized angle
    <= Qmax (native_to_normalized w1) (native_to_normalized w2).
Proof.
  unfold inWall. rewrite inWall_traced_eq. simpl.
  destruct (ordered_bounds_min_max (native_to_normalized w1)
              (native_to_normalized w2)) as [Hmin Hmax].
  rewrite andb_true_iff, !Qleb_spec, Hmin, Hmax. reflexivity.
Qed.

(** C10.  The planner's wall-membership test is symmetric in its two
    bounds and holds exactly when the normalized angle lies in the closed
    interval from the smaller to the larger normalized bound.  Its
    wrap-around arm is never taken, because the bounds are sorted before
    the arm is chosen; so the bounds 350 and 10 describe the interval
    [[10, 350]]: 180 is inside, 0 and 355 are outside. *)
Theorem preset_inWall_is_sorted_interval (angle w1 w2 : Q) :
  inWall angle (Some w1) (Some w2) = inWall angle (Some w2) (Some w1)
  /\ (inWall angle (Some w1) (Some w2) = true <->
      Qmin (native_to_normalized w1) (native_to_normalized w2)
        <= native_to_normalized angle
      /\ native_to_normalized angle
        <= Qmax (native_to_normalized w1) (native_to_normalized w2))
  /\ fst (inWall_traced angle (Some w1) (Some w2)) = Some NoWrap
  /\ (inWall angle (Some 350) (Some 10) = true <->
      10 <= native_to_normalized angle <= 350)
  /\ inWall 180 (Some 350) (Some 10) = true
  /\ inWall 0 (Some 350) (Some 10) = false
  /\ inWall 355 (Some 350) (Some 10) = false.
Proof.
  split; [|split; [|split; [|split; [|split; [|split]]]]].
  - apply eq_true_iff_eq. rewrite !inWall_interval.
    rewrite (Q.min_comm (native_to_normalized w1)).
    rewrite (Q.max_comm (native_to_normalized w1)). reflexivity.
  - apply inWall_interval.
  - rewrite inWall_traced_eq. reflexivity.
  - rewrite inWall_interval.
    assert (H350 : native_to_normalized 350 == 350) by reflexivity.
    assert (H10 : native_to_normalized 10 == 10) by reflexivity.
    rewrite H350, H10.
    rewrite (Q.min_r 350 10), (Q.max_l 350 10) by (unfold Qle; simpl; lia).
    reflexivity.
  - reflexivity.
  - reflexivity.
  - reflexivity.
Qed.

End PresetWall.

(** ** Adaptive speed *)

Section AdaptiveSpeed.
Import Controls Examples.

Lemma clamp_speed_range a : (1 <= clamp_speed a <= 100)%Z.
Proof. unfold clamp_speed. lia. Qed.

Lemma clamp_zoom_range z : 0 <= clamp_zoom z /\ clamp_zoom z <= 100.
Proof.
  unfold clamp_zoom, pymax, pymin.
  destruct (Qltb z 100) eqn:E1.
  - destruct (Qltb 0 z) eqn:E2; bool_to_order; lra.
  - change (Qltb 0 100) with true. cbv iota. bool_to_order. lra.
Qed.

Lemma clamp_zoom_idem z : clamp_zoom (clamp_zoom z) = clamp_zoom z.
Proof.
  unfold clamp_zoom, pymax, pymin.
  destruct (Qltb z 100) eqn:E1.
  - destruct (Qltb 0 z) eqn:E2.
    + rewrite E1, E2. reflexivity.
    + reflexivity.
  - reflexivity.
Qed.

(** Whenever the zoom lies between the first and the last level of a
    mapping with two entries or more, a pair of neighbours brackets it and
    the loop returns a clamped value. *)
Lemma interpolate_loop_total m : forall z,
  (2 <= length m)%nat ->
  fst (hd (0, 0) m) <= z -> z <= fst (last m (0, 0)) ->
  exists n, interpolate_loop z m = Some n /\ (1 <= n <= 100)%Z.
Proof.
  induction m as [|[k0 v0] rest IH]; intros z Hlen Hlo Hhi.
  - simpl in Hlen. lia.
  - destruct rest as [|[k1 v1] rest'].
    + simpl in Hlen. lia.
    + cbn [interpolate_loop].
      destruct (Qleb k0 z && Qleb z k1) eqn:E.
      * eexists. split; [reflexivity | apply clamp_speed_range].
      * apply IH.
        -- destruct rest' as [|p rest''].
           ++ exfalso. simpl in Hlo, Hhi.
              apply andb_false_iff in E. destruct E as [E|E]; bool_to_order; lra.
           ++ simpl. lia.
        -- simpl in Hlo |- *.
           apply andb_false_iff in E. destruct E as [E|E]; bool_to_order; lra.
        -- exact Hhi.
Qed.

(** The mapping always starts at level 0, ends at level 100 and has at
    least the two default entries. *)
Lemma build_zoom_speed_mapping_shape dev :
  fst (hd (0, 0) (build_zoom_speed_mapping dev)) = 0
  /\ fst (last (build_zoom_speed_mapping dev) (0, 0)) = 100
  /\ (2 <= length (build_zoom_speed_mapping dev))%nat.
Proof.
  destruct dev as [c p1 p2 t1 t2 a0 a10 a25 a50 a75 a100].
  destruct a0, a10, a25, a50, a75, a100;
    vm_compute; (split; [reflexivity | split; [reflexivity | lia]]).
Qed.

(** The mapping comes out sorted, with pairwise distinct levels. *)
Lemma build_zoom_speed_mapping_sorted dev :
  levels_increase (build_zoom_speed_mapping dev) = true.
Proof.
  destruct dev as [c p1 p2 t1 t2 a0 a10 a25 a50 a75 a100].
  destruct a0, a10, a25, a50, a75, a100; vm_compute; reflexivity.
Qed.

Lemma speed_from_mapping_clamped z base dev :
  exists n, speed_from_mapping (clamp_zoom z) base (build_zoom_speed_mapping dev)
            = inject_Z n /\ (1 <= n <= 100)%Z.
Proof.
  destruct (build_zoom_speed_mapping_shape dev) as [Hhd [Hlast Hlen]].
  destruct (clamp_zoom_range z) as [H0 H100].
  destruct (interpolate_loop_total (build_zoom_speed_mapping dev) (clamp_zoom z))
    as [n [Hn Hr]]; [exact Hlen | rewrite Hhd; exact H0 | rewrite Hlast; exact H100 |].
  exists n. split; [|exact Hr].
  unfold speed_from_mapping. rewrite Hn.
  destruct (length (build_zoom_speed_mapping dev) <? 2)%nat eqn:E; [|reflexivity].
  apply Nat.ltb_lt in E. lia.
Qed.

(** C6.  With adaptive speed enabled and only the default breakpoints the
    speed is 50 at zoom 0, 3 at zoom 100 and 26 at zoom 50; with adaptive
    speed disabled (or no settings at all) the base speed is returned
    unchanged, as it is from a mapping with fewer than two breakpoints;
    the zoom percentage is clamped to [[0, 100]] before use, and with any
    overrides the enabled result is a whole number clamped to
    [[1, 100]]. *)
Theorem adaptive_speed_interpolation :
  (forall base,
      calculate_adaptive_speed 0 base (Some (switches false false true))
        (Some plain_device) = 50
      /\ calculate_adaptive_speed 100 base (Some (switches false false true))
           (Some plain_device) = 3
      /\ calculate_adaptive_speed 50 base (Some (switches false false true))
           (Some plain_device) = 26)
  /\ (forall z base apcr w pw ps ts,
        calculate_adaptive_speed z base None apcr = base
        /\ calculate_adaptive_speed z base
             (Some {| global_settings := None |}) apcr = base
        /\ calculate_adaptive_speed z base
             (Some {| global_settings :=
                        Some {| virtualwall := w; virtualwallpreset := pw;
                                adaptive_speed := Some false;
                                ptr_speed := ps;
                                preset_transition_speed := ts |} |}) apcr = base
        /\ calculate_adaptive_speed z base
             (Some {| global_settings :=
                        Some {| virtualwall := w; virtualwallpreset := pw;
                                adaptive_speed := None;
                                ptr_speed := ps;
                                preset_transition_speed := ts |} |}) apcr = base)
  /\ (forall z base p,
        speed_from_mapping z base [] = base
        /\ speed_from_mapping z base [p] = base)
  /\ (forall z base settings apcr,
        calculate_adaptive_speed z base settings apcr
        = calculate_adaptive_speed (clamp_zoom z) base settings apcr
        /\ 0 <= clamp_zoom z /\ clamp_zoom z <= 100)
  /\ (forall z base dev w pw ps ts,
        exists n : Z,
          calculate_adaptive_speed z base
            (Some {| global_settings :=
                       Some {| virtualwall := w; virtualwallpreset := pw;
                               adaptive_speed := Some true;
                               ptr_speed := ps;
                               preset_transition_speed := ts |} |})
            (Some dev) = inject_Z n
          /\ (1 <= n <= 100)%Z).
Proof.
  split; [|split; [|split; [|split]]].
  - intro base. repeat split; vm_compute; reflexivity.
  - intros. repeat split; reflexivity.
  - intros. split; reflexivity.
  - intros z base settings apcr. split; [|apply clamp_zoom_range].
    unfold calculate_adaptive_speed.
    destruct (negb (adaptive_speed_enabled settings)); [reflexivity|].
    destruct apcr; [|reflexivity].
    rewrite clamp_zoom_idem. reflexivity.
  - intros z base dev w pw ps ts.
    unfold calculate_adaptive_speed. cbn [adaptive_speed_enabled global_settings
      adaptive_speed get_default negb].
    apply speed_from_mapping_clamped.
Qed.

End AdaptiveSpeed.

(** ** Sampling terminates *)

Section Sampling.
Import Presets.

Lemma steps_needed_covers dist step :
  0 < step -> dist <= step * inject_Z (Z.of_nat (steps_needed dist step)).
Proof.
  intro Hs. unfold steps_needed.
  rewrite Nat2Z.inj_succ. unfold Z.succ. rewrite inject_Z_plus.
  change (inject_Z 1) with 1.
  pose proof (Qle_ceiling (dist / step)) as Hc.
  assert (Hd : dist == step * (dist / step)) by (field; lra).
  assert (Hn : inject_Z (Qceiling (dist / step))
               <= inject_Z (Z.of_nat (Z.to_nat (Qceiling (dist / step))))).
  { rewrite <- Zle_Qle. lia. }
  assert (Hm : step * (dist / step)
               <= step * inject_Z (Z.of_nat (Z.to_nat (Qceiling (dist / step))))).
  { apply Qmult_le_l; [exact Hs | lra]. }
  lra.
Qed.

Lemma climb_total step limit wrap : 0 < step ->
  forall fuel current,
    limit - current <= step * inject_Z (Z.of_nat fuel) ->
    exists r, climb fuel current limit step wrap = Some r.
Proof.
  intros Hs. induction fuel as [|f IH]; intros current Hd.
  - simpl in *. destruct (Qltb current limit) eqn:E.
    + bool_to_order. change (inject_Z 0) with 0 in Hd. lra.
    + eexists; reflexivity.
  - cbn [climb]. destruct (Qltb current limit) eqn:E; [|eexists; reflexivity].
    bool_to_order.
    destruct (IH (pymin (current + step) limit)) as [r Hr].
    + rewrite Nat2Z.inj_succ in Hd. unfold Z.succ in Hd.
      rewrite inject_Z_plus in Hd. change (inject_Z 1) with 1 in Hd.
      assert (H0 : 0 <= step * inject_Z (Z.of_nat f)).
      { apply Qmult_le_0_compat; [lra|].
        change 0 with (inject_Z 0). rewrite <- Zle_Qle. lia. }
      unfold pymin. destruct (Qltb limit (current + step)); lra.
    + rewrite Hr. eexists; reflexivity.
Qed.

Lemma descend_total step limit wrap : 0 < step ->
  forall fuel current,
    current - limit <= step * inject_Z (Z.of_nat fuel) ->
    exists r, descend fuel current limit step wrap = Some r.
Proof.
  intros Hs. induction fuel as [|f IH]; intros current Hd.
  - simpl in *. destruct (Qltb limit current) eqn:E.
    + bool_to_order. change (inject_Z 0) with 0 in Hd. lra.
    + eexists; reflexivity.
  - cbn [descend]. destruct (Qltb limit current) eqn:E; [|eexists; reflexivity].
    bool_to_order.
    destruct (IH (pymax (current - step) limit)) as [r Hr].
    + rewrite Nat2Z.inj_succ in Hd. unfold Z.succ in Hd.
      rewrite inject_Z_plus in Hd. change (inject_Z 1) with 1 in Hd.
      assert (H0 : 0 <= step * inject_Z (Z.of_nat f)).
      { apply Qmult_le_0_compat; [lra|].
        change 0 with (inject_Z 0). rewrite <- Zle_Qle. lia. }
      unfold pymax. destruct (Qltb (current - step) limit); lra.
    + rewrite Hr. eexists; reflexivity.
Qed.

(** With a positive step every arc is sampled in finitely many passes. *)
Lemma sample_arc_normalized_total start_norm end_norm direction step :
  0 < step ->
  exists pts, sample_arc_normalized start_norm end_norm direction step = Some pts.
Proof.
  intro Hs. unfold sample_arc_normalized.
  assert (Hbody : exists r,
    (if (direction =? 1)%Z then
       if Qltb start_norm end_norm then
         climb (steps_needed (end_norm - start_norm) step)
           start_norm end_norm step false
       else
         opt_app
           (climb (steps_needed (360 - start_norm) step) start_norm 360 step true)
           (climb (steps_needed end_norm step) 0 end_norm step false)
     else
       if Qltb end_norm start_norm then
         descend (steps_needed (start_norm - end_norm) step)
           start_norm end_norm step false
       else
         opt_app
           (descend (steps_needed start_norm step) start_norm 0 step false)
           (descend (steps_needed (360 - end_norm) step) 360 end_norm step true))
    = Some r).
  { destruct (direction =? 1)%Z.
    - destruct (Qltb start_norm end_norm).
      + apply climb_total; [exact Hs | apply steps_needed_covers; exact Hs].
      + destruct (climb_total step 360 true Hs
                    (steps_needed (360 - start_norm) step) start_norm) as [r1 H1];
          [apply steps_needed_covers; exact Hs|].
        destruct (climb_total step end_norm false Hs
                    (steps_needed end_norm step) 0) as [r2 H2].
        { assert (He : end_norm - 0 == end_norm) by ring.
          rewrite He. apply steps_needed_covers; exact Hs. }
        rewrite H1, H2. eexists; reflexivity.
    - destruct (Qltb end_norm start_norm).
      + apply descend_total; [exact Hs | apply steps_needed_covers; exact Hs].
      + destruct (descend_total step 0 false Hs
                    (steps_needed start_norm step) start_norm) as [r1 H1].
        { assert (He : start_norm - 0 == start_norm) by ring.
          rewrite He. apply steps_needed_covers; exact Hs. }
        destruct (descend_total step end_norm true Hs
                    (steps_needed (360 - end_norm) step) 360) as [r2 H2];
          [apply steps_needed_covers; exact Hs|].
        rewrite H1, H2. eexists; reflexivity. }
  destruct Hbody as [r Hr]. rewrite Hr.
  destruct (Qeqb (last (start_norm :: r) start_norm) end_norm);
    eexists; reflexivity.
Qed.

Lemma rotation_crosses_wall_total start end_ direction w1 w2 :
  exists c, rotation_crosses_wall start end_ direction w1 w2 = Some c.
Proof.
  unfold rotation_crosses_wall.
  destruct w1 as [w1|]; [|eexists; reflexivity].
  destruct w2 as [w2|]; [|eexists; reflexivity].
  destruct (ordered_bounds _ _) as [ws we].
  destruct (sample_arc_normalized_total (native_to_normalized start)
              (native_to_normalized end_) direction 2) as [pts Hp]; [lra|].
  rewrite Hp. eexists; reflexivity.
Qed.

(** The planner always returns. *)
Lemma shortest_rotation_total a b apcr settings :
  exists p, shortest_rotation a b apcr settings = Some p.
Proof.
  unfold shortest_rotation.
  destruct (negb (virtualwallpreset_enabled settings)); [eexists; reflexivity|].
  destruct (pan_bounds apcr) as [[ws|] [we|]]; try (eexists; reflexivity).
  destruct (inWall (to_degrees b) _ _); [eexists; reflexivity|].
  destruct (inWall (to_degrees a) _ _); [eexists; reflexivity|].
  destruct (rotation_crosses_wall_total (to_degrees a) (to_degrees b) (-1)
              (Some (to_degrees ws)) (Some (to_degrees we))) as [c1 H1].
  destruct (rotation_crosses_wall_total (to_degrees a) (to_degrees b) 1
              (Some (to_degrees ws)) (Some (to_degrees we))) as [c2 H2].
  rewrite H1, H2.
  destruct (c1 && c2); [eexists; reflexivity|].
  destruct c1; [eexists; reflexivity|].
  destruct c2; eexists; reflexivity.
Qed.

(** *** Spacing of the samples *)

Lemma near_spec step x y :
  near step x y = true <->
  (x - y <= step /\ y - x <= step)
  \/ (y <= x /\ 360 - (x - y) <= step)
  \/ (x <= y /\ 360 - (y - x) <= step).
Proof.
  unfold near, pyabs. rewrite orb_true_iff.
  destruct (Qltb (x - y) 0) eqn:E; rewrite !Qleb_spec; bool_to_order;
    split; intro H;
    first [ destruct H as [H|[H|H]]; lra | destruct H as [H|H]; lra ].
Qed.

Lemma near_comp step x x' y y' :
  x == x' -> y == y' -> near step x y = near step x' y'.
Proof.
  intros Hx Hy. apply eq_true_iff_eq. rewrite !near_spec, Hx, Hy. reflexivity.
Qed.

Lemma chain_near_head step h h' r :
  h == h' -> chain_near step (h :: r) = chain_near step (h' :: r).
Proof.
  intro H. destruct r as [|y r']; [reflexivity|].
  cbn [chain_near]. rewrite (near_comp step h h' y y H); reflexivity.
Qed.

Lemma last_cons_default {A} (x : A) l d d' :
  last (x :: l) d = last (x :: l) d'.
Proof.
  revert x. induction l as [|y l IH]; intro x; [reflexivity|].
  change (last (x :: y :: l) d) with (last (y :: l) d).
  change (last (x :: y :: l) d') with (last (y :: l) d').
  apply IH.
Qed.

Lemma chain_near_app step : forall l1 l2 d,
  l1 <> [] ->
  chain_near step l1 = true ->
  chain_near step (last l1 d :: l2) = true ->
  chain_near step (l1 ++ l2) = true.
Proof.
  induction l1 as [|x l1 IH]; intros l2 d Hne H1 H2; [contradiction|].
  destruct l1 as [|y l1'].
  - exact H2.
  - change ((x :: y :: l1') ++ l2) with (x :: (y :: l1') ++ l2).
    change (chain_near step (x :: (y :: l1') ++ l2))
      with (near step x y && chain_near step ((y :: l1') ++ l2)).
    change (chain_near step (x :: y :: l1'))
      with (near step x y && chain_near step (y :: l1')) in H1.
    apply andb_true_iff in H1. destruct H1 as [Hxy Hr].
    rewrite Hxy. cbn [andb].
    apply (IH l2 d); [discriminate | exact Hr | exact H2].
Qed.

Lemma pymod_comp x y m : x == y -> pymod x m == pymod y m.
Proof.
  intro H. unfold pymod.
  assert (Hf : Qfloor (x / m) = Qfloor (y / m)).
  { apply Qfloor_comp. rewrite H. reflexivity. }
  rewrite Hf, H. reflexivity.
Qed.

Lemma pymod_360_360 x : x == 360 -> pymod x 360 == 0.
Proof.
  intro H. apply (pymod_unique _ _ _ 1); try lra.
  rewrite H. change (inject_Z 1) with 1. ring.
Qed.

Lemma appended_below wrap c : 0 <= c -> c < 360 -> appended wrap c == c.
Proof.
  intros H0 H1. unfold appended. destruct wrap; [|reflexivity].
  apply pymod_small; assumption.
Qed.

Lemma appended_comp wrap c c' : c == c' -> appended wrap c == appended wrap c'.
Proof.
  intro H. unfold appended. destruct wrap; [apply pymod_comp|]; exact H.
Qed.

(** An upward loop appends samples at most [step] apart and, when it runs
    at all, ends on the limit. *)
Lemma climb_chain step limit wrap :
  0 < step -> (wrap = true -> limit <= 360) ->
  forall fuel c r h,
    0 <= c -> c <= limit -> h == appended wrap c ->
    climb fuel c limit step wrap = Some r ->
    chain_near step (h :: r) = true
    /\ (c < limit -> r <> [] /\ last (h :: r) h == appended wrap limit).
Proof.
  intros Hs Hw. induction fuel as [|f IH]; intros c r h H0 Hle Hh Hc.
  - simpl in Hc. destruct (Qltb c limit) eqn:E; [discriminate|].
    inversion Hc; subst. split; [reflexivity|].
    intro Hlt. bool_to_order. lra.
  - cbn [climb] in Hc. destruct (Qltb c limit) eqn:E.
    + bool_to_order.
      set (c' := pymin (c + step) limit) in *.
      destruct (climb f c' limit step wrap) as [r'|] eqn:Er; [|discriminate].
      inversion Hc; subst r. clear Hc.
      assert (Hc'lo : c < c').
      { unfold c', pymin. destruct (Qltb limit (c + step)); lra. }
      assert (Hc'hi : c' <= limit) by apply pymin_le_r.
      assert (Hc'step : c' <= c + step) by apply pymin_le_l.
      destruct (IH c' r' (appended wrap c')) as [Hch Hlast];
        [lra | exact Hc'hi | reflexivity | exact Er |].
      fold (appended wrap c').
      assert (Hnear : near step h (appended wrap c') = true).
      { apply near_spec.
        destruct wrap.
        - pose proof (Hw eq_refl) as H360.
          assert (Hhc : h == c).
          { rewrite Hh. apply appended_below; lra. }
          destruct (Qlt_le_dec c' 360) as [Hlt|Hge].
          + rewrite (appended_below true c') by lra. left. lra.
          + assert (Hc360 : c' == 360) by lra.
            unfold appended. rewrite (pymod_360_360 c' Hc360).
            right. left. lra.
        - unfold appended in *. left. lra. }
      split.
      * cbn [chain_near]. rewrite Hnear. exact Hch.
      * intros _. split; [discriminate|].
        change (last (h :: appended wrap c' :: r') h)
          with (last (appended wrap c' :: r') h).
        rewrite (last_cons_default _ _ h (appended wrap c')).
        destruct (Qlt_le_dec c' limit) as [Hlt|Hge].
        -- apply Hlast. exact Hlt.
        -- destruct r' as [|y r''].
           ++ simpl. apply appended_comp. lra.
           ++ exfalso. cbn in Er. destruct f; simpl in Er.
              ** destruct (Qltb c' limit) eqn:E2; [discriminate|].
                 inversion Er.
              ** destruct (Qltb c' limit) eqn:E2.
                 --- bool_to_order. lra.
                 --- inversion Er.
    + inversion Hc; subst. split; [reflexivity|].
      intro Hlt. bool_to_order. lra.
Qed.

(** A downward loop behaves in the same way. *)
Lemma descend_chain step limit wrap :
  0 < step -> 0 <= limit ->
  forall fuel c r h,
    limit <= c -> c <= 360 -> h == appended wrap c ->
    descend fuel c limit step wrap = Some r ->
    chain_near step (h :: r) = true
    /\ (limit < c -> r <> [] /\ last (h :: r) h == appended wrap limit).
Proof.
  intros Hs Hl0. induction fuel as [|f IH]; intros c r h Hle H360 Hh Hc.
  - simpl in Hc. destruct (Qltb limit c) eqn:E; [discriminate|].
    inversion Hc; subst. split; [reflexivity|].
    intro Hlt. bool_to_order. lra.
  - cbn [descend] in Hc. destruct (Qltb limit c) eqn:E.
    + bool_to_order.
      set (c' := pymax (c - step) limit) in *.
      destruct (descend f c' limit step wrap) as [r'|] eqn:Er; [|discriminate].
      inversion Hc; subst r. clear Hc.
      assert (Hc'hi : c' < c).
      { unfold c', pymax. destruct (Qltb (c - step) limit); lra. }
      assert (Hc'lo : limit <= c') by apply pymax_ge_r.
      assert (Hc'step : c - step <= c') by apply pymax_ge_l.
      destruct (IH c' r' (appended wrap c')) as [Hch Hlast];
        [exact Hc'lo | lra | reflexivity | exact Er |].
      fold (appended wrap c').
      assert (Hnear : near step h (appended wrap c') = true).
      { apply near_spec.
        rewrite (appended_below wrap c') by lra.
        destruct wrap.
        - destruct (Qlt_le_dec c 360) as [Hlt|Hge].
          + assert (Hhc : h == c).
            { rewrite Hh. apply appended_below; lra. }
            left. lra.
          + assert (Hc360 : c == 360) by lra.
            assert (Hh0 : h == 0).
            { rewrite Hh. unfold appended. apply pymod_360_360. exact Hc360. }
            right. right. lra.
        - unfold appended in Hh. left. lra. }
      split.
      * cbn [chain_near]. rewrite Hnear. exact Hch.
      * intros _. split; [discriminate|].
        change (last (h :: appended wrap c' :: r') h)
          with (last (appended wrap c' :: r') h).
        rewrite (last_cons_default _ _ h (appended wrap c')).
        destruct (Qlt_le_dec limit c') as [Hlt|Hge].
        -- apply Hlast. exact Hlt.
        -- destruct r' as [|y r''].
           ++ simpl. apply appended_comp. lra.
           ++ exfalso. destruct f; simpl in Er.
              ** destruct (Qltb limit c') eqn:E2; [discriminate|].
                 inversion Er.
              ** destruct (Qltb limit c') eqn:E2.
                 --- bool_to_order. lra.
                 --- inversion Er.
    + inversion Hc; subst. split; [reflexivity|].
      intro Hlt. bool_to_order. lra.
Qed.

Lemma last_app_nonempty {A} (l1 l2 : list A) d :
  l2 <> [] -> last (l1 ++ l2) d = last l2 d.
Proof.
  intro Hne. induction l1 as [|x l1 IH]; [reflexivity|].
  simpl. destruct (l1 ++ l2) eqn:E.
  - destruct l1; simpl in E; [contradiction | discriminate].
  - exact IH.
Qed.

(** Two sampling loops run one after the other, the second starting
    where the first ended. *)
Lemma chain_two_loops step s r1 r2 e mid :
  chain_near step (s :: r1) = true ->
  last (s :: r1) s == mid ->
  chain_near step (mid :: r2) = true ->
  (r2 = [] -> mid == e) ->
  (r2 <> [] -> last (mid :: r2) mid == e) ->
  chain_near step (s :: r1 ++ r2) = true
  /\ last (s :: r1 ++ r2) s == e.
Proof.
  intros H1 Hl H2 He0 He1. split.
  - change (s :: r1 ++ r2) with ((s :: r1) ++ r2).
    apply (chain_near_app step (s :: r1) r2 s); [discriminate | exact H1 |].
    rewrite (chain_near_head step _ mid r2 Hl). exact H2.
  - destruct r2 as [|y r2'].
    + rewrite app_nil_r, Hl. apply He0. reflexivity.
    + change (s :: r1 ++ y :: r2') with ((s :: r1) ++ y :: r2').
      rewrite last_app_nonempty by discriminate.
      rewrite <- (He1 ltac:(discriminate)).
      change (last (mid :: y :: r2') mid) with (last (y :: r2') mid).
      rewrite (last_cons_default y r2' s mid). reflexivity.
Qed.

(** Between two normalized angles an arc sampled with a positive step
    starts at the start, ends on the end, has at least two samples, and
    its neighbouring samples lie at most one step apart on the circle. *)
Lemma sample_arc_normalized_spacing start_norm end_norm direction step pts :
  0 < step ->
  0 <= start_norm -> start_norm < 360 ->
  0 <= end_norm -> end_norm < 360 ->
  sample_arc_normalized start_norm end_norm direction step = Some pts ->
  chain_near step pts = true
  /\ (2 <= length pts)%nat
  /\ hd start_norm pts = start_norm
  /\ last pts start_norm == end_norm.
Proof.
  intros Hs Hs0 Hs1 He0 He1. unfold sample_arc_normalized.
  assert (Hfin : forall r,
    chain_near step (start_norm :: r) = true ->
    r <> [] ->
    last (start_norm :: r) start_norm == end_norm ->
    (if Qeqb (last (start_norm :: r) start_norm) end_norm
     then Some (start_norm :: r)
     else Some ((start_norm :: r) ++ [end_norm])) = Some pts ->
    chain_near step pts = true
    /\ (2 <= length pts)%nat
    /\ hd start_norm pts = start_norm
    /\ last pts start_norm == end_norm).
  { intros r Hch Hne Hl Hp.
    apply Qeqb_spec in Hl as Hb. rewrite Hb in Hp. inversion Hp; subst pts.
    split; [exact Hch|]. split; [|split; [reflexivity | exact Hl]].
    destruct r; [contradiction | simpl; lia]. }
  destruct (direction =? 1)%Z.
  - destruct (Qltb start_norm end_norm) eqn:E; bool_to_order.
    + destruct (climb _ start_norm end_norm step false) as [r|] eqn:Er;
        [|discriminate].
      destruct (climb_chain step end_norm false Hs ltac:(discriminate)
                  _ start_norm r start_norm Hs0 ltac:(lra)
                  ltac:(reflexivity) Er) as [Hch Hl].
      destruct (Hl E) as [Hne Hlast].
      apply (Hfin r Hch Hne). exact Hlast.
    + destruct (climb _ start_norm 360 step true) as [r1|] eqn:Er1;
        [|discriminate].
      destruct (climb _ 0 end_norm step false) as [r2|] eqn:Er2;
        [|discriminate].
      cbn [opt_app].
      destruct (climb_chain step 360 true Hs ltac:(intros _; lra)
                  _ start_norm r1 start_norm Hs0 ltac:(lra)
                  ltac:(symmetry; apply appended_below; lra) Er1)
        as [Hch1 Hl1].
      destruct (Hl1 Hs1) as [Hne1 Hlast1].
      assert (Hmid : last (start_norm :: r1) start_norm == 0).
      { rewrite Hlast1. unfold appended. apply pymod_360_360. reflexivity. }
      destruct (climb_chain step end_norm false Hs ltac:(discriminate)
                  _ 0 r2 0 ltac:(lra) He0 ltac:(reflexivity) Er2)
        as [Hch2 Hl2].
      destruct (chain_two_loops step start_norm r1 r2 end_norm 0
                  Hch1 Hmid Hch2) as [Hch Hlast].
      * intro Hr2. destruct (Qlt_le_dec 0 end_norm) as [Hlt|Hge]; [|lra].
        destruct (Hl2 Hlt) as [Hne2 _]. contradiction.
      * intro Hr2. destruct (Qlt_le_dec 0 end_norm) as [Hlt|Hge].
        -- destruct (Hl2 Hlt) as [_ Hlast2]. exact Hlast2.
        -- exfalso. simpl in Er2.
           destruct (steps_needed end_norm step); simpl in Er2;
             destruct (Qltb 0 end_norm) eqn:E2; bool_to_order; try lra;
             inversion Er2; subst; contradiction.
      * apply (Hfin (r1 ++ r2) Hch); [|exact Hlast].
        destruct r1; [contradiction | discriminate].
  - destruct (Qltb end_norm start_norm) eqn:E; bool_to_order.
    + destruct (descend _ start_norm end_norm step false) as [r|] eqn:Er;
        [|discriminate].
      destruct (descend_chain step end_norm false Hs He0
                  _ start_norm r start_norm ltac:(lra) ltac:(lra)
                  ltac:(reflexivity) Er) as [Hch Hl].
      destruct (Hl E) as [Hne Hlast].
      apply (Hfin r Hch Hne). exact Hlast.
    + destruct (descend _ start_norm 0 step false) as [r1|] eqn:Er1;
        [|discriminate].
      destruct (descend _ 360 end_norm step true) as [r2|] eqn:Er2;
        [|discriminate].
      cbn [opt_app].
      destruct (descend_chain step 0 false Hs ltac:(lra)
                  _ start_norm r1 start_norm Hs0 ltac:(lra)
                  ltac:(reflexivity) Er1) as [Hch1 Hl1].
      assert (Hmid : last (start_norm :: r1) start_norm == 0).
      { destruct (Qlt_le_dec 0 start_norm) as [Hlt|Hge].
        - destruct (Hl1 Hlt) as [_ Hlast1]. exact Hlast1.
        - assert (Hr1 : r1 = []).
          { destruct (steps_needed start_norm step); simpl in Er1;
              destruct (Qltb 0 start_norm) eqn:E2; bool_to_order; try lra;
              inversion Er1; reflexivity. }
          subst r1. simpl. lra. }
      destruct (descend_chain step end_norm true Hs He0
                  _ 360 r2 0 ltac:(lra) ltac:(lra)
                  ltac:(symmetry; unfold appended; apply pymod_360_360;
                        reflexivity) Er2)
        as [Hch2 Hl2].
      destruct (Hl2 He1) as [Hne2 Hlast2].
      destruct (chain_two_loops step start_norm r1 r2 end_norm 0
                  Hch1 Hmid Hch2) as [Hch Hlast].
      * intro Hr2. contradiction.
      * intros _. rewrite Hlast2. apply appended_below; lra.
      * apply (Hfin (r1 ++ r2) Hch); [|exact Hlast].
        destruct r2; [contradiction|]. destruct r1; discriminate.
Qed.

End Sampling.

(** ** The planner *)

Section Planner.
Import Presets Examples.

(** Both "possible rotations" are folded into [(-180, 180]], which makes
    them one and the same signed rotation unless the two angles are
    exactly opposite. *)
Lemma cw_rot_eq_ccw_rot a_norm b_norm :
  0 <= a_norm -> a_norm < 360 -> 0 <= b_norm -> b_norm < 360 ->
  ~ pymod (b_norm - a_norm) 360 == 180 ->
  cw_rot a_norm b_norm == ccw_rot a_norm b_norm.
Proof.
  intros Ha0 Ha1 Hb0 Hb1 Hne.
  unfold cw_rot, ccw_rot.
  destruct (Qlt_le_dec a_norm b_norm) as [Hlt|Hge].
  - assert (Hd : pymod (b_norm - a_norm) 360 == b_norm - a_norm).
    { apply pymod_small; lra. }
    assert (He : pymod (a_norm - b_norm) 360 == a_norm - b_norm + 360).
    { apply (pymod_unique _ _ _ (-1)); try lra.
      change (inject_Z (-1)) with (-(1)). ring. }
    rewrite Hd in Hne.
    destruct (Qltb 180 (pymod (a_norm - b_norm) 360)) eqn:E1;
      destruct (Qltb 180 (pymod (b_norm - a_norm) 360)) eqn:E2;
      bool_to_order; lra.
  - destruct (Qeq_dec a_norm b_norm) as [Heq|Hneq].
    + assert (Hd : pymod (b_norm - a_norm) 360 == 0).
      { apply (pymod_unique _ _ _ 0); try lra.
        change (inject_Z 0) with 0. lra. }
      assert (He : pymod (a_norm - b_norm) 360 == 0).
      { apply (pymod_unique _ _ _ 0); try lra.
        change (inject_Z 0) with 0. lra. }
      destruct (Qltb 180 (pymod (a_norm - b_norm) 360)) eqn:E1;
        destruct (Qltb 180 (pymod (b_norm - a_norm) 360)) eqn:E2;
        bool_to_order; lra.
    + assert (Hgt : b_norm < a_norm).
      { apply Qnot_le_lt. intro Hle. apply Hneq. lra. }
      assert (Hd : pymod (b_norm - a_norm) 360 == b_norm - a_norm + 360).
      { apply (pymod_unique _ _ _ (-1)); try lra.
        change (inject_Z (-1)) with (-(1)). ring. }
      assert (He : pymod (a_norm - b_norm) 360 == a_norm - b_norm).
      { apply pymod_small; lra. }
      rewrite Hd in Hne.
      destruct (Qltb 180 (pymod (a_norm - b_norm) 360)) eqn:E1;
        destruct (Qltb 180 (pymod (b_norm - a_norm) 360)) eqn:E2;
        bool_to_order; lra.
Qed.

(** Either rotation leads from the start to the target, up to whole
    turns, and has magnitude at most 180. *)
Lemma ccw_rot_reaches a_norm b_norm :
  (exists k : Z, a_norm + ccw_rot a_norm b_norm == b_norm + 360 * inject_Z k)
  /\ -(180) < ccw_rot a_norm b_norm /\ ccw_rot a_norm b_norm <= 180.
Proof.
  unfold ccw_rot.
  destruct (pymod_range (b_norm - a_norm) 360) as [H0 H1]; [lra|].
  split.
  - unfold pymod in *.
    destruct (Qltb 180 _).
    + exists (- Qfloor ((b_norm - a_norm) / 360) - 1)%Z.
      unfold Zminus. rewrite !inject_Z_plus, !inject_Z_opp.
      change (inject_Z 1) with 1. ring.
    + exists (- Qfloor ((b_norm - a_norm) / 360))%Z.
      rewrite inject_Z_opp. ring.
  - destruct (Qltb 180 (pymod (b_norm - a_norm) 360)) eqn:E;
      bool_to_order; lra.
Qed.

Lemma cw_rot_reaches a_norm b_norm :
  (exists k : Z, a_norm + cw_rot a_norm b_norm == b_norm + 360 * inject_Z k)
  /\ -(180) <= cw_rot a_norm b_norm /\ cw_rot a_norm b_norm < 180.
Proof.
  unfold cw_rot.
  destruct (pymod_range (a_norm - b_norm) 360) as [H0 H1]; [lra|].
  split.
  - unfold pymod in *.
    destruct (Qltb 180 _).
    + exists (Qfloor ((a_norm - b_norm) / 360) + 1)%Z.
      rewrite !inject_Z_plus. change (inject_Z 1) with 1. ring.
    + exists (Qfloor ((a_norm - b_norm) / 360)). ring.
  - destruct (Qltb 180 (pymod (a_norm - b_norm) 360)) eqn:E;
      bool_to_order; lra.
Qed.

(** With at least two samples, the loop over neighbours finds a crossing
    exactly when some sample lies in the wall. *)
Lemma any_pair_in_wall_existsb ws we : forall pts,
  (2 <= length pts)%nat ->
  any_pair_in_wall ws we pts
  = existsb (fun p => snd (point_in_wall ws we p)) pts.
Proof.
  induction pts as [|p rest IH]; intro Hlen; [simpl in Hlen; lia|].
  destruct rest as [|q rest']; [simpl in Hlen; lia|].
  destruct rest' as [|r rest''].
  - simpl.
    destruct (snd (point_in_wall ws we p)), (snd (point_in_wall ws we q));
      reflexivity.
  - change (any_pair_in_wall ws we (p :: q :: r :: rest''))
      with (if snd (point_in_wall ws we p) || snd (point_in_wall ws we q)
            then true
            else any_pair_in_wall ws we (q :: r :: rest'')).
    rewrite IH by (simpl; lia). cbn [existsb].
    destruct (snd (point_in_wall ws we p)), (snd (point_in_wall ws we q));
      reflexivity.
Qed.

(** How a route is tested: the arc between the normalized ends is sampled
    with neighbouring samples at most 2 degrees apart, from the start to
    the end, and the route counts as crossing exactly when one of the
    samples lies between the sorted normalized bounds. *)
Lemma rotation_crosses_wall_samples start end_ direction w1 w2 :
  exists pts,
    sample_arc_normalized (native_to_normalized start)
      (native_to_normalized end_) direction 2 = Some pts
    /\ chain_near 2 pts = true
    /\ hd (native_to_normalized start) pts = native_to_normalized start
    /\ last pts (native_to_normalized start) == native_to_normalized end_
    /\ rotation_crosses_wall start end_ direction (Some w1) (Some w2)
       = Some (existsb
                 (fun p =>
                    Qleb (fst (ordered_bounds (native_to_normalized w1)
                                 (native_to_normalized w2))) p
                    && Qleb p (snd (ordered_bounds (native_to_normalized w1)
                                      (native_to_normalized w2))))
                 pts).
Proof.
  destruct (sample_arc_normalized_total (native_to_normalized start)
              (native_to_normalized end_) direction 2) as [pts Hp]; [lra|].
  destruct (native_to_normalized_range start) as [Hs0 Hs1].
  destruct (native_to_normalized_range end_) as [He0 He1].
  assert (H2 : 0 < 2) by lra.
  destruct (sample_arc_normalized_spacing _ _ _ _ pts H2
              Hs0 Hs1 He0 He1 Hp) as [Hch [Hlen [Hhd Hlast]]].
  exists pts. repeat split; try assumption.
  unfold rotation_crosses_wall.
  pose proof (ordered_bounds_sorted (native_to_normalized w1)
                (native_to_normalized w2)) as Hsorted.
  destruct (ordered_bounds _ _) as [ws we]. cbn [fst snd] in *.
  rewrite Hp, (any_pair_in_wall_existsb ws we pts Hlen).
  f_equal. clear Hp Hch Hlen Hhd Hlast.
  induction pts as [|p pts IH]; [reflexivity|].
  cbn [existsb]. rewrite IH, (point_in_wall_sorted ws we p Hsorted).
  reflexivity.
Qed.

(** The decision taken when neither end lies in the wall: no route when
    both routes cross; the direction of the other route when one crosses;
    and in every case where a route is returned, a rotation that is one of
    the two folded rotations. *)
Lemma planner_outside_wall a b dev settings ws we c1 c2 :
  virtualwallpreset_enabled (Some settings) = true ->
  virtualwallstart_pan dev = Some ws ->
  virtualwallend_pan dev = Some we ->
  inWall (to_degrees b) (Some (to_degrees ws)) (Some (to_degrees we)) = false ->
  inWall (to_degrees a) (Some (to_degrees ws)) (Some (to_degrees we)) = false ->
  rotation_crosses_wall (to_degrees a) (to_degrees b) (-1)
    (Some (to_degrees ws)) (Some (to_degrees we)) = Some c1 ->
  rotation_crosses_wall (to_degrees a) (to_degrees b) 1
    (Some (to_degrees ws)) (Some (to_degrees we)) = Some c2 ->
  shortest_rotation a b (Some dev) (Some settings)
  = Some (match c1, c2 with
          | true, true => NoRoute
          | true, false =>
              Route (ccw_rot (norm360 (to_degrees a)) (norm360 (to_degrees b))) 1
          | false, true =>
              Route (cw_rot (norm360 (to_degrees a)) (norm360 (to_degrees b)))
                (-1)
          | false, false =>
              Route
                (if Qleb (pyabs (cw_rot (norm360 (to_degrees a))
                                   (norm360 (to_degrees b))))
                      (pyabs (ccw_rot (norm360 (to_degrees a))
                                (norm360 (to_degrees b))))
                 then cw_rot (norm360 (to_degrees a)) (norm360 (to_degrees b))
                 else ccw_rot (norm360 (to_degrees a)) (norm360 (to_degrees b)))
                (if Qeqb
                      (if Qleb (pyabs (cw_rot (norm360 (to_degrees a))
                                         (norm360 (to_degrees b))))
                            (pyabs (ccw_rot (norm360 (to_degrees a))
                                      (norm360 (to_degrees b))))
                       then cw_rot (norm360 (to_degrees a))
                              (norm360 (to_degrees b))
                       else ccw_rot (norm360 (to_degrees a))
                              (norm360 (to_degrees b)))
                      (cw_rot (norm360 (to_degrees a)) (norm360 (to_degrees b)))
                 then (-1)%Z else 1%Z)
          end).
Proof.
  intros He H1 H2 Hb Ha Hc1 Hc2. unfold shortest_rotation, pan_bounds.
  rewrite He, H1, H2. cbn [negb]. rewrite Hb, Ha, Hc1, Hc2.
  destruct c1, c2; reflexivity.
Qed.

(** The rotation that leads from [a_norm] to [b_norm] clockwise, as a
    negative number of degrees. *)
Lemma clockwise_rotation_50_150 : - pymod (50 - 150) 360 == -(260).
Proof. vm_compute. reflexivity. Qed.

(** C1 (the code departs from the claim).  Wall between 100 and 120,
    current pan 50, target 150: the counter-clockwise route (100 degrees)
    crosses the wall, the clockwise route (260 degrees) does not.  The
    planner answers with direction -1 (clockwise) but with the rotation
    +100, the signed rotation of the short route, where the clockwise
    route is a rotation of -260. *)
Theorem planner_long_route_keeps_short_rotation :
  inWall 50 (Some 100) (Some 120) = false
  /\ inWall 150 (Some 100) (Some 120) = false
  /\ rotation_crosses_wall 50 150 (-1) (Some 100) (Some 120) = Some false
  /\ rotation_crosses_wall 50 150 1 (Some 100) (Some 120) = Some true
  /\ exists r,
       shortest_rotation 50 150 (Some (walled_device 100 120))
         (Some (switches false true false)) = Some (Route r (-1))
       /\ r == 100
       /\ ~ r == - pymod (norm360 50 - norm360 150) 360.
Proof.
  split; [vm_compute; reflexivity|].
  split; [vm_compute; reflexivity|].
  split; [vm_compute; reflexivity|].
  split; [vm_compute; reflexivity|].
  eexists. split; [vm_compute; reflexivity|].
  split; [vm_compute; reflexivity|].
  vm_compute. discriminate.
Qed.

End Planner.

(** ** Leaving the wall, and recalls that find no route *)

Section Recall.
Import Presets Examples.

(** Leaving a wall given by ascending bounds and narrower than 358
    degrees: the exit rotation and the remaining rotation both have the
    sign of the chosen direction, so the plan never reverses. *)
Lemma plan_exit_keeps_direction a_norm b_norm ws we :
  0 <= ws -> ws <= we -> we < 360 -> we - ws < 358 ->
  ws <= a_norm -> a_norm <= we ->
  0 <= b_norm -> b_norm < 360 ->
  (exit_dir (plan_exit a_norm b_norm ws we) = 1%Z
   /\ 0 < exit_dist (plan_exit a_norm b_norm ws we)
   /\ 0 <= remaining_dist (plan_exit a_norm b_norm ws we))
  \/ (exit_dir (plan_exit a_norm b_norm ws we) = (-1)%Z
      /\ exit_dist (plan_exit a_norm b_norm ws we) < 0
      /\ remaining_dist (plan_exit a_norm b_norm ws we) <= 0).
Proof.
  intros Hws Hord Hwe Hwidth Halo Hahi Hb0 Hb1.
  unfold plan_exit.
  assert (Hn1 : norm360 ws == ws) by (apply pymod_small; lra).
  assert (Hn2 : norm360 we == we) by (apply pymod_small; lra).
  set (w1 := norm360 ws) in *. set (w2 := norm360 we) in *.
  assert (Hlower : pymin w1 w2 == ws).
  { unfold pymin. destruct (Qltb w2 w1) eqn:E; bool_to_order; lra. }
  assert (Hupper : pymax w1 w2 == we).
  { unfold pymax. destruct (Qltb w1 w2) eqn:E; bool_to_order; lra. }
  set (lower := pymin w1 w2) in *. set (upper := pymax w1 w2) in *.
  assert (Hle12 : Qleb w1 w2 = true) by (apply Qleb_spec; lra).
  rewrite Hle12.
  destruct (Qltb (a_norm - lower) (upper - a_norm)) eqn:Ehalf; bool_to_order.
  - (* leaving below the lower bound, clockwise *)
    right. cbn [exit_dir exit_dist remaining_dist exit_pt].
    destruct (pymod_range (lower - 1) 360) as [Hp0 Hp1]; [lra|].
    assert (Hd : pymod (a_norm - norm360 (lower - 1)) 360
                 == a_norm - lower + 1).
    { unfold norm360.
      destruct (Qlt_le_dec (lower - 1) 0) as [Hneg|Hpos].
      - assert (Hpt : pymod (lower - 1) 360 == lower - 1 + 360).
        { apply (pymod_unique _ _ _ (-1)); try lra.
          change (inject_Z (-1)) with (-(1)). ring. }
        apply (pymod_unique _ _ _ (-1)); try lra.
        rewrite Hpt. change (inject_Z (-1)) with (-(1)). ring.
      - assert (Hpt : pymod (lower - 1) 360 == lower - 1).
        { apply pymod_small; lra. }
        apply (pymod_unique _ _ _ 0); try lra.
        rewrite Hpt. change (inject_Z 0) with 0. ring. }
    split; [reflexivity|]. split.
    + destruct (Qltb 180 (pymod (a_norm - norm360 (lower - 1)) 360)) eqn:E;
        bool_to_order; lra.
    + unfold norm360.
      destruct (Qleb b_norm (pymod (lower - 1) 360)) eqn:E; bool_to_order; lra.
  - (* leaving above the upper bound, counter-clockwise *)
    left. cbn [exit_dir exit_dist remaining_dist exit_pt].
    destruct (pymod_range (upper + 1) 360) as [Hp0 Hp1]; [lra|].
    assert (Hd : pymod (norm360 (upper + 1) - a_norm) 360
                 == upper + 1 - a_norm).
    { unfold norm360.
      destruct (Qlt_le_dec (upper + 1) 360) as [Hlt|Hge].
      - assert (Hpt : pymod (upper + 1) 360 == upper + 1).
        { apply pymod_small; lra. }
        apply (pymod_unique _ _ _ 0); try lra.
        rewrite Hpt. change (inject_Z 0) with 0. ring.
      - assert (Hpt : pymod (upper + 1) 360 == upper + 1 - 360).
        { apply (pymod_unique _ _ _ 1); try lra.
          change (inject_Z 1) with 1. ring. }
        apply (pymod_unique _ _ _ (-1)); try lra.
        rewrite Hpt. change (inject_Z (-1)) with (-(1)). ring. }
    split; [reflexivity|]. split.
    + destruct (Qltb 180 (pymod (norm360 (upper + 1) - a_norm) 360)) eqn:E;
        bool_to_order; lra.
    + unfold norm360.
      destruct (Qleb (pymod (upper + 1) 360) b_norm) eqn:E; bool_to_order; lra.
Qed.

(** The exit point computed for current pan 150, target 250 and the wall
    between 100 and 200 is neither 199 nor 101. *)
Lemma exit_from_150_is_not_199_or_101 :
  inWall 150 (Some 100) (Some 200) = true
  /\ inWall 250 (Some 100) (Some 200) = false
  /\ ~ (exit_pt exit_150_250 == 199 \/ exit_pt exit_150_250 == 101).
Proof.
  split; [vm_compute; reflexivity|].
  split; [vm_compute; reflexivity|].
  intros [H|H]; vm_compute in H; discriminate.
Qed.

(** C3 (amended).  For the wall between 100 and 200, current pan 150
    (inside) and target 250 (outside), the planner leaves the wall at 201,
    one degree beyond the upper bound (both bounds are 50 degrees away and
    the tie goes to the upper one), by a counter-clockwise rotation of 51
    degrees, continues counter-clockwise for 49 degrees to 250, and
    returns the sum, 100 degrees, with direction +1. *)
Theorem exit_plan_150_to_250 :
  inWall 150 (Some 100) (Some 200) = true
  /\ inWall 250 (Some 100) (Some 200) = false
  /\ exit_pt exit_150_250 == 201
  /\ inWall 201 (Some 100) (Some 200) = false
  /\ exit_dir exit_150_250 = 1%Z
  /\ exit_dist exit_150_250 == 51
  /\ remaining_dist exit_150_250 == 49
  /\ shortest_rotation 150 250 (Some (walled_device 100 200))
       (Some (switches false true false))
     = Some (Route (exit_dist exit_150_250 + remaining_dist exit_150_250) 1)
  /\ exit_dist exit_150_250 + remaining_dist exit_150_250 == 100.
Proof.
  repeat split; vm_compute; reflexivity.
Qed.

(** A target inside the wall leaves the planner without a route, wherever
    the move starts. *)
Lemma target_in_wall_no_route a b dev settings w1 w2 :
  virtualwallpreset_enabled (Some settings) = true ->
  virtualwallstart_pan dev = Some w1 ->
  virtualwallend_pan dev = Some w2 ->
  inWall (to_degrees b) (Some (to_degrees w1)) (Some (to_degrees w2)) = true ->
  shortest_rotation a b (Some dev) (Some settings) = Some NoRoute.
Proof.
  intros He H1 H2 Hin. unfold shortest_rotation, pan_bounds.
  rewrite He, H1, H2. cbn [negb]. rewrite Hin. reflexivity.
Qed.

(** The planner fails only with the wall enabled and both bounds set. *)
Lemma no_route_needs_wall a b dev settings :
  shortest_rotation a b (Some dev) (Some settings) = Some NoRoute ->
  virtualwallpreset_enabled (Some settings) = true
  /\ exists w1 w2, virtualwallstart_pan dev = Some w1
                   /\ virtualwallend_pan dev = Some w2.
Proof.
  unfold shortest_rotation, pan_bounds, calculate_shortest_rotation.
  destruct (virtualwallpreset_enabled (Some settings)); cbn [negb].
  - destruct (virtualwallstart_pan dev) as [w1|];
      destruct (virtualwallend_pan dev) as [w2|]; try discriminate.
    intros _. split; [reflexivity|]. exists w1, w2. split; reflexivity.
  - discriminate.
Qed.

Lemma no_motion_position_requests c :
  forallb (fun e => negb (is_motion e))
    (Sleep (2 # 10) :: position_requests c) = true.
Proof. reflexivity. Qed.

(** With the preset wall enabled and both pan bounds configured, a target
    that the membership test of the planner places in the wall makes the
    planner fail, from any start; and a recall whose target that test
    places in the wall, or whose planner reports no route, returns
    having added only waits and position requests to what was sent:
    [do_move_segment] is not entered. *)
Lemma recall_without_route_sends_no_motion
    cam dev settings preset cpos s w1 w2 :
  virtualwallpreset_enabled (Some settings) = true ->
  virtualwallstart_pan dev = Some w1 ->
  virtualwallend_pan dev = Some w2 ->
  inWall (to_degrees (pan preset)) (Some (to_degrees w1))
    (Some (to_degrees w2)) = true
  \/ shortest_rotation (localPan s) (pan preset) (Some dev) (Some settings)
     = Some NoRoute ->
  (inWall (to_degrees (pan preset)) (Some (to_degrees w1))
     (Some (to_degrees w2)) = true ->
   forall a, shortest_rotation a (pan preset) (Some dev) (Some settings)
             = Some NoRoute)
  /\ exists s' extra,
       recall_until_segment cam dev settings (Some preset) cpos s
       = Some (Returned s')
       /\ recall_preset cam dev settings (Some preset) cpos s = Some s'
       /\ events s' = events s ++ extra
       /\ forallb (fun e => negb (is_motion e)) extra = true.
Proof.
  intros He H1 H2 Hcase.
  split.
  { intros Hin a. eapply target_in_wall_no_route; eassumption. }
  assert (Hplan : shortest_rotation (localPan s) (pan preset) (Some dev)
                    (Some settings) = Some NoRoute).
  { destruct Hcase as [Hin|Hp]; [|exact Hp].
    eapply target_in_wall_no_route; eassumption. }
  unfold recall_preset, recall_until_segment.
  destruct (negb (camid dev =? cam)%Z).
  { exists s, []. rewrite app_nil_r. repeat split. }
  destruct (recall_active s).
  { exists s, []. rewrite app_nil_r. repeat split. }
  unfold virtualwallpreset_enabled in He.
  destruct (global_settings settings) as [gs|] eqn:Hgs; [|discriminate].
  rewrite He, H1, H2.
  destruct (inWall (pan preset) (Some w1) (Some w2)).
  { eexists. exists []. cbn. rewrite app_nil_r. repeat split. }
  destruct (Controls.bytes_fromhex (position_request_hex (camid dev))).
  2:{ eexists. exists [Sleep (2 # 10)]. cbn. repeat split. }
  destruct cpos as [p|].
  - cbn [localPan set_active set_frequency emit reset_tracker].
    rewrite Hplan.
    eexists. exists (Sleep (2 # 10) :: position_requests (camid dev)).
    cbn. repeat split.
  - eexists. exists (Sleep (2 # 10) :: position_requests (camid dev)).
    cbn. repeat split.
Qed.

(** A recall towards pan 150 with the wall between 100 and 200. *)
Example recall_into_plain_wall_sends_no_motion :
  exists s' extra,
    recall_preset 1 (walled_device 100 200) (switches false true false)
      (Some (preset_at 150)) None resting_at_50 = Some s'
    /\ events s' = events resting_at_50 ++ extra
    /\ forallb (fun e => negb (is_motion e)) extra = true.
Proof.
  assert (Hin : inWall (to_degrees (pan (preset_at 150)))
                  (Some (to_degrees 100)) (Some (to_degrees 200)) = true)
    by (vm_compute; reflexivity).
  destruct (recall_without_route_sends_no_motion 1 (walled_device 100 200)
              (switches false true false) (preset_at 150) None resting_at_50
              100 200 eq_refl eq_refl eq_refl (or_introl Hin))
    as [_ [s' [extra [_ H]]]].
  exists s', extra. exact H.
Qed.

(** C4 (the code departs from the claim).  The wall configured from 350
    across 0 to 10, the device at pan 355, the preset at pan 0.  The
    target lies in the wall: the wrap-around arm of the membership test
    says so when it is given the bounds as configured, and so does the
    live check of manual moves.  But [inWall] orders the bounds before
    that arm is reached and tests the interval from 10 to 350, so the
    target counts as outside, and so does the start; of the two routes
    only the clockwise one is found to cross; the planner does not
    fail, it answers with a rotation of 5 degrees in direction +1, and
    the recall calls [do_move_segment] towards pan 360, with
    [_recall_active] set. *)
Theorem recall_moves_into_wraparound_wall :
  point_in_wall 350 10 (native_to_normalized 0) = (Wrap, true)
  /\ Controls.live_inside 350 10 0 = true
  /\ inWall_traced 0 (Some 350) (Some 10) = (Some NoWrap, false)
  /\ inWall 355 (Some 350) (Some 10) = false
  /\ rotation_crosses_wall 355 0 (-1) (Some 350) (Some 10) = Some true
  /\ rotation_crosses_wall 355 0 1 (Some 350) (Some 10) = Some false
  /\ (exists r,
        shortest_rotation 355 0 (Some (walled_device 350 10))
          (Some (switches false true false)) = Some (Route r 1)
        /\ r == 5)
  /\ exists s' f cTilt cRoll tgtPan,
       recall_until_segment 1 (walled_device 350 10)
         (switches false true false) (Some (preset_at 0))
         (Some reported_at_355) resting_at_355
       = Some (InSegment s' f)
       /\ recall_active s' = true
       /\ events s'
          = Sleep (2 # 10) :: position_requests 1
            ++ [MoveSegment 355 cTilt cRoll 1 tgtPan 0 0 1 50 1]
       /\ cTilt == 0 /\ cRoll == 0 /\ tgtPan == 360.
Proof.
  split; [vm_compute; reflexivity|].
  split; [vm_compute; reflexivity|].
  split; [vm_compute; reflexivity|].
  split; [vm_compute; reflexivity|].
  split; [vm_compute; reflexivity|].
  split; [vm_compute; reflexivity|].
  split.
  { eexists. split; vm_compute; reflexivity. }
  do 5 eexists.
  split; [vm_compute; reflexivity|].
  split; [reflexivity|].
  split; [reflexivity|].
  repeat split; vm_compute; reflexivity.
Qed.

(** Both routes blocked: a recall towards the pan it already has, outside
    the wall, finds each full turn crossing the wall. *)
Example both_routes_blocked :
  shortest_rotation 50 50 (Some (walled_device 100 200))
    (Some (switches false true false)) = Some NoRoute.
Proof. vm_compute. reflexivity. Qed.

(** With a route the recall does enter [do_move_segment]. *)
Example recall_with_route_moves :
  exists s',
    recall_preset 1 (walled_device 100 200) (switches false true false)
      (Some (preset_at 250))
      (Some {| Controls.pos_pan := 500; Controls.pos_tilt := 0;
               Controls.pos_roll := 0; Controls.pos_zoom := 1 |})
      resting_at_50 = Some s'
    /\ existsb is_motion (events s') = true.
Proof. eexists. split; vm_compute; reflexivity. Qed.

End Recall.

(** ** The guard's containment test *)

Section Containment.
Import Controls Examples.

(** In absolute mode with the bounds in order, the test is the closed
    interval widened by the margin on both sides. *)
Lemma pos_in_wall_absolute wall_start wall_end margin :
  use_absolute wall_start wall_end = true ->
  wall_start <= wall_end -> 0 <= margin ->
  pos_in_wall wall_start wall_end margin (wall_start - margin) = true
  /\ pos_in_wall wall_start wall_end margin (wall_end + margin) = true
  /\ pos_in_wall wall_start wall_end margin (wall_start - margin - 1) = false
  /\ pos_in_wall wall_start wall_end margin (wall_end + margin + 1) = false.
Proof.
  intros Habs Hord Hm. unfold pos_in_wall. rewrite Habs.
  assert (Hf : Qltb wall_end wall_start = false) by (apply Qltb_false; lra).
  rewrite Hf.
  repeat split.
  - apply andb_true_iff. split; apply Qleb_spec; lra.
  - apply andb_true_iff. split; apply Qleb_spec; lra.
  - apply andb_false_iff. left. apply Qleb_false. lra.
  - apply andb_false_iff. right. apply Qleb_false. lra.
Qed.

(** In absolute mode with the bounds flipped, the test is the union of
    two half-lines; the positions one unit past the widened bounds are
    outside when the two half-lines stay more than a unit apart. *)
Lemma pos_in_wall_absolute_flipped wall_start wall_end margin :
  use_absolute wall_start wall_end = true ->
  wall_end < wall_start ->
  pos_in_wall wall_start wall_end margin (wall_start - margin) = true
  /\ pos_in_wall wall_start wall_end margin (wall_end + margin) = true
  /\ (wall_end + margin + 1 < wall_start - margin ->
      pos_in_wall wall_start wall_end margin (wall_start - margin - 1) = false
      /\ pos_in_wall wall_start wall_end margin (wall_end + margin + 1) = false).
Proof.
  intros Habs Hord. unfold pos_in_wall. rewrite Habs.
  assert (Hf : Qltb wall_end wall_start = true) by (apply Qltb_spec; lra).
  rewrite Hf.
  split; [|split].
  - apply orb_true_iff. left. apply Qleb_spec. lra.
  - apply orb_true_iff. right. apply Qleb_spec. lra.
  - intro Hgap. split; apply orb_false_iff; split; apply Qleb_false; lra.
Qed.

(** In normalized mode the margin plays no part. *)
Lemma pos_in_wall_normalized_ignores_margin wall_start wall_end margin pos :
  use_absolute wall_start wall_end = false ->
  pos_in_wall wall_start wall_end margin pos
  = pos_in_wall wall_start wall_end 0 pos.
Proof. intro H. unfold pos_in_wall. rewrite H. reflexivity. Qed.

(** In normalized mode the test is the closed interval between the
    smaller and the larger bound. *)
Lemma pos_in_wall_normalized wall_start wall_end margin :
  use_absolute wall_start wall_end = false ->
  pos_in_wall wall_start wall_end margin (pymin wall_start wall_end) = true
  /\ pos_in_wall wall_start wall_end margin (pymax wall_start wall_end) = true
  /\ pos_in_wall wall_start wall_end margin (pymin wall_start wall_end - 1) = false
  /\ pos_in_wall wall_start wall_end margin (pymax wall_start wall_end + 1) = false.
Proof.
  intro Habs. unfold pos_in_wall. rewrite Habs.
  unfold use_absolute in Habs.
  apply orb_false_iff in Habs. destruct Habs as [Habs H4].
  apply orb_false_iff in Habs. destruct Habs as [Habs H3].
  apply orb_false_iff in Habs. destruct Habs as [H1 H2].
  bool_to_order.
  assert (Hs : norm360 wall_start == wall_start) by (apply pymod_small; lra).
  assert (He : norm360 wall_end == wall_end) by (apply pymod_small; lra).
  unfold inWall.
  pose proof (pymin_le_l (norm360 wall_start) (norm360 wall_end)) as A1.
  pose proof (pymin_le_r (norm360 wall_start) (norm360 wall_end)) as A2.
  pose proof (pymax_ge_l (norm360 wall_start) (norm360 wall_end)) as A3.
  pose proof (pymax_ge_r (norm360 wall_start) (norm360 wall_end)) as A4.
  pose proof (pymin_le_l wall_start wall_end) as B1.
  pose proof (pymin_le_r wall_start wall_end) as B2.
  pose proof (pymax_ge_l wall_start wall_end) as B3.
  pose proof (pymax_ge_r wall_start wall_end) as B4.
  assert (C1 : pymin (norm360 wall_start) (norm360 wall_end)
               == pymin wall_start wall_end).
  { unfold pymin.
    destruct (Qltb (norm360 wall_end) (norm360 wall_start)) eqn:E1;
      destruct (Qltb wall_end wall_start) eqn:E2; bool_to_order; lra. }
  assert (C2 : pymax (norm360 wall_start) (norm360 wall_end)
               == pymax wall_start wall_end).
  { unfold pymax.
    destruct (Qltb (norm360 wall_start) (norm360 wall_end)) eqn:E1;
      destruct (Qltb wall_start wall_end) eqn:E2; bool_to_order; lra. }
  repeat split.
  - apply andb_true_iff. split; apply Qleb_spec; lra.
  - apply andb_true_iff. split; apply Qleb_spec; lra.
  - apply andb_false_iff. left. apply Qleb_false. lra.
  - apply andb_false_iff. right. apply Qleb_false. lra.
Qed.

(** C7 (the code departs from the claim).  Bounds 100 and 200 select the
    normalized test, which never looks at the margin: with margin 10 the
    positions 210 and 90, exactly at a bound extended by the margin, are
    reported outside, while the same margin around the absolute bounds
    -100 and 200 puts 210 and -110 inside and 211 and -111 outside. *)
Theorem normalized_wall_test_drops_margin :
  use_absolute 100 200 = false
  /\ pos_in_wall 100 200 10 210 = false
  /\ pos_in_wall 100 200 10 90 = false
  /\ pos_in_wall 100 200 10 200 = true
  /\ pos_in_wall 100 200 10 201 = false
  /\ use_absolute (-(100)) 200 = true
  /\ pos_in_wall (-(100)) 200 10 210 = true
  /\ pos_in_wall (-(100)) 200 10 (-(110)) = true
  /\ pos_in_wall (-(100)) 200 10 211 = false
  /\ pos_in_wall (-(100)) 200 10 (-(111)) = false.
Proof. repeat split; vm_compute; reflexivity. Qed.

End Containment.

(** ** The guard inside the wall *)

Section Guard.
Import Controls Examples.

(** The verdict on a command refused inside the wall. *)
Lemma guard_inside_wall axis current delta dev margin ts ws we t :
  wall_bounds dev axis = (Some ws, Some we) ->
  trk_get ts axis = Some t ->
  pos_in_wall ws we margin current = true ->
  exists ts',
    update_virtual_wall_state axis current delta dev true margin ts
    = Ok (if (cmd_sign delta
              =? - get_default (entry_direction t) (entry_sign delta))%Z
          then allow
          else {| block := true; trigger_correction := true;
                  correction_delta :=
                    correction_of
                      (allowed_exit_target ws we
                         (get_default (entry_direction t) (entry_sign delta)))
                      current |},
          ts').
Proof.
  intros Hb Ht Hin. unfold update_virtual_wall_state.
  cbn [negb]. rewrite Hb, Ht, Hin. cbn [negb andb].
  destruct (entry_direction t) as [e|] eqn:He.
  - rewrite He. cbn [get_default].
    destruct (cmd_sign delta =? - e)%Z; eexists; reflexivity.
  - cbn [entry_direction get_default].
    destruct (cmd_sign delta =? - entry_sign delta)%Z; eexists; reflexivity.
Qed.

(** With no entry direction on record, a command that moves is always
    refused: the direction inferred from it is its own. *)
Lemma cmd_sign_not_opposite delta :
  ~ delta == 0 -> (cmd_sign delta =? - entry_sign delta)%Z = false.
Proof.
  intro Hnz. unfold cmd_sign, entry_sign.
  destruct (Qltb 0 delta) eqn:E1; [reflexivity|].
  destruct (Qltb delta 0) eqn:E2; [reflexivity|].
  bool_to_order. exfalso. apply Hnz. lra.
Qed.

(** After an entry in the positive direction, recorded at pan 99 with the
    wall between 100 and 200: from 150 a command of -5 degrees is allowed,
    a command of +5 degrees is blocked and corrected by -51 degrees, which
    leads to 99, one degree below the lower bound. *)
Example guard_after_positive_entry :
  let entered :=
    trk_set initial_tracker_store WPan
      (Some {| entry_direction := Some 1%Z; entry_position := Some 99 |}) in
  (exists ts',
     update_virtual_wall_state WPan 150 (-(5)) (walled_device 100 200) true 0
       entered = Ok (allow, ts'))
  /\ (exists v ts',
        update_virtual_wall_state WPan 150 5 (walled_device 100 200) true 0
          entered = Ok (v, ts')
        /\ block v = true /\ correction_delta v == -(51)
        /\ allowed_exit_target 100 200 1 == 99).
Proof.
  cbv zeta. split.
  - eexists. vm_compute. reflexivity.
  - eexists. eexists. split; [vm_compute; reflexivity|].
    repeat split; vm_compute; reflexivity.
Qed.

(** C2 (the code departs from the claim).  At start-up, and again after
    every preset recall, the tracker slot of an axis holds [None] rather
    than a dictionary.  With the pan wall between 100 and 200, the pan at
    150 and a command of +5 degrees, the guard then neither allows nor
    blocks: it raises [TypeError].  From an empty dictionary the same call
    blocks, with the correction -51 that leads to 99. *)
Theorem guard_raises_on_unset_tracker :
  pos_in_wall 100 200 0 150 = true
  /\ update_virtual_wall_state WPan 150 5 (walled_device 100 200) true 0
       initial_tracker_store = Raised TypeError
  /\ exists v ts',
       update_virtual_wall_state WPan 150 5 (walled_device 100 200) true 0
         (trk_set initial_tracker_store WPan (Some empty_tracker))
       = Ok (v, ts')
       /\ block v = true /\ correction_delta v == -(51).
Proof.
  split; [vm_compute; reflexivity|].
  split; [vm_compute; reflexivity|].
  eexists. eexists. split; [vm_compute; reflexivity|].
  split; vm_compute; reflexivity.
Qed.

End Guard.

(** ** Timers *)

Section Timers.
Import Controls.

Lemma cancel_at_length n : forall ts, length (cancel_at n ts) = length ts.
Proof.
  induction n as [|n IH]; intros [|t r]; simpl; try reflexivity.
  - destruct (t_status t); reflexivity.
  - rewrite IH. reflexivity.
Qed.

(** After [cancel] the timer at that handle is not pending. *)
Lemma cancel_at_cancels n : forall ts t,
  nth_error (cancel_at n ts) n = Some t -> is_pending t = false.
Proof.
  induction n as [|n IH]; intros [|t0 r] t H; simpl in H; try discriminate.
  - destruct (t_status t0) eqn:E; inversion H; subst; unfold is_pending;
      simpl; try rewrite E; reflexivity.
  - eapply IH. exact H.
Qed.

(** [cancel] never makes a timer pending. *)
Lemma cancel_at_keeps_stopped m : forall n ts t t',
  nth_error ts n = Some t -> is_pending t = false ->
  nth_error (cancel_at m ts) n = Some t' -> is_pending t' = false.
Proof.
  induction m as [|m IH]; intros n [|t0 r] t t' H Hp H'.
  - destruct n; discriminate.
  - destruct n; simpl in *.
    + inversion H; subst.
      destruct (t_status t) eqn:E; inversion H'; subst;
        unfold is_pending; simpl; try rewrite E; reflexivity.
    + destruct (t_status t0); simpl in H'; rewrite H in H';
        inversion H'; subst; exact Hp.
  - destruct n; discriminate.
  - destruct n; simpl in *.
    + inversion H; subst. inversion H'; subst. exact Hp.
    + exact (IH n r t t' H Hp H').
Qed.

Lemma cancel_at_in_range m : forall n ts,
  (n < length ts)%nat -> exists t, nth_error (cancel_at m ts) n = Some t.
Proof.
  intros n ts H. rewrite <- (cancel_at_length m) in H.
  destruct (nth_error (cancel_at m ts) n) eqn:E; [eexists; reflexivity|].
  apply nth_error_None in E. lia.
Qed.

Lemma cancel_handle_outbox h w : outbox (cancel_handle h w) = outbox w.
Proof. destruct h; reflexivity. Qed.

Lemma cancel_handle_movement h w :
  movement_state (cancel_handle h w) = movement_state w.
Proof. destruct h; reflexivity. Qed.

Lemma cancel_handle_length h w :
  length (timers (cancel_handle h w)) = length (timers w).
Proof. destruct h; simpl; [apply cancel_at_length | reflexivity]. Qed.

(** Marking one pending timer as fired leaves one pending timer less. *)
Lemma pending_after_firing : forall ts n t fired,
  nth_error ts n = Some t -> is_pending t = true -> is_pending fired = false ->
  S (length (filter is_pending (firstn n ts ++ fired :: skipn (S n) ts)))
  = length (filter is_pending ts).
Proof.
  induction ts as [|t0 r IH]; intros n t fired H Hp Hf.
  - destruct n; discriminate.
  - destruct n; simpl in *.
    + inversion H; subst. rewrite Hp, Hf. reflexivity.
    + destruct (is_pending t0); simpl; erewrite <- IH by eassumption;
        reflexivity.
Qed.

End Timers.

(** ** Repeat ticks under a predicted block *)

Section RepeatTick.
Import Controls Examples.

(** The state a blocked tick returns: the one it was given, with the
    clock reading recorded and the delta added. *)
Lemma blocked_tick_state now as_name apcr settings w :
  active (movement_state w as_name) = true ->
  predicted_block w = true ->
  repeat_command now as_name apcr settings w
  = update_cumulative_delta
      (tick_delta as_name (direction (movement_state w as_name))
         (tick_percentage as_name apcr settings w))
      (user_input_received now w).
Proof.
  intros Hact Hblk.
  assert (E1 : movement_state (user_input_received now w) = movement_state w)
    by reflexivity.
  assert (E2 : forall d,
             predicted_block
               (update_cumulative_delta d (user_input_received now w)) = true)
    by (intro d; exact Hblk).
  unfold repeat_command. cbv zeta. rewrite E1, Hact, E2. reflexivity.
Qed.

(** C5.  When a repeat tick runs on an active axis while the
    predicted-block flag is set, it adds the delta it computed to the
    accumulator and returns: nothing is sent, no timer is started, the
    slot of the axis is left as it was and the flag stays set. *)
Theorem repeat_tick_under_predicted_block now as_name apcr settings w :
  active (movement_state w as_name) = true ->
  predicted_block w = true ->
  cumulative_delta (repeat_command now as_name apcr settings w)
  = cumulative_delta w
    + tick_delta as_name (direction (movement_state w as_name))
        (tick_percentage as_name apcr settings w)
  /\ outbox (repeat_command now as_name apcr settings w) = outbox w
  /\ timers (repeat_command now as_name apcr settings w) = timers w
  /\ movement_state (repeat_command now as_name apcr settings w)
     = movement_state w
  /\ predicted_block (repeat_command now as_name apcr settings w) = true.
Proof.
  intros Hact Hblk.
  rewrite (blocked_tick_state now as_name apcr settings w Hact Hblk).
  repeat split. exact Hblk.
Qed.

(** The pan axis held to the right at full speed, the flag set: the tick
    adds 90 degrees and sends nothing. *)
Lemma repeat_tick_under_predicted_block_witness :
  cumulative_delta (repeat_command 0 Pan plain_device None (moving_world true))
  = cumulative_delta (moving_world true)
    + tick_delta Pan (direction (movement_state (moving_world true) Pan))
        (tick_percentage Pan plain_device None (moving_world true))
  /\ outbox (repeat_command 0 Pan plain_device None (moving_world true))
     = outbox (moving_world true)
  /\ timers (repeat_command 0 Pan plain_device None (moving_world true))
     = timers (moving_world true)
  /\ movement_state (repeat_command 0 Pan plain_device None (moving_world true))
     = movement_state (moving_world true)
  /\ predicted_block (repeat_command 0 Pan plain_device None (moving_world true))
     = true.
Proof.
  apply (repeat_tick_under_predicted_block 0 Pan plain_device None
           (moving_world true)); reflexivity.
Defined.

(** When the tick is the firing of the repeat timer, the firing uses the
    timer up and nothing replaces it: one pending timer less, and nothing
    sent. *)
Lemma fired_tick_under_predicted_block now n w t as_name apcr settings c :
  nth_error (timers w) n = Some t -> is_pending t = true ->
  t_callback t = RepeatCb as_name apcr settings c ->
  active (movement_state w as_name) = true ->
  predicted_block w = true ->
  outbox (fire_timer now n w) = outbox w
  /\ S (length (pending_timers (fire_timer now n w)))
     = length (pending_timers w).
Proof.
  intros Hn Hp Hcb Hact Hblk. unfold fire_timer. rewrite Hn, Hp, Hcb.
  set (w1 := with_timers w _).
  rewrite (blocked_tick_state now as_name apcr settings w1 Hact Hblk).
  split.
  - reflexivity.
  - unfold pending_timers, w1. cbn [timers with_timers update_cumulative_delta
      with_cumulative user_input_received].
    eapply pending_after_firing; [exact Hn | exact Hp | reflexivity].
Qed.

(** Without the flag the same tick sends the pan frame and starts the
    next repeat timer. *)
Example repeat_tick_without_block :
  outbox (repeat_command 0 Pan plain_device None (moving_world false))
  = outbox (moving_world false) ++ [MovePacket Pan (Some Positive) 1 2024]
  /\ length (timers (repeat_command 0 Pan plain_device None (moving_world false)))
     = S (length (timers (moving_world false)))
  /\ cumulative_delta (repeat_command 0 Pan plain_device None (moving_world false))
     == 90.
Proof. repeat split; vm_compute; reflexivity. Qed.

End RepeatTick.

(** ** The text of a frame and its bytes *)

Section FrameText.
Import Hex Ascii String.

Lemma byte_round_trips_all upper (b : Z) :
  (0 <= b < 256)%Z -> byte_round_trips upper b = true.
Proof.
  intro Hb.
  assert (H : forallb (fun n => byte_round_trips upper (Z.of_nat n))
                (seq 0 256) = true).
  { destruct upper; vm_compute; reflexivity. }
  rewrite forallb_forall in H.
  specialize (H (Z.to_nat b)).
  rewrite Z2Nat.id in H by lia. apply H.
  apply in_seq. lia.
Qed.

Lemma fromhex_pair a b x y rest :
  hex_value a = Some x -> hex_value b = Some y ->
  fromhex (String a (String b rest))
  = match fromhex rest with
    | Some l => Some ((16 * x + y)%Z :: l)
    | None => None
    end.
Proof. intros Ha Hb. cbn [fromhex]. rewrite Ha, Hb. reflexivity. Qed.

(** A byte written with two hexadecimal digits is read back by
    [fromhex], whatever follows. *)
Lemma fromhex_byte upper b rest :
  (0 <= b < 256)%Z ->
  fromhex (String.append (format_02 upper b) rest)
  = match fromhex rest with Some l => Some (b :: l) | None => None end.
Proof.
  intro Hb. pose proof (byte_round_trips_all upper b Hb) as H.
  unfold byte_round_trips in H.
  destruct (format_02 upper b) as [|c1 [|c2 [|c3 r]]]; try discriminate.
  destruct (hex_value c1) as [x|] eqn:E1; [|discriminate].
  destruct (hex_value c2) as [y|] eqn:E2; [|discriminate].
  apply andb_true_iff in H. destruct H as [Hx Hy].
  apply Z.eqb_eq in Hx. apply Z.eqb_eq in Hy.
  cbn [String.append fromhex]. rewrite E1, E2.
  assert (E : (16 * x + y = b)%Z).
  { subst x y. symmetry. apply Z.div_mod. lia. }
  rewrite E. reflexivity.
Qed.

Lemma fromhex_last_byte upper b :
  (0 <= b < 256)%Z -> fromhex (format_02 upper b) = Some [b].
Proof.
  intro Hb. pose proof (fromhex_byte upper b String.EmptyString Hb) as H.
  cbn [fromhex] in H. rewrite <- H. f_equal.
  clear. induction (format_02 upper b) as [|c r IH]; [reflexivity|].
  cbn [String.append]. rewrite <- IH. reflexivity.
Qed.

Lemma append_assoc (a b c : String.string) :
  String.append (String.append a b) c = String.append a (String.append b c).
Proof.
  induction a as [|x a IH]; [reflexivity|].
  cbn [String.append]. rewrite IH. reflexivity.
Qed.

End FrameText.

(** Reading the bytes of a text whose leading characters are known. *)
Ltac read_bytes :=
  cbn [String.append];
  repeat match goal with
         | |- context [Hex.fromhex (String.String ?a (String.String ?b ?rest))] =>
             rewrite (fromhex_pair a b _ _ rest eq_refl eq_refl)
         end.

Section CameraId.
Import Controls Hex Ascii String.

(** For a camera id that fits one byte every idle text is read. *)
Lemma idle_packet_is_read as_name cam :
  (0 <= cam <= 255)%Z ->
  exists text data,
    get_idle_packet as_name cam = Some text
    /\ bytes_fromhex text = Ok (10 :: cam :: data)%Z.
Proof.
  intro Hcam.
  destruct as_name; cbn [get_idle_packet]; eexists; eexists;
    (split; [reflexivity|]);
    unfold bytes_fromhex; read_bytes;
    rewrite (fromhex_byte false cam) by lia;
    read_bytes; cbn [fromhex]; reflexivity.
Qed.

(** And so is every base text of a pan, tilt or roll direction. *)
Lemma base_packet_is_read as_name d cam :
  (0 <= cam <= 255)%Z -> as_name <> Zoom ->
  exists data, get_base_packet as_name d cam = Ok (Some data).
Proof.
  intros Hcam Hax. unfold get_base_packet.
  destruct as_name; try contradiction; cbn [base_packet_text];
    destruct (is_positive d);
    unfold bytes_fromhex; read_bytes;
    rewrite (fromhex_byte false cam) by lia;
    read_bytes; cbn [fromhex]; eexists; reflexivity.
Qed.

Lemma zoom_prefix_is_read cam :
  (0 <= cam <= 255)%Z ->
  exists data, bytes_fromhex (zoom_prefix_text cam) = Ok data.
Proof.
  intro Hcam. unfold bytes_fromhex, zoom_prefix_text.
  read_bytes.
  rewrite (fromhex_byte false cam) by lia.
  read_bytes. cbn [fromhex]. eexists. reflexivity.
Qed.

Lemma position_request_is_read cam :
  (0 <= cam <= 255)%Z ->
  exists data,
    bytes_fromhex (Presets.RequestText.position_request_hex cam) = Ok data.
Proof.
  intro Hcam. unfold bytes_fromhex, Presets.RequestText.position_request_hex.
  read_bytes.
  rewrite (fromhex_byte false cam) by lia.
  read_bytes. cbn [fromhex]. eexists. reflexivity.
Qed.

(** The idle frame of the live check, for such a camera id. *)
Lemma send_idle_frame_ok as_name cam w :
  (0 <= cam <= 255)%Z ->
  send_idle_frame as_name cam w
  = Ok (send_apcr_command w (IdlePacket as_name cam)).
Proof.
  intro Hcam. unfold send_idle_frame.
  destruct (idle_packet_is_read as_name cam Hcam) as [text [data [E1 E2]]].
  rewrite E1, E2. reflexivity.
Qed.

(** Whatever the camera id, the idle frame of the live check is sent or
    nothing is. *)
Lemma send_idle_frame_cases as_name cam w :
  send_idle_frame as_name cam w
  = Ok (send_apcr_command w (IdlePacket as_name cam))
  \/ exists e, send_idle_frame as_name cam w = Raised e.
Proof.
  unfold send_idle_frame.
  destruct as_name; cbn [get_idle_packet];
    match goal with
    | |- context [bytes_fromhex ?t] => destruct (bytes_fromhex t)
    end; (left; reflexivity) || (right; eexists; reflexivity).
Qed.

(** What [send_movement_packet] does to the state, whatever its
    arguments: nothing, or one frame sent, or for zoom one frame sent
    and the zoom activity notified. *)
Lemma send_movement_packet_shape as_name d pct apcr ct settings w :
  send_movement_packet as_name d pct apcr ct settings w = w
  \/ (exists p, send_movement_packet as_name d pct apcr ct settings w
                = send_apcr_command w p)
  \/ (exists p, send_movement_packet as_name d pct apcr ct settings w
                = notify_zoom_activity true (send_apcr_command w p)).
Proof.
  unfold send_movement_packet.
  destruct as_name;
    try (destruct (negb (fits_int16 _)); [left; reflexivity|];
         match goal with
         | |- context [get_base_packet ?a ?b ?c] =>
             destruct (get_base_packet a b c) as [[data|]|e];
             try (left; reflexivity)
         end;
         match goal with
         | |- context [match ?v with LiveAllow => _ | LiveBlock => _ end] =>
             destruct v
         end;
         [right; left; eexists; reflexivity|];
         match goal with
         | |- context [send_idle_frame ?a ?c ?w] =>
             destruct (send_idle_frame_cases a c w) as [E|[e' E]];
             rewrite E;
             [right; left; eexists; reflexivity|left; reflexivity]
         end).
  destruct (get_zoom_packet pct d ct (camid apcr));
    [right; right; eexists; reflexivity|left; reflexivity].
Qed.

End CameraId.

(** ** Stopping an axis *)

Section Stop.
Import Controls Examples.

Lemma cancelled_timers_length st ts :
  length (cancelled_timers st ts) = length ts.
Proof.
  unfold cancelled_timers.
  destruct (timer st), (idle_timer st); rewrite ?cancel_at_length; reflexivity.
Qed.

(** What the part of [stop_movement] after the idle frame leaves
    behind. *)
Lemma mark_stopped_state as_name apcr w :
  timers (mark_stopped as_name apcr w)
  = cancelled_timers (movement_state w as_name) (timers w)
    ++ [{| t_delay := IDLE_DELAY; t_callback := IdleCb as_name apcr;
           t_status := Pending |}]
  /\ outbox (mark_stopped as_name apcr w) = outbox w
  /\ movement_state (mark_stopped as_name apcr w)
     = set_axis (movement_state w) as_name
         {| active := false; direction := None; percentage := 0;
            control_type := None;
            original_percentage :=
              original_percentage (movement_state w as_name);
            timer := None;
            idle_timer := Some (length (timers w)) |}.
Proof.
  unfold mark_stopped, start_timer, cancelled_timers.
  assert (Hlen : length (timers
            (cancel_handle (idle_timer (movement_state w as_name))
               (cancel_handle (timer (movement_state w as_name)) w)))
          = length (timers w)).
  { rewrite !cancel_handle_length. reflexivity. }
  rewrite Hlen.
  destruct (timer (movement_state w as_name)) as [h1|];
    destruct (idle_timer (movement_state w as_name)) as [h2|];
    destruct as_name;
    unfold notify_zoom_activity;
    cbn [cancel_handle with_timers with_movement
         timers outbox movement_state zoom_active];
    try (destruct (Bool.eqb (zoom_active w) false));
    repeat split; reflexivity.
Qed.

Lemma stop_movement_inactive as_name apcr w :
  active (movement_state w as_name) = false ->
  stop_movement as_name apcr w = Ok w.
Proof. intro H. unfold stop_movement. rewrite H. reflexivity. Qed.

(** With a camera id that fits one byte the stop of an active axis
    returns. *)
Lemma stop_movement_ok as_name apcr w :
  (0 <= camid apcr <= 255)%Z ->
  active (movement_state w as_name) = true ->
  stop_movement as_name apcr w
  = Ok (mark_stopped as_name apcr
          (send_apcr_command w (IdlePacket as_name (camid apcr)))).
Proof.
  intros Hcam Hact. unfold stop_movement. rewrite Hact.
  destruct (idle_packet_is_read as_name (camid apcr) Hcam)
    as [text [data [E1 E2]]].
  rewrite E1, E2. reflexivity.
Qed.

(** Whatever the camera id, a stop returns with the axis stopped, or
    with nothing changed, or raises. *)
Lemma stop_movement_cases as_name apcr w :
  (active (movement_state w as_name) = false
   /\ stop_movement as_name apcr w = Ok w)
  \/ (active (movement_state w as_name) = true
      /\ stop_movement as_name apcr w
         = Ok (mark_stopped as_name apcr
                 (send_apcr_command w (IdlePacket as_name (camid apcr)))))
  \/ (active (movement_state w as_name) = true
      /\ exists e, stop_movement as_name apcr w = Raised e).
Proof.
  unfold stop_movement.
  destruct (active (movement_state w as_name)); [|left; split; reflexivity].
  right.
  destruct as_name; cbn [get_idle_packet];
    match goal with
    | |- context [bytes_fromhex ?t] => destruct (bytes_fromhex t)
    end;
    ((left; split; reflexivity) || (right; split; [|eexists]; reflexivity)).
Qed.

Lemma after_stop_inactive as_name apcr w :
  active (movement_state w as_name) = false ->
  after_stop as_name apcr w = w.
Proof.
  intro H. unfold after_stop.
  rewrite (stop_movement_inactive as_name apcr w H). reflexivity.
Qed.

(** The state a stop leaves behind: the one it found, or the axis
    stopped after one idle frame. *)
Lemma after_stop_cases as_name apcr w :
  after_stop as_name apcr w = w
  \/ (active (movement_state w as_name) = true
      /\ timers (after_stop as_name apcr w)
         = cancelled_timers (movement_state w as_name) (timers w)
           ++ [{| t_delay := IDLE_DELAY; t_callback := IdleCb as_name apcr;
                  t_status := Pending |}]
      /\ outbox (after_stop as_name apcr w)
         = outbox w ++ [IdlePacket as_name (camid apcr)]
      /\ movement_state (after_stop as_name apcr w)
         = set_axis (movement_state w) as_name
             {| active := false; direction := None; percentage := 0;
                control_type := None;
                original_percentage :=
                  original_percentage (movement_state w as_name);
                timer := None;
                idle_timer := Some (length (timers w)) |}).
Proof.
  unfold after_stop.
  destruct (stop_movement_cases as_name apcr w)
    as [[_ E]|[[Hact E]|[_ [e E]]]]; rewrite E; try (left; reflexivity).
  right. split; [exact Hact|].
  exact (mark_stopped_state as_name apcr
           (send_apcr_command w (IdlePacket as_name (camid apcr)))).
Qed.

(** The idle-grace callback, for a camera id that fits one byte. *)
Lemma send_idle_if_still_inactive_ok as_name apcr w :
  (0 <= camid apcr <= 255)%Z ->
  active (movement_state w as_name) = false ->
  send_idle_if_still_inactive as_name apcr w
  = Ok (send_apcr_command w (IdlePacket as_name (camid apcr))).
Proof.
  intros Hcam Hact. unfold send_idle_if_still_inactive. rewrite Hact.
  destruct (idle_packet_is_read as_name (camid apcr) Hcam)
    as [text [data [E1 E2]]].
  cbn [negb]. rewrite E1, E2. reflexivity.
Qed.

Lemma set_axis_same ms a st : set_axis ms a st a = st.
Proof. unfold set_axis. destruct a; reflexivity. Qed.

(** Camera id 256 takes three digits in the text of a frame, which
    [bytes.fromhex] then refuses.  A stop of the pan axis that was
    started for such a device raises before the slot is touched: no call
    of it returns, the axis stays active with its repeat timer pending,
    and no frame is sent. *)
Lemma stop_raises_on_camid_256 :
  active (movement_state moving_on_256 Pan) = true
  /\ stop_movement Pan (numbered_device 256) moving_on_256
     = Raised ValueError
  /\ (forall w1,
        stop_movement Pan (numbered_device 256) moving_on_256 <> Ok w1)
  /\ active (movement_state
               (after_stop Pan (numbered_device 256) moving_on_256) Pan)
     = true
  /\ outbox (after_stop Pan (numbered_device 256) moving_on_256)
     = outbox moving_on_256
  /\ pending_timers (after_stop Pan (numbered_device 256) moving_on_256)
     = pending_timers moving_on_256.
Proof.
  assert (E : stop_movement Pan (numbered_device 256) moving_on_256
              = Raised ValueError) by (vm_compute; reflexivity).
  split; [reflexivity|].
  split; [exact E|].
  split; [intros w1 H; rewrite E in H; discriminate|].
  unfold after_stop. rewrite E. repeat split.
Qed.

(** C8 (amended).  For a device whose camera id fits one byte, stopping
    an active axis twice in a row: both calls return and the second
    changes nothing.  The first call sends one idle frame, marks the
    axis inactive, clears the repeat handle after cancelling its timer,
    and starts one idle-grace timer; when that timer fires after the two
    calls it sends one more idle frame, and it fires only once.  In all,
    two idle frames: one at once, one after the grace delay. *)
Theorem stop_twice_is_stop_once now as_name apcr w :
  (0 <= camid apcr <= 255)%Z ->
  active (movement_state w as_name) = true ->
  (forall h, timer (movement_state w as_name) = Some h ->
             (h < length (timers w))%nat) ->
  exists w1,
    stop_movement as_name apcr w = Ok w1
    /\ stop_movement as_name apcr w1 = Ok w1
    /\ outbox w1 = outbox w ++ [IdlePacket as_name (camid apcr)]
    /\ active (movement_state w1 as_name) = false
    /\ timer (movement_state w1 as_name) = None
    /\ (forall h, timer (movement_state w as_name) = Some h ->
          exists t, nth_error (timers w1) h = Some t
                    /\ is_pending t = false)
    /\ idle_timer (movement_state w1 as_name) = Some (length (timers w))
    /\ nth_error (timers w1) (length (timers w))
       = Some {| t_delay := IDLE_DELAY; t_callback := IdleCb as_name apcr;
                 t_status := Pending |}
    /\ outbox (fire_timer now (length (timers w)) w1)
       = outbox w ++ [IdlePacket as_name (camid apcr);
                      IdlePacket as_name (camid apcr)]
    /\ fire_timer now (length (timers w))
         (fire_timer now (length (timers w)) w1)
       = fire_timer now (length (timers w)) w1.
Proof.
  intros Hcam Hact Hwf.
  pose proof (stop_movement_ok as_name apcr w Hcam Hact) as Hstop.
  destruct (mark_stopped_state as_name apcr
              (send_apcr_command w (IdlePacket as_name (camid apcr))))
    as [Ht [Ho Hm]].
  cbn [timers outbox movement_state send_apcr_command] in Ht, Ho, Hm.
  set (w1 := mark_stopped as_name apcr
               (send_apcr_command w (IdlePacket as_name (camid apcr)))) in *.
  exists w1.
  assert (Hinact : active (movement_state w1 as_name) = false).
  { rewrite Hm, set_axis_same. reflexivity. }
  assert (Hnth :
    nth_error (timers w1) (length (timers w))
    = Some {| t_delay := IDLE_DELAY; t_callback := IdleCb as_name apcr;
              t_status := Pending |}).
  { rewrite Ht, nth_error_app2; rewrite cancelled_timers_length; [|lia].
    rewrite Nat.sub_diag. reflexivity. }
  split; [exact Hstop|].
  split; [exact (stop_movement_inactive as_name apcr w1 Hinact)|].
  split; [exact Ho|].
  split; [exact Hinact|].
  split; [rewrite Hm, set_axis_same; reflexivity|].
  split.
  { intros h Hh. pose proof (Hwf h Hh) as Hlt.
    rewrite Ht, nth_error_app1 by (rewrite cancelled_timers_length; exact Hlt).
    unfold cancelled_timers. rewrite Hh.
    destruct (cancel_at_in_range h h (timers w) Hlt) as [t1 H1].
    pose proof (cancel_at_cancels h (timers w) t1 H1) as Hp1.
    destruct (idle_timer (movement_state w as_name)) as [h2|].
    - assert (Hlt2 : (h < length (cancel_at h (timers w)))%nat)
        by (rewrite cancel_at_length; exact Hlt).
      destruct (cancel_at_in_range h2 h _ Hlt2) as [t2 H2].
      exists t2. split; [exact H2|].
      exact (cancel_at_keeps_stopped h2 h _ t1 t2 H1 Hp1 H2).
    - exists t1. split; assumption. }
  split; [rewrite Hm, set_axis_same; reflexivity|].
  split; [exact Hnth|].
  assert (Hfire :
    fire_timer now (length (timers w)) w1
    = send_apcr_command
        (with_timers w1
           (firstn (length (timers w)) (timers w1)
            ++ {| t_delay := IDLE_DELAY; t_callback := IdleCb as_name apcr;
                  t_status := Fired |}
            :: skipn (S (length (timers w))) (timers w1)))
        (IdlePacket as_name (camid apcr))).
  { unfold fire_timer. rewrite Hnth. cbn [is_pending t_status t_callback
      t_delay].
    rewrite send_idle_if_still_inactive_ok; [reflexivity|exact Hcam|].
    cbn [movement_state with_timers]. exact Hinact. }
  split.
  { rewrite Hfire. cbn [outbox send_apcr_command with_timers].
    rewrite Ho, <- app_assoc. reflexivity. }
  rewrite Hfire. unfold fire_timer at 1.
  cbn [timers send_apcr_command with_timers].
  assert (Hlen : length (firstn (length (timers w)) (timers w1))
                 = length (timers w)).
  { rewrite length_firstn, Ht, length_app, cancelled_timers_length.
    simpl. lia. }
  rewrite nth_error_app2 by lia.
  rewrite Hlen, Nat.sub_diag. reflexivity.
Qed.

(** The moving pan axis of the example process, whose device has camera
    id 1, is stopped twice. *)
Lemma stop_twice_is_stop_once_witness :
  exists w1,
    stop_movement Pan plain_device (moving_world false) = Ok w1
    /\ stop_movement Pan plain_device w1 = Ok w1
    /\ outbox w1
       = outbox (moving_world false) ++ [IdlePacket Pan (camid plain_device)]
    /\ active (movement_state w1 Pan) = false
    /\ timer (movement_state w1 Pan) = None
    /\ (forall h, timer (movement_state (moving_world false) Pan) = Some h ->
          exists t, nth_error (timers w1) h = Some t
                    /\ is_pending t = false)
    /\ idle_timer (movement_state w1 Pan)
       = Some (length (timers (moving_world false)))
    /\ nth_error (timers w1) (length (timers (moving_world false)))
       = Some {| t_delay := IDLE_DELAY; t_callback := IdleCb Pan plain_device;
                 t_status := Pending |}
    /\ outbox (fire_timer 0 (length (timers (moving_world false))) w1)
       = outbox (moving_world false)
         ++ [IdlePacket Pan (camid plain_device);
             IdlePacket Pan (camid plain_device)]
    /\ fire_timer 0 (length (timers (moving_world false)))
         (fire_timer 0 (length (timers (moving_world false))) w1)
       = fire_timer 0 (length (timers (moving_world false))) w1.
Proof.
  apply (stop_twice_is_stop_once 0 Pan plain_device (moving_world false)).
  - simpl. lia.
  - reflexivity.
  - intros h Hh. inversion Hh. simpl. lia.
Defined.

(** On an axis that is not active, a stop does nothing at all. *)
Example stop_on_idle_axis :
  stop_movement Tilt plain_device (moving_world false)
  = Ok (moving_world false).
Proof. reflexivity. Qed.

End Stop.

(** ** The cumulative-delta accumulator *)

Section Accumulator.
Import Controls Examples.






Lemma notify_zoom_activity_movement b w :
  movement_state (notify_zoom_activity b w) = movement_state w
  /\ predicted_block (notify_zoom_activity b w) = predicted_block w.
Proof.
  unfold notify_zoom_activity.
  destruct (Bool.eqb (zoom_active w) b); split; reflexivity.
Qed.

(** Sending a frame touches neither the slots nor the flag. *)
Lemma send_movement_packet_movement as_name d pct apcr ct settings w :
  movement_state (send_movement_packet as_name d pct apcr ct settings w)
  = movement_state w
  /\ predicted_block (send_movement_packet as_name d pct apcr ct settings w)
     = predicted_block w.
Proof.
  destruct (send_movement_packet_shape as_name d pct apcr ct settings w)
    as [E|[[p E]|[p E]]]; rewrite E; try (split; reflexivity).
  destruct (notify_zoom_activity_movement true (send_apcr_command w p))
    as [Hm Hp].
  rewrite Hm, Hp. split; reflexivity.
Qed.






End Accumulator.

(** * Further properties of the planner *)

Section ArcSampling.
Import Presets.

(** Between two normalized angles, sampling with a positive step ends: the
    samples start at the start, end on the end, are at least two, and each
    lies at most one step from the next on the circle. *)
Theorem sample_arc_covers_the_arc start_norm end_norm direction step :
  0 < step ->
  0 <= start_norm -> start_norm < 360 ->
  0 <= end_norm -> end_norm < 360 ->
  exists pts,
    sample_arc_normalized start_norm end_norm direction step = Some pts
    /\ chain_near step pts = true
    /\ (2 <= length pts)%nat
    /\ hd start_norm pts = start_norm
    /\ last pts start_norm == end_norm.
Proof.
  intros Hs Hs0 Hs1 He0 He1.
  destruct (sample_arc_normalized_total start_norm end_norm direction step Hs)
    as [pts Hp].
  exists pts. split; [exact Hp|].
  exact (sample_arc_normalized_spacing _ _ _ _ pts Hs Hs0 Hs1 He0 He1 Hp).
Qed.

(** The counter-clockwise arc from 350 to 10 degrees, in steps of 2. *)
Lemma sample_arc_covers_the_arc_witness :
  exists pts,
    sample_arc_normalized 350 10 1 2 = Some pts
    /\ chain_near 2 pts = true
    /\ (2 <= length pts)%nat
    /\ hd 350 pts = 350
    /\ last pts 350 == 10.
Proof.
  apply (sample_arc_covers_the_arc 350 10 1 2); lra.
Defined.

(** A loop with a step that is not positive never ends when it has any
    distance to cover. *)
Lemma climb_stuck step limit wrap :
  step <= 0 -> forall fuel current,
  current < limit -> climb fuel current limit step wrap = None.
Proof.
  intro Hs. induction fuel as [|f IH]; intros c Hc; cbn [climb].
  - assert (E : Qltb c limit = true) by (apply Qltb_spec; exact Hc).
    rewrite E. reflexivity.
  - assert (E : Qltb c limit = true) by (apply Qltb_spec; exact Hc).
    rewrite E. rewrite IH; [reflexivity|].
    unfold pymin. destruct (Qltb limit (c + step)) eqn:E2; bool_to_order; lra.
Qed.

(** *** Walls that sampling cannot miss *)

Lemma in_sorted_wall_spec ws we p :
  in_sorted_wall ws we p = true <-> ws <= p /\ p <= we.
Proof.
  unfold in_sorted_wall. rewrite andb_true_iff, !Qleb_spec. reflexivity.
Qed.

(** An upward loop that starts below a wall at least one step wide and
    ends above it appends a sample inside the wall. *)
Lemma climb_hits step limit wrap ws we :
  0 < step -> ws + step <= we -> we <= limit ->
  (wrap = true -> 0 <= ws /\ we < 360) ->
  forall fuel c r,
    c < ws ->
    climb fuel c limit step wrap = Some r ->
    existsb (in_sorted_wall ws we) r = true.
Proof.
  intros Hs Hwide Hlim Hw.
  induction fuel as [|f IH]; intros c r Hc Hr; cbn [climb] in Hr;
    (assert (E : Qltb c limit = true) by (apply Qltb_spec; lra));
    rewrite E in Hr; [discriminate|].
  set (c' := pymin (c + step) limit) in *.
  destruct (climb f c' limit step wrap) as [r'|] eqn:Er; [|discriminate].
  inversion Hr; subst r. clear Hr.
  assert (Hc'hi : c' <= c + step) by apply pymin_le_l.
  assert (Hc'lo : c < c').
  { unfold c', pymin. destruct (Qltb limit (c + step)); lra. }
  cbn [existsb].
  destruct (Qlt_le_dec c' ws) as [Hbelow|Hin].
  - rewrite (IH c' r' Hbelow Er). apply orb_true_r.
  - assert (Hin' : in_sorted_wall ws we
                     (if wrap then pymod c' 360 else c') = true).
    { apply in_sorted_wall_spec. destruct wrap.
      - destruct (Hw eq_refl) as [Hws0 Hwe360].
        rewrite (pymod_small c' 360) by lra. lra.
      - lra. }
    rewrite Hin'. reflexivity.
Qed.

(** A downward loop that starts above such a wall and ends below it
    appends a sample inside the wall. *)
Lemma descend_hits step limit wrap ws we :
  0 < step -> ws + step <= we -> limit <= ws ->
  (wrap = true -> 0 <= ws /\ we < 360) ->
  forall fuel c r,
    we < c ->
    descend fuel c limit step wrap = Some r ->
    existsb (in_sorted_wall ws we) r = true.
Proof.
  intros Hs Hwide Hlim Hw.
  induction fuel as [|f IH]; intros c r Hc Hr; cbn [descend] in Hr;
    (assert (E : Qltb limit c = true) by (apply Qltb_spec; lra));
    rewrite E in Hr; [discriminate|].
  set (c' := pymax (c - step) limit) in *.
  destruct (descend f c' limit step wrap) as [r'|] eqn:Er; [|discriminate].
  inversion Hr; subst r. clear Hr.
  assert (Hc'lo : c - step <= c') by apply pymax_ge_l.
  assert (Hc'hi : c' < c).
  { unfold c', pymax. destruct (Qltb (c - step) limit); lra. }
  cbn [existsb].
  destruct (Qlt_le_dec we c') as [Habove|Hin].
  - rewrite (IH c' r' Habove Er). apply orb_true_r.
  - assert (Hin' : in_sorted_wall ws we
                     (if wrap then pymod c' 360 else c') = true).
    { apply in_sorted_wall_spec. destruct wrap.
      - destruct (Hw eq_refl) as [Hws0 Hwe360].
        rewrite (pymod_small c' 360) by lra. lra.
      - lra. }
    rewrite Hin'. reflexivity.
Qed.

(** Every value a sampling pass appends is among the samples returned. *)
Lemma sample_arc_keeps_body start_norm end_norm direction step pts f :
  sample_arc_normalized start_norm end_norm direction step = Some pts ->
  (if (direction =? 1)%Z then
     if Qltb start_norm end_norm then
       exists r, climb (steps_needed (end_norm - start_norm) step)
                   start_norm end_norm step false = Some r
                 /\ (existsb f r = true -> existsb f pts = true)
     else
       exists r1 r2,
         climb (steps_needed (360 - start_norm) step) start_norm 360 step true
         = Some r1
         /\ climb (steps_needed end_norm step) 0 end_norm step false = Some r2
         /\ (existsb f r1 = true -> existsb f pts = true)
         /\ (existsb f r2 = true -> existsb f pts = true)
   else
     if Qltb end_norm start_norm then
       exists r, descend (steps_needed (start_norm - end_norm) step)
                   start_norm end_norm step false = Some r
                 /\ (existsb f r = true -> existsb f pts = true)
     else
       exists r1 r2,
         descend (steps_needed start_norm step) start_norm 0 step false
         = Some r1
         /\ descend (steps_needed (360 - end_norm) step) 360 end_norm step true
            = Some r2
         /\ (existsb f r1 = true -> existsb f pts = true)
         /\ (existsb f r2 = true -> existsb f pts = true)).
Proof.
  unfold sample_arc_normalized. intro Hp.
  assert (Hfin : forall r,
    (if Qeqb (last (start_norm :: r) start_norm) end_norm
     then Some (start_norm :: r)
     else Some ((start_norm :: r) ++ [end_norm])) = Some pts ->
    forall r0, (exists a b, r = a ++ r0 ++ b) ->
    existsb f r0 = true -> existsb f pts = true).
  { intros r Hr r0 [a [b Hab]] H0.
    assert (Hin : existsb f (start_norm :: r) = true).
    { cbn [existsb]. rewrite Hab, !existsb_app, H0.
      rewrite orb_true_r. cbn. apply orb_true_r. }
    destruct (Qeqb _ _); inversion Hr; subst pts; [exact Hin|].
    cbn [app existsb] in Hin |- *.
    apply orb_true_iff in Hin. destruct Hin as [H|H].
    - rewrite H. reflexivity.
    - rewrite existsb_app, H. apply orb_true_r. }
  destruct (direction =? 1)%Z.
  - destruct (Qltb start_norm end_norm).
    + destruct (climb _ start_norm end_norm step false) as [r|];
        [|discriminate].
      exists r. split; [reflexivity|].
      apply (Hfin r Hp). exists [], []. rewrite app_nil_r. reflexivity.
    + destruct (climb _ start_norm 360 step true) as [r1|]; [|discriminate].
      destruct (climb _ 0 end_norm step false) as [r2|]; [|discriminate].
      cbn [opt_app] in Hp.
      exists r1, r2. repeat split.
      * apply (Hfin _ Hp). exists [], r2. reflexivity.
      * apply (Hfin _ Hp). exists r1, []. rewrite app_nil_r. reflexivity.
  - destruct (Qltb end_norm start_norm).
    + destruct (descend _ start_norm end_norm step false) as [r|];
        [|discriminate].
      exists r. split; [reflexivity|].
      apply (Hfin r Hp). exists [], []. rewrite app_nil_r. reflexivity.
    + destruct (descend _ start_norm 0 step false) as [r1|]; [|discriminate].
      destruct (descend _ 360 end_norm step true) as [r2|]; [|discriminate].
      cbn [opt_app] in Hp.
      exists r1, r2. repeat split.
      * apply (Hfin _ Hp). exists [], r2. reflexivity.
      * apply (Hfin _ Hp). exists r1, []. rewrite app_nil_r. reflexivity.
Qed.

(** With a wall at least one step wide and both ends outside it, the
    samples of one of the two routes meet the wall. *)
Lemma existsb_last {A} (f : A -> bool) l d :
  l <> [] -> f (last l d) = true -> existsb f l = true.
Proof.
  induction l as [|x l IH]; intros Hne H; [contradiction|].
  destruct l as [|y l'].
  - simpl in *. rewrite H. reflexivity.
  - change (last (x :: y :: l') d) with (last (y :: l') d) in H.
    change (existsb f (x :: y :: l')) with (f x || existsb f (y :: l')).
    rewrite (IH ltac:(discriminate) H). apply orb_true_r.
Qed.

Lemma last_of_tail {A} (x : A) l d :
  l <> [] -> last (x :: l) d = last l d.
Proof. destruct l; [contradiction | reflexivity]. Qed.

Ltac side_conditions :=
  try eassumption; try lra; try (intros _; split; lra); try discriminate.

Lemma wide_wall_on_a_route step ws we s e pts_cw pts_ccw :
  0 < step ->
  0 <= ws -> ws + step <= we -> we < 360 ->
  0 <= s -> s < 360 -> 0 <= e -> e < 360 ->
  in_sorted_wall ws we s = false ->
  in_sorted_wall ws we e = false ->
  sample_arc_normalized s e (-1) step = Some pts_cw ->
  sample_arc_normalized s e 1 step = Some pts_ccw ->
  existsb (in_sorted_wall ws we) pts_cw
  || existsb (in_sorted_wall ws we) pts_ccw = true.
Proof.
  intros Hs Hws Hwide Hwe Hs0 Hs1 He0 He1 Hsout Heout Hcw Hccw.
  assert (Hsside : s < ws \/ we < s).
  { destruct (Qlt_le_dec s ws) as [H|H]; [left; exact H|].
    destruct (Qlt_le_dec we s) as [H'|H']; [right; exact H'|].
    exfalso. assert (in_sorted_wall ws we s = true)
      by (apply in_sorted_wall_spec; lra). congruence. }
  assert (Heside : e < ws \/ we < e).
  { destruct (Qlt_le_dec e ws) as [H|H]; [left; exact H|].
    destruct (Qlt_le_dec we e) as [H'|H']; [right; exact H'|].
    exfalso. assert (in_sorted_wall ws we e = true)
      by (apply in_sorted_wall_spec; lra). congruence. }
  pose proof (sample_arc_keeps_body s e (-1) step pts_cw
                (in_sorted_wall ws we) Hcw) as Bcw.
  pose proof (sample_arc_keeps_body s e 1 step pts_ccw
                (in_sorted_wall ws we) Hccw) as Bccw.
  cbn [Z.eqb Pos.eqb] in Bcw, Bccw.
  apply orb_true_iff.
  destruct (Qltb s e) eqn:Ese; destruct (Qltb e s) eqn:Ees; bool_to_order;
    try lra.
  - (* s < e *)
    destruct Bccw as [r [Hr Hin]].
    destruct Bcw as [r1 [r2 [Hr1 [Hr2 [Hin1 Hin2]]]]].
    destruct Hsside as [Hsl|Hsh]; destruct Heside as [Hel|Heh].
    + left. apply Hin2.
      refine (descend_hits step e true ws we Hs Hwide _ _ _ 360 r2 _ Hr2);
        side_conditions.
    + right. apply Hin.
      refine (climb_hits step e false ws we Hs Hwide _ _ _ s r _ Hr);
        side_conditions.
    + lra.
    + left. apply Hin1.
      refine (descend_hits step 0 false ws we Hs Hwide _ _ _ s r1 _ Hr1);
        side_conditions.
  - (* e < s *)
    destruct Bcw as [r [Hr Hin]].
    destruct Bccw as [r1 [r2 [Hr1 [Hr2 [Hin1 Hin2]]]]].
    destruct Hsside as [Hsl|Hsh]; destruct Heside as [Hel|Heh].
    + right. apply Hin1.
      refine (climb_hits step 360 true ws we Hs Hwide _ _ _ s r1 _ Hr1);
        side_conditions.
    + lra.
    + left. apply Hin.
      refine (descend_hits step e false ws we Hs Hwide _ _ _ s r _ Hr);
        side_conditions.
    + right. destruct (Qlt_le_dec 0 ws) as [Hpos|Hzero].
      * apply Hin2.
        refine (climb_hits step e false ws we Hs Hwide _ _ _ 0 r2 _ Hr2);
          side_conditions.
      * (* the wall starts at 0, which the first pass ends on *)
        apply Hin1.
        assert (Hw : true = true -> 360 <= 360) by (intros _; lra).
        assert (Hh : s == appended true s)
          by (symmetry; apply appended_below; lra).
        destruct (climb_chain step 360 true Hs Hw _ s r1 s Hs0
                    ltac:(lra) Hh Hr1) as [_ Hl].
        destruct (Hl Hs1) as [Hne Hlast].
        apply (existsb_last (in_sorted_wall ws we) r1 s Hne).
        rewrite <- (last_of_tail s r1 s Hne).
        apply in_sorted_wall_spec. rewrite Hlast.
        unfold appended. rewrite (pymod_360_360 360) by reflexivity. lra.
  - (* s == e *)
    destruct Bcw as [q1 [q2 [Hq1 [Hq2 [Hjn1 Hjn2]]]]].
    destruct Bccw as [r1 [r2 [Hr1 [Hr2 [Hin1 Hin2]]]]].
    destruct Hsside as [Hsl|Hsh].
    + right. apply Hin1.
      refine (climb_hits step 360 true ws we Hs Hwide _ _ _ s r1 _ Hr1);
        side_conditions.
    + left. apply Hjn1.
      refine (descend_hits step 0 false ws we Hs Hwide _ _ _ s q1 _ Hq1);
        side_conditions.
Qed.

Lemma ordered_bounds_range w1 w2 :
  0 <= fst (ordered_bounds (native_to_normalized w1) (native_to_normalized w2))
  /\ snd (ordered_bounds (native_to_normalized w1) (native_to_normalized w2))
     < 360.
Proof.
  destruct (native_to_normalized_range w1) as [A1 A2].
  destruct (native_to_normalized_range w2) as [B1 B2].
  unfold ordered_bounds. destruct (Qleb _ _); simpl; split; assumption.
Qed.

Lemma existsb_point_in_wall ws we pts :
  ws <= we ->
  existsb (fun p => snd (point_in_wall ws we p)) pts
  = existsb (in_sorted_wall ws we) pts.
Proof.
  intro H. induction pts as [|p pts IH]; [reflexivity|].
  cbn [existsb]. rewrite IH, (point_in_wall_sorted ws we p H). reflexivity.
Qed.

(** What [rotation_crosses_wall] answers, in terms of the samples. *)
Lemma rotation_crosses_wall_eq start end_ direction w1 w2 pts :
  sample_arc_normalized (native_to_normalized start)
    (native_to_normalized end_) direction 2 = Some pts ->
  rotation_crosses_wall start end_ direction (Some w1) (Some w2)
  = Some (existsb
            (in_sorted_wall
               (fst (ordered_bounds (native_to_normalized w1)
                       (native_to_normalized w2)))
               (snd (ordered_bounds (native_to_normalized w1)
                       (native_to_normalized w2))))
            pts).
Proof.
  intro Hp.
  destruct (native_to_normalized_range start) as [Hs0 Hs1].
  destruct (native_to_normalized_range end_) as [He0 He1].
  assert (H2 : 0 < 2) by lra.
  destruct (sample_arc_normalized_spacing _ _ _ _ pts H2 Hs0 Hs1 He0 He1 Hp)
    as [_ [Hlen _]].
  unfold rotation_crosses_wall.
  pose proof (ordered_bounds_sorted (native_to_normalized w1)
                (native_to_normalized w2)) as Hsorted.
  destruct (ordered_bounds _ _) as [ws we]. cbn [fst snd] in *.
  rewrite Hp, (any_pair_in_wall_existsb ws we pts Hlen).
  rewrite (existsb_point_in_wall ws we pts Hsorted). reflexivity.
Qed.

(** A wall at least 2 degrees wide is never missed: with both ends of the
    move outside it, at least one of the two routes is found to cross,
    so the planner either reports no route or returns the direction of
    the one route that does not cross. *)
Theorem wide_wall_blocks_a_route a b dev settings w1 w2 :
  virtualwallpreset_enabled (Some settings) = true ->
  virtualwallstart_pan dev = Some w1 ->
  virtualwallend_pan dev = Some w2 ->
  fst (ordered_bounds (native_to_normalized (to_degrees w1))
         (native_to_normalized (to_degrees w2))) + 2
  <= snd (ordered_bounds (native_to_normalized (to_degrees w1))
            (native_to_normalized (to_degrees w2))) ->
  inWall (to_degrees a) (Some (to_degrees w1)) (Some (to_degrees w2)) = false ->
  inWall (to_degrees b) (Some (to_degrees w1)) (Some (to_degrees w2)) = false ->
  exists c1 c2,
    rotation_crosses_wall (to_degrees a) (to_degrees b) (-1)
      (Some (to_degrees w1)) (Some (to_degrees w2)) = Some c1
    /\ rotation_crosses_wall (to_degrees a) (to_degrees b) 1
         (Some (to_degrees w1)) (Some (to_degrees w2)) = Some c2
    /\ c1 || c2 = true
    /\ shortest_rotation a b (Some dev) (Some settings)
       = Some (if c1 && c2 then NoRoute
               else if c1
                    then Route (ccw_rot (norm360 (to_degrees a))
                                  (norm360 (to_degrees b))) 1
                    else Route (cw_rot (norm360 (to_degrees a))
                                  (norm360 (to_degrees b))) (-1)).
Proof.
  intros He H1 H2 Hwide Ha Hb.
  assert (H02 : 0 < 2) by lra.
  destruct (sample_arc_normalized_total (native_to_normalized (to_degrees a))
              (native_to_normalized (to_degrees b)) (-1) 2 H02) as [pcw Hcw].
  destruct (sample_arc_normalized_total (native_to_normalized (to_degrees a))
              (native_to_normalized (to_degrees b)) 1 2 H02) as [pccw Hccw].
  pose proof (rotation_crosses_wall_eq _ _ _ (to_degrees w1) (to_degrees w2)
                _ Hcw) as Ecw.
  pose proof (rotation_crosses_wall_eq _ _ _ (to_degrees w1) (to_degrees w2)
                _ Hccw) as Eccw.
  destruct (ordered_bounds_range (to_degrees w1) (to_degrees w2)) as [Hlo Hhi].
  destruct (native_to_normalized_range (to_degrees a)) as [Ha0 Ha1].
  destruct (native_to_normalized_range (to_degrees b)) as [Hb0 Hb1].
  unfold inWall in Ha, Hb. rewrite inWall_traced_eq in Ha, Hb.
  cbn [snd] in Ha, Hb.
  pose proof (wide_wall_on_a_route 2 _ _ _ _ pcw pccw H02 Hlo Hwide Hhi
                Ha0 Ha1 Hb0 Hb1 Ha Hb Hcw Hccw) as Hone.
  eexists. eexists.
  split; [exact Ecw|]. split; [exact Eccw|]. split; [exact Hone|].
  assert (Ha' : inWall (to_degrees a) (Some (to_degrees w1))
                  (Some (to_degrees w2)) = false).
  { unfold inWall. rewrite inWall_traced_eq. exact Ha. }
  assert (Hb' : inWall (to_degrees b) (Some (to_degrees w1))
                  (Some (to_degrees w2)) = false).
  { unfold inWall. rewrite inWall_traced_eq. exact Hb. }
  rewrite (planner_outside_wall a b dev settings w1 w2 _ _ He H1 H2
             Hb' Ha' Ecw Eccw).
  destruct (existsb _ pcw), (existsb _ pccw); try reflexivity.
  discriminate Hone.
Qed.

(** Wall between 100 and 200, current pan 50, target 250: the
    counter-clockwise route crosses, the clockwise one is returned. *)
Lemma wide_wall_blocks_a_route_witness :
  exists c1 c2,
    rotation_crosses_wall (to_degrees 50) (to_degrees 250) (-1)
      (Some (to_degrees 100)) (Some (to_degrees 200)) = Some c1
    /\ rotation_crosses_wall (to_degrees 50) (to_degrees 250) 1
         (Some (to_degrees 100)) (Some (to_degrees 200)) = Some c2
    /\ c1 || c2 = true
    /\ shortest_rotation 50 250 (Some (Examples.walled_device 100 200))
         (Some (Examples.switches false true false))
       = Some (if c1 && c2 then NoRoute
               else if c1
                    then Route (ccw_rot (norm360 (to_degrees 50))
                                  (norm360 (to_degrees 250))) 1
                    else Route (cw_rot (norm360 (to_degrees 50))
                                  (norm360 (to_degrees 250))) (-1)).
Proof.
  apply (wide_wall_blocks_a_route 50 250 (Examples.walled_device 100 200)
           (Examples.switches false true false) 100 200).
  - reflexivity.
  - reflexivity.
  - reflexivity.
  - vm_compute. discriminate.
  - vm_compute. reflexivity.
  - vm_compute. reflexivity.
Defined.

End ArcSampling.

(** * Where a planned rotation leads *)

Section Headings.
Import Presets.

Lemma same_heading_eq x y : x == y -> same_heading x y.
Proof. intro H. exists 0%Z. change (inject_Z 0) with 0. lra. Qed.

Lemma same_heading_sym x y : same_heading x y -> same_heading y x.
Proof.
  intros [k H]. exists (- k)%Z. rewrite inject_Z_opp. lra.
Qed.

Lemma same_heading_trans x y z :
  same_heading x y -> same_heading y z -> same_heading x z.
Proof.
  intros [k H] [l H']. exists (k + l)%Z. rewrite inject_Z_plus. lra.
Qed.

Lemma same_heading_add x x' y y' :
  same_heading x x' -> same_heading y y' -> same_heading (x + y) (x' + y').
Proof.
  intros [k H] [l H']. exists (k + l)%Z. rewrite inject_Z_plus. lra.
Qed.

Lemma same_heading_opp x y : same_heading x y -> same_heading (- x) (- y).
Proof.
  intros [k H]. exists (- k)%Z. rewrite inject_Z_opp. lra.
Qed.

Lemma same_heading_turn x (k : Z) : same_heading (x + 360 * inject_Z k) x.
Proof. exists k. lra. Qed.

Lemma same_heading_pymod x : same_heading (pymod x 360) x.
Proof.
  exists (- Qfloor (x / 360))%Z. unfold pymod. rewrite inject_Z_opp. ring.
Qed.

Lemma same_heading_fold r :
  same_heading (if Qltb 180 r then r - 360 else r) r.
Proof.
  destruct (Qltb 180 r).
  - exists (-1)%Z. change (inject_Z (-1)) with (-(1)). ring.
  - apply same_heading_eq. reflexivity.
Qed.

Lemma calculate_shortest_rotation_reaches a b :
  exists r d,
    calculate_shortest_rotation a b = Route r d
    /\ same_heading (to_degrees a + r) (to_degrees b)
    /\ (d = 1 \/ d = -1)%Z.
Proof.
  unfold calculate_shortest_rotation.
  eexists. eexists. split; [reflexivity|]. split.
  - destruct (Qltb 180 (to_degrees b - to_degrees a)).
    + exists (-1)%Z. change (inject_Z (-1)) with (-(1)). ring.
    + destruct (Qltb (to_degrees b - to_degrees a) (-(180))).
      * exists 1%Z. change (inject_Z 1) with 1. ring.
      * exists 0%Z. change (inject_Z 0) with 0. ring.
  - destruct (Qleb 0 _); [left|right]; reflexivity.
Qed.

Lemma plan_exit_reaches a_norm b_norm wstart_deg wend_deg :
  same_heading
    (a_norm + (exit_dist (plan_exit a_norm b_norm wstart_deg wend_deg)
               + remaining_dist (plan_exit a_norm b_norm wstart_deg wend_deg)))
    b_norm
  /\ (exit_dir (plan_exit a_norm b_norm wstart_deg wend_deg) = 1
      \/ exit_dir (plan_exit a_norm b_norm wstart_deg wend_deg) = -1)%Z.
Proof.
  unfold plan_exit.
  set (lower := pymin (norm360 wstart_deg) (norm360 wend_deg)).
  set (upper := pymax (norm360 wstart_deg) (norm360 wend_deg)).
  match goal with |- context [if ?c then {| exit_pt := _ |} else _] =>
    destruct c end; cbn [exit_dist remaining_dist exit_dir].
  - split; [|right; reflexivity].
    set (pt := norm360 (lower - 1)).
    apply same_heading_trans
      with (a_norm + (- (a_norm - pt) + (b_norm - pt)));
      [|apply same_heading_eq; ring].
    apply same_heading_add; [apply same_heading_eq; reflexivity|].
    apply same_heading_add.
    + apply same_heading_opp.
      eapply same_heading_trans;
        [apply same_heading_fold|apply same_heading_pymod].
    + destruct (Qleb b_norm pt).
      * apply same_heading_eq. ring.
      * exists (-1)%Z. change (inject_Z (-1)) with (-(1)). ring.
  - split; [|left; reflexivity].
    set (pt := norm360 (upper + 1)).
    apply same_heading_trans
      with (a_norm + ((pt - a_norm) + (b_norm - pt)));
      [|apply same_heading_eq; ring].
    apply same_heading_add; [apply same_heading_eq; reflexivity|].
    apply same_heading_add.
    + eapply same_heading_trans;
        [apply same_heading_fold|apply same_heading_pymod].
    + destruct (Qleb pt b_norm).
      * apply same_heading_eq. ring.
      * exists 1%Z. change (inject_Z 1) with 1. ring.
Qed.

Lemma norm_route_reaches a_deg b_deg r :
  same_heading (norm360 a_deg + r) (norm360 b_deg) ->
  same_heading (a_deg + r) b_deg.
Proof.
  intro H.
  apply same_heading_trans with (norm360 a_deg + r).
  - apply same_heading_add; [|apply same_heading_eq; reflexivity].
    apply same_heading_sym, same_heading_pymod.
  - eapply same_heading_trans; [exact H|apply same_heading_pymod].
Qed.

Lemma shortest_rotation_answer a b apcr settings :
  exists plan,
    shortest_rotation a b apcr settings = Some plan
    /\ match plan with
       | NoRoute => True
       | Route r d =>
           same_heading (to_degrees a + r) (to_degrees b)
           /\ (d = 1 \/ d = -1)%Z
       end.
Proof.
  destruct (calculate_shortest_rotation_reaches a b)
    as [r0 [d0 [E0 [Hh0 Hd0]]]].
  assert (Plain : exists plan,
             Some (calculate_shortest_rotation a b) = Some plan
             /\ match plan with
                | NoRoute => True
                | Route r d =>
                    same_heading (to_degrees a + r) (to_degrees b)
                    /\ (d = 1 \/ d = -1)%Z
                end).
  { eexists. split; [reflexivity|]. rewrite E0. split; assumption. }
  pose proof (proj1 (ccw_rot_reaches (norm360 (to_degrees a))
                       (norm360 (to_degrees b)))) as Hccw.
  pose proof (proj1 (cw_rot_reaches (norm360 (to_degrees a))
                       (norm360 (to_degrees b)))) as Hcw.
  fold (same_heading (norm360 (to_degrees a)
                      + ccw_rot (norm360 (to_degrees a))
                          (norm360 (to_degrees b)))
          (norm360 (to_degrees b))) in Hccw.
  fold (same_heading (norm360 (to_degrees a)
                      + cw_rot (norm360 (to_degrees a))
                          (norm360 (to_degrees b)))
          (norm360 (to_degrees b))) in Hcw.
  apply norm_route_reaches in Hccw. apply norm_route_reaches in Hcw.
  unfold shortest_rotation.
  destruct (negb (virtualwallpreset_enabled settings)); [exact Plain|].
  destruct (pan_bounds apcr) as [[ws|] [we|]]; try exact Plain.
  destruct (inWall (to_degrees b) _ _).
  { eexists. split; [reflexivity|]. exact I. }
  destruct (inWall (to_degrees a) _ _).
  { eexists. split; [reflexivity|].
    destruct (plan_exit_reaches (norm360 (to_degrees a))
                (norm360 (to_degrees b)) (to_degrees ws) (to_degrees we))
      as [Hh Hd].
    split; [|exact Hd]. apply norm_route_reaches. exact Hh. }
  destruct (rotation_crosses_wall_total (to_degrees a) (to_degrees b) (-1)
              (Some (to_degrees ws)) (Some (to_degrees we))) as [c1 H1].
  destruct (rotation_crosses_wall_total (to_degrees a) (to_degrees b) 1
              (Some (to_degrees ws)) (Some (to_degrees we))) as [c2 H2].
  rewrite H1, H2.
  destruct c1, c2; cbn [andb]; eexists; (split; [reflexivity|]).
  - exact I.
  - split; [exact Hccw|left; reflexivity].
  - split; [exact Hcw|right; reflexivity].
  - split.
    + destruct (Qleb _ _); assumption.
    + destruct (Qeqb _ _); [right|left]; reflexivity.
Qed.

Lemma pyabs_spec x : (0 <= x /\ pyabs x == x) \/ (x < 0 /\ pyabs x == - x).
Proof.
  unfold pyabs. destruct (Qltb x 0) eqn:E; bool_to_order.
  - right. split; [assumption|reflexivity].
  - left. split; [assumption|reflexivity].
Qed.

Lemma inject_Z_ge_1 (m : Z) : (1 <= m)%Z -> 1 <= inject_Z m.
Proof. intro H. change 1 with (inject_Z 1). rewrite <- Zle_Qle. exact H. Qed.

Lemma inject_Z_le_m1 (m : Z) : (m <= -1)%Z -> inject_Z m <= -(1).
Proof.
  intro H. change (-(1)) with (inject_Z (-1)). rewrite <- Zle_Qle. exact H.
Qed.

(** Among the rotations that differ by whole turns, one of magnitude at
    most 180 is the shortest. *)
Lemma folded_rotation_minimal r r' :
  -(180) <= r -> r <= 180 -> same_heading r' r -> pyabs r <= pyabs r'.
Proof.
  intros Hlo Hhi [m Hm].
  destruct (pyabs_spec r) as [[Hr Er]|[Hr Er]];
    destruct (pyabs_spec r') as [[Hr' Er']|[Hr' Er']];
    rewrite Er, Er';
    (destruct (Z_lt_le_dec m 1) as [Hm1|Hm1];
     [destruct (Z_lt_le_dec m 0) as [Hm0|Hm0];
      [assert (Hq : inject_Z m <= -(1)) by (apply inject_Z_le_m1; lia)
      |assert (Hz : m = 0%Z) by lia; subst m;
       change (inject_Z 0) with 0 in Hm]
     |assert (Hq : 1 <= inject_Z m) by (apply inject_Z_ge_1; lia)]);
    lra.
Qed.

(** Without a wall the planner folds the difference of the two pans once.
    When they are less than one and a half turns apart, which every pair
    of headings in [[0, 360)] is, the result leads to the target, has
    magnitude at most 180, is no longer than any other rotation that
    leads there, and carries direction [1] exactly when it is not
    negative. *)
Theorem plain_rotation_is_shortest a b :
  -(540) <= to_degrees b - to_degrees a ->
  to_degrees b - to_degrees a <= 540 ->
  exists r d,
    calculate_shortest_rotation a b = Route r d
    /\ same_heading (to_degrees a + r) (to_degrees b)
    /\ -(180) <= r /\ r <= 180
    /\ ((d = 1%Z /\ 0 <= r) \/ (d = (-1)%Z /\ r < 0))
    /\ forall r', same_heading (to_degrees a + r') (to_degrees b) ->
                  pyabs r <= pyabs r'.
Proof.
  intros Hlo Hhi.
  destruct (calculate_shortest_rotation_reaches a b) as [r [d [E [Hh _]]]].
  exists r, d. split; [exact E|]. split; [exact Hh|].
  unfold calculate_shortest_rotation in E. injection E as Er Ed.
  assert (Hr : -(180) <= r /\ r <= 180).
  { rewrite <- Er.
    destruct (Qltb 180 (to_degrees b - to_degrees a)) eqn:E1;
      [|destruct (Qltb (to_degrees b - to_degrees a) (-(180))) eqn:E2];
      bool_to_order; split; lra. }
  destruct Hr as [Hr1 Hr2].
  split; [exact Hr1|]. split; [exact Hr2|]. split.
  - rewrite <- Ed, Er.
    destruct (Qleb 0 r) eqn:E0; bool_to_order;
      [left|right]; split; auto.
  - intros r' Hr'. apply folded_rotation_minimal; try assumption.
    destruct Hh as [k Hk]. destruct Hr' as [k' Hk'].
    exists (k' - k)%Z. unfold Zminus.
    rewrite inject_Z_plus, inject_Z_opp. lra.
Qed.

(** From pan 350 to pan 10: 20 degrees in direction 1. *)
Lemma plain_rotation_is_shortest_witness :
  exists r d,
    calculate_shortest_rotation 350 10 = Route r d
    /\ same_heading (to_degrees 350 + r) (to_degrees 10)
    /\ -(180) <= r /\ r <= 180
    /\ ((d = 1%Z /\ 0 <= r) \/ (d = (-1)%Z /\ r < 0))
    /\ forall r', same_heading (to_degrees 350 + r') (to_degrees 10) ->
                  pyabs r <= pyabs r'.
Proof.
  apply (plain_rotation_is_shortest 350 10).
  - vm_compute. discriminate.
  - vm_compute. discriminate.
Defined.

Lemma to_degrees_small y : pyabs y <= 359 -> to_degrees y = y.
Proof.
  intro H. unfold to_degrees.
  destruct (Qltb 359 (pyabs y)) eqn:E; bool_to_order; [lra|reflexivity].
Qed.

Lemma native_to_normalized_small y :
  0 <= y -> y <= 359 -> native_to_normalized y == y.
Proof.
  intros H0 H1. unfold native_to_normalized.
  rewrite to_degrees_small.
  - apply pymod_small; lra.
  - destruct (pyabs_spec y) as [[_ E]|[Hn _]]; [rewrite E; exact H1|lra].
Qed.

(** A recall that starts inside the wall: with the bounds in ascending
    order between 0 and 359 and less than 358 degrees apart, a start
    inside and a target outside, the planner returns a route in one
    direction only, its rotation has the sign of that direction, is not
    zero, and leads to the target up to whole turns. *)
Theorem exit_route_has_one_direction a b dev settings w1 w2 :
  virtualwallpreset_enabled (Some settings) = true ->
  virtualwallstart_pan dev = Some w1 ->
  virtualwallend_pan dev = Some w2 ->
  0 <= to_degrees w1 -> to_degrees w1 <= to_degrees w2 ->
  to_degrees w2 <= 359 -> to_degrees w2 - to_degrees w1 < 358 ->
  pyabs (to_degrees a) <= 359 ->
  inWall (to_degrees a) (Some (to_degrees w1)) (Some (to_degrees w2)) = true ->
  inWall (to_degrees b) (Some (to_degrees w1)) (Some (to_degrees w2)) = false ->
  exists r d,
    shortest_rotation a b (Some dev) (Some settings) = Some (Route r d)
    /\ ((d = 1%Z /\ 0 < r) \/ (d = (-1)%Z /\ r < 0))
    /\ same_heading (to_degrees a + r) (to_degrees b).
Proof.
  intros He H1 H2 Hw0 Hw12 Hw359 Hwidth Hsmall Ha Hb.
  assert (Hn1 : native_to_normalized (to_degrees w1) == to_degrees w1)
    by (apply native_to_normalized_small; lra).
  assert (Hn2 : native_to_normalized (to_degrees w2) == to_degrees w2)
    by (apply native_to_normalized_small; lra).
  assert (Hna : native_to_normalized (to_degrees a)
                = norm360 (to_degrees a)).
  { unfold native_to_normalized, norm360.
    rewrite (to_degrees_small _ Hsmall). reflexivity. }
  pose proof (proj1 (inWall_interval _ _ _) Ha) as [Hlo Hhi].
  rewrite Hna in Hlo, Hhi.
  assert (Hlo' : to_degrees w1 <= norm360 (to_degrees a)).
  { destruct (Q.min_spec (native_to_normalized (to_degrees w1))
                (native_to_normalized (to_degrees w2))) as [[_ E]|[_ E]];
      rewrite E in Hlo; lra. }
  assert (Hhi' : norm360 (to_degrees a) <= to_degrees w2).
  { destruct (Q.max_spec (native_to_normalized (to_degrees w1))
                (native_to_normalized (to_degrees w2))) as [[_ E]|[_ E]];
      rewrite E in Hhi; lra. }
  destruct (pymod_range (to_degrees b) 360) as [Hb0 Hb1]; [lra|].
  fold (norm360 (to_degrees b)) in Hb0, Hb1.
  assert (Hw360 : to_degrees w2 < 360) by lra.
  pose proof (plan_exit_keeps_direction (norm360 (to_degrees a))
                (norm360 (to_degrees b)) (to_degrees w1) (to_degrees w2)
                Hw0 Hw12 Hw360 Hwidth Hlo' Hhi' Hb0 Hb1) as Hdir.
  destruct (plan_exit_reaches (norm360 (to_degrees a))
              (norm360 (to_degrees b)) (to_degrees w1) (to_degrees w2))
    as [Hreach _].
  eexists. eexists. split.
  - unfold shortest_rotation, pan_bounds.
    rewrite He, H1, H2. cbn [negb]. rewrite Hb, Ha. reflexivity.
  - split.
    + destruct Hdir as [[Hd [Hx Hr]]|[Hd [Hx Hr]]]; [left|right];
        (split; [exact Hd|lra]).
    + apply norm_route_reaches. exact Hreach.
Qed.

(** Wall between 100 and 200, start at 150, target at 250. *)
Lemma exit_route_has_one_direction_witness :
  exists r d,
    shortest_rotation 150 250 (Some (Examples.walled_device 100 200))
      (Some (Examples.switches false true false)) = Some (Route r d)
    /\ ((d = 1%Z /\ 0 < r) \/ (d = (-1)%Z /\ r < 0))
    /\ same_heading (to_degrees 150 + r) (to_degrees 250).
Proof.
  apply (exit_route_has_one_direction 150 250
           (Examples.walled_device 100 200)
           (Examples.switches false true false) 100 200).
  - reflexivity.
  - reflexivity.
  - reflexivity.
  - vm_compute. discriminate.
  - vm_compute. discriminate.
  - vm_compute. discriminate.
  - vm_compute. reflexivity.
  - vm_compute. discriminate.
  - vm_compute. reflexivity.
  - vm_compute. reflexivity.
Defined.

(** The planner always answers, and whenever it answers with a route, the
    rotation added to the current pan gives the target pan up to whole
    turns, and the direction is [1] or [-1]: through the plain shortest
    rotation, through the exit of the wall, and around the wall alike. *)
Theorem planned_rotation_reaches_target a b apcr settings :
  exists plan,
    shortest_rotation a b apcr settings = Some plan
    /\ (plan = NoRoute
        \/ exists r d,
             plan = Route r d
             /\ same_heading (to_degrees a + r) (to_degrees b)
             /\ (d = 1 \/ d = -1)%Z).
Proof.
  destruct (shortest_rotation_answer a b apcr settings) as [plan [E H]].
  exists plan. split; [exact E|].
  destruct plan as [|r d]; [left; reflexivity|].
  right. exists r, d. split; [reflexivity|exact H].
Qed.

Lemma filter_motion_requests c :
  filter is_motion (Sleep (2 # 10) :: position_requests c) = [].
Proof. reflexivity. Qed.

(** A recall up to its call of [do_move_segment].  The planner answers,
    so every recall gets as far as a return or that call.  A recall for
    another camera, or one that finds a recall in progress, returns with
    nothing changed.  Any other one resets the wall tracker and then
    either returns, the flag cleared and no move segment started, or
    calls [do_move_segment] once, with the flag set and the request
    frequency at 20 per second.  As long as that call runs the flag
    stays set and every further recall is refused; the flag is cleared
    and the frequency restored only once the call has returned. *)
Theorem recall_holds_the_flag_through_the_segment
    cam apcr settings preset_data cpos s :
  exists stage,
    recall_until_segment cam apcr settings preset_data cpos s = Some stage
    /\ match stage with
       | Returned s' =>
           recall_active s' = recall_active s
           /\ (exists extra,
                 events s' = events s ++ extra
                 /\ filter is_motion extra = [])
           /\ (if (camid apcr =? cam)%Z && negb (recall_active s)
               then tracker s' = Controls.initial_tracker_store
               else s' = s)
       | InSegment s' original_freq =>
           (camid apcr =? cam)%Z = true
           /\ recall_active s = false
           /\ recall_active s' = true
           /\ tracker s' = Controls.initial_tracker_store
           /\ request_frequency s' = Some (5 # 100)
           /\ original_freq = get_default (request_frequency s) (12 # 10)
           /\ (exists before segment,
                 events s' = events s ++ before ++ [segment]
                 /\ filter is_motion before = []
                 /\ is_motion segment = true)
           /\ (forall cam' apcr' settings' preset_data' cpos',
                 recall_until_segment cam' apcr' settings' preset_data'
                   cpos' s' = Some (Returned s'))
           /\ recall_active (after_segment original_freq s') = false
           /\ request_frequency (after_segment original_freq s')
              = Some original_freq
       end.
Proof.
  unfold recall_until_segment.
  destruct (camid apcr =? cam)%Z eqn:Hcam; cbn [negb andb].
  2:{ eexists. split; [reflexivity|]. cbn beta iota.
      split; [reflexivity|]. split; [|reflexivity].
      exists []. rewrite app_nil_r. split; reflexivity. }
  destruct (recall_active s) eqn:Hact; cbn [negb].
  { eexists. split; [reflexivity|]. cbn beta iota.
    split; [exact Hact|]. split; [|reflexivity].
    exists []. rewrite app_nil_r. split; reflexivity. }
  destruct preset_data as [tg|].
  2:{ eexists. split; [reflexivity|]. cbn.
      split; [reflexivity|]. split; [|reflexivity].
      exists []. rewrite app_nil_r. split; reflexivity. }
  destruct (global_settings settings) as [gs|].
  2:{ eexists. split; [reflexivity|]. cbn.
      split; [reflexivity|]. split; [|reflexivity].
      exists []. rewrite app_nil_r. split; reflexivity. }
  match goal with |- context [if ?c then Some _ else _] => destruct c end.
  { eexists. split; [reflexivity|]. cbn.
    split; [reflexivity|]. split; [|reflexivity].
    exists []. rewrite app_nil_r. split; reflexivity. }
  destruct (Controls.bytes_fromhex (position_request_hex (camid apcr))).
  2:{ eexists. split; [reflexivity|]. cbn.
      split; [reflexivity|]. split; [|reflexivity].
      exists [Sleep (2 # 10)]. split; reflexivity. }
  destruct cpos as [p|].
  2:{ eexists. split; [reflexivity|]. cbn.
      split; [reflexivity|]. split; [|reflexivity].
      exists (Sleep (2 # 10) :: position_requests (camid apcr)).
      split; reflexivity. }
  cbn [localPan set_active set_frequency emit reset_tracker].
  destruct (shortest_rotation_total (localPan s) (pan tg) (Some apcr)
              (Some settings)) as [plan Hplan].
  rewrite Hplan. destruct plan as [|r d].
  - eexists. split; [reflexivity|]. cbn.
    split; [reflexivity|]. split; [|reflexivity].
    exists (Sleep (2 # 10) :: position_requests (camid apcr)).
    split; reflexivity.
  - eexists. split; [reflexivity|].
    cbn [recall_active events tracker request_frequency set_active
         set_frequency emit after_segment].
    split; [reflexivity|]. split; [reflexivity|]. split; [reflexivity|].
    split; [reflexivity|]. split; [reflexivity|]. split; [reflexivity|].
    split.
    { exists (Sleep (2 # 10) :: position_requests (camid apcr)).
      eexists. split; [rewrite app_assoc; reflexivity|].
      split; reflexivity. }
    split; [|split; reflexivity].
    intros cam' apcr' settings' preset_data' cpos'.
    destruct (negb (camid apcr' =? cam')%Z); reflexivity.
Qed.

(** With the tracked pan within 359 degrees of zero, every move segment a
    recall starts begins at the tracked pan and aims at the heading of the
    preset's pan, with the preset's tilt, roll and zoom as targets. *)
Theorem recall_aims_at_the_preset cam apcr settings tg cpos s :
  pyabs (localPan s) <= 359 ->
  exists s' extra,
    recall_preset cam apcr settings (Some tg) cpos s = Some s'
    /\ events s' = events s ++ extra
    /\ Forall (aims_at s tg) extra.
Proof.
  intro Hsmall.
  assert (Hreq : forall c,
             Forall (aims_at s tg)
               (Sleep (2 # 10) :: position_requests c)).
  { intro c. repeat constructor. }
  unfold recall_preset, recall_until_segment.
  destruct (negb (camid apcr =? cam)%Z).
  { exists s, []. rewrite app_nil_r. repeat split. constructor. }
  destruct (recall_active s) eqn:Hact.
  { exists s, []. rewrite app_nil_r. repeat split. constructor. }
  destruct (global_settings settings) as [gs|].
  2:{ eexists. exists []. cbn. rewrite app_nil_r. repeat split.
      constructor. }
  match goal with |- context [if ?c then Some _ else _] => destruct c end.
  { eexists. exists []. cbn. rewrite app_nil_r. repeat split. constructor. }
  destruct (Controls.bytes_fromhex (position_request_hex (camid apcr))).
  2:{ eexists. exists [Sleep (2 # 10)].
      split; [reflexivity|]. split; [reflexivity|]. repeat constructor. }
  destruct cpos as [p|].
  2:{ eexists. exists (Sleep (2 # 10) :: position_requests (camid apcr)).
      split; [reflexivity|]. split; [reflexivity|]. apply Hreq. }
  cbn [localPan set_active set_frequency emit reset_tracker].
  destruct (shortest_rotation_answer (localPan s) (pan tg) (Some apcr)
              (Some settings)) as [plan [Hplan Hroute]].
  rewrite Hplan. destruct plan as [|r d].
  - eexists. exists (Sleep (2 # 10) :: position_requests (camid apcr)).
    split; [reflexivity|]. split; [reflexivity|]. apply Hreq.
  - eexists. eexists. split; [reflexivity|].
    cbn [events set_active set_frequency emit after_segment].
    split; [rewrite <- app_assoc; reflexivity|].
    apply Forall_app. split; [apply Hreq|].
    constructor; [|constructor].
    destruct Hroute as [Hh Hd].
    rewrite (to_degrees_small _ Hsmall) in Hh.
    cbn. repeat split; try reflexivity; assumption.
Qed.

(** A recall of a preset at pan 250 from pan 50, around the wall between
    100 and 200. *)
Lemma recall_aims_at_the_preset_witness :
  exists s' extra,
    recall_preset 1 (Examples.walled_device 100 200)
      (Examples.switches false true false) (Some (Examples.preset_at 250))
      (Some {| Controls.pos_pan := 500; Controls.pos_tilt := 0;
               Controls.pos_roll := 0; Controls.pos_zoom := 1 |})
      Examples.resting_at_50 = Some s'
    /\ events s' = events Examples.resting_at_50 ++ extra
    /\ Forall (aims_at Examples.resting_at_50 (Examples.preset_at 250)) extra.
Proof.
  apply (recall_aims_at_the_preset 1 (Examples.walled_device 100 200)
           (Examples.switches false true false) (Examples.preset_at 250)).
  vm_compute. discriminate.
Defined.

End Headings.

(** * The wall guard: what it admits, when it fails, where it sends back *)

Section GuardSafety.
Import Controls.

Lemma trk_get_set ts axis v : trk_get (trk_set ts axis v) axis = v.
Proof. destruct axis; reflexivity. Qed.

Lemma trk_set_set ts axis v v' :
  trk_set (trk_set ts axis v) axis v' = trk_set ts axis v'.
Proof. destruct axis; reflexivity. Qed.

(** With a dictionary in the slot the guard returns. *)
Lemma guard_returns_on_set_slot axis current delta dev active_ margin ts t :
  trk_get ts axis = Some t ->
  exists r, update_virtual_wall_state axis current delta dev active_ margin ts
            = Ok r.
Proof.
  intro Ht. unfold update_virtual_wall_state.
  destruct (negb active_); [eexists; reflexivity|].
  destruct (wall_bounds dev axis) as [[ws|] [we|]];
    try (eexists; reflexivity).
  rewrite Ht.
  destruct (negb (pos_in_wall ws we margin current)
            && negb (pos_in_wall ws we margin (current + delta)));
    [eexists; reflexivity|].
  destruct (negb (pos_in_wall ws we margin current)
            && pos_in_wall ws we margin (current + delta));
    [eexists; reflexivity|].
  match goal with |- context [if ?c then Ok _ else _] => destruct c end;
    eexists; reflexivity.
Qed.

(** Whenever the guard returns, it leaves a dictionary in the slot. *)
Lemma guard_leaves_slot_set axis current delta dev active_ margin ts v ts' :
  update_virtual_wall_state axis current delta dev active_ margin ts
  = Ok (v, ts') ->
  exists t, trk_get ts' axis = Some t.
Proof.
  unfold update_virtual_wall_state.
  destruct (negb active_).
  { intro H. injection H as _ <-. rewrite trk_get_set. eauto. }
  destruct (wall_bounds dev axis) as [[ws|] [we|]];
    try (intro H; injection H as _ <-; rewrite trk_get_set; eauto).
  destruct (negb (pos_in_wall ws we margin current)
            && negb (pos_in_wall ws we margin (current + delta))).
  { intro H. injection H as _ <-. rewrite trk_get_set. eauto. }
  destruct (negb (pos_in_wall ws we margin current)
            && pos_in_wall ws we margin (current + delta)).
  { destruct (trk_get ts axis); [|discriminate].
    intro H. injection H as _ <-. rewrite trk_get_set. eauto. }
  destruct (trk_get ts axis) as [t|]; [|discriminate].
  match goal with |- context [if ?c then Ok _ else _] => destruct c end;
    intro H; injection H as _ <-; rewrite trk_get_set; eauto.
Qed.

(** The guard fails in one situation only: the wall is active, both
    bounds are configured, the current or the expected position lies in
    the wall, and the slot of the axis holds [None]; the failure is then a
    [TypeError]. *)
Theorem guard_raises_exactly_on_unset_slot
    axis current delta dev active_ margin ts e :
  update_virtual_wall_state axis current delta dev active_ margin ts
  = Raised e
  <-> (e = TypeError
       /\ active_ = true
       /\ trk_get ts axis = None
       /\ exists ws we,
            wall_bounds dev axis = (Some ws, Some we)
            /\ pos_in_wall ws we margin current
               || pos_in_wall ws we margin (current + delta) = true).
Proof.
  unfold update_virtual_wall_state. split.
  - destruct active_; cbn [negb]; [|discriminate].
    destruct (wall_bounds dev axis) as [[ws|] [we|]]; try discriminate.
    destruct (pos_in_wall ws we margin current) eqn:Hc;
      destruct (pos_in_wall ws we margin (current + delta)) eqn:Hx;
      cbn [negb andb]; try discriminate;
      (destruct (trk_get ts axis) as [t|];
       [try discriminate;
        match goal with |- context [if ?c then Ok _ else _] => destruct c end;
        discriminate
       |intro H; injection H as <-;
        repeat split; exists ws, we; split; try reflexivity;
        rewrite ?Hc, ?Hx; reflexivity]).
  - intros [-> [-> [Ht [ws [we [Hb Hin]]]]]]. cbn [negb].
    rewrite Hb, Ht.
    destruct (pos_in_wall ws we margin current);
      destruct (pos_in_wall ws we margin (current + delta));
      cbn [negb andb] in *; try reflexivity; discriminate.
Qed.

(** Once the guard has returned for an axis, no later call for that axis
    fails, whatever its arguments. *)
Theorem guard_returns_after_returning
    axis current delta dev active_ margin ts v ts'
    current' delta' dev' active' margin' :
  update_virtual_wall_state axis current delta dev active_ margin ts
  = Ok (v, ts') ->
  exists r,
    update_virtual_wall_state axis current' delta' dev' active' margin' ts'
    = Ok r.
Proof.
  intro H.
  destruct (guard_leaves_slot_set _ _ _ _ _ _ _ _ _ H) as [t Ht].
  eapply guard_returns_on_set_slot. exact Ht.
Qed.

(** A first call outside the wall at start-up, then the call that fails
    at start-up. *)
Lemma guard_returns_after_returning_witness :
  exists r,
    update_virtual_wall_state WPan 150 5 (Examples.walled_device 100 200)
      true 0
      (trk_set initial_tracker_store WPan (Some empty_tracker))
    = Ok r.
Proof.
  apply (guard_returns_after_returning WPan 50 5
           (Examples.walled_device 100 200) true 0 initial_tracker_store
           allow (trk_set initial_tracker_store WPan (Some empty_tracker))).
  vm_compute. reflexivity.
Defined.

(** The guard never admits a command that ends in the wall from outside
    it: a command it does not block and whose expected position lies in
    the wall starts in the wall and runs against the recorded entry
    direction. *)
Theorem guard_never_admits_entry
    axis current delta dev margin ts v ts' ws we :
  wall_bounds dev axis = (Some ws, Some we) ->
  update_virtual_wall_state axis current delta dev true margin ts
  = Ok (v, ts') ->
  block v = false ->
  pos_in_wall ws we margin (current + delta) = true ->
  pos_in_wall ws we margin current = true
  /\ exists t e,
       trk_get ts' axis = Some t
       /\ entry_direction t = Some e
       /\ cmd_sign delta = (- e)%Z.
Proof.
  intros Hb H Hv Hx. unfold update_virtual_wall_state in H.
  cbn [negb] in H. rewrite Hb, Hx in H.
  destruct (pos_in_wall ws we margin current) eqn:Hc; cbn [negb andb] in H.
  - split; [reflexivity|].
    destruct (trk_get ts axis) as [t|]; [|discriminate].
    match type of H with context [if ?c then Ok _ else _] =>
      destruct c eqn:Hdir end;
      injection H as <- <-; [|discriminate Hv].
    rewrite trk_get_set.
    destruct (entry_direction t) as [e0|] eqn:He.
    + exists t, e0. rewrite He in Hdir. cbn [get_default] in Hdir.
      repeat split; [exact He|]. apply Z.eqb_eq. exact Hdir.
    + eexists. exists (entry_sign delta). cbn [entry_direction get_default] in *.
      repeat split. apply Z.eqb_eq. exact Hdir.
  - destruct (trk_get ts axis) as [t|]; [|discriminate].
    injection H as <- <-. discriminate Hv.
Qed.

(** Inside the wall between 100 and 200 after an entry in the positive
    direction: a command of -5 from 150 is admitted. *)
Lemma guard_never_admits_entry_witness :
  pos_in_wall 100 200 0 150 = true
  /\ exists t e,
       trk_get (trk_set initial_tracker_store WPan
                  (Some {| entry_direction := Some 1%Z;
                           entry_position := Some 99 |})) WPan = Some t
       /\ entry_direction t = Some e
       /\ cmd_sign (-(5)) = (- e)%Z.
Proof.
  apply (guard_never_admits_entry WPan 150 (-(5))
           (Examples.walled_device 100 200) 0
           (trk_set initial_tracker_store WPan
              (Some {| entry_direction := Some 1%Z;
                       entry_position := Some 99 |}))
           allow _ 100 200).
  - reflexivity.
  - vm_compute. reflexivity.
  - reflexivity.
  - vm_compute. reflexivity.
Defined.

Lemma use_absolute_false ws we :
  0 <= ws -> ws < 360 -> 0 <= we -> we < 360 -> use_absolute ws we = false.
Proof.
  intros. unfold use_absolute.
  destruct (Qltb ws 0) eqn:E1; bool_to_order; [lra|].
  destruct (Qleb 360 ws) eqn:E2; bool_to_order; [lra|].
  destruct (Qltb we 0) eqn:E3; bool_to_order; [lra|].
  destruct (Qleb 360 we) eqn:E4; bool_to_order; [lra|].
  reflexivity.
Qed.

(** Between ascending bounds in [[0, 360)] the containment test is the
    closed-interval test on the position as it is. *)
Lemma pos_in_wall_ascending ws we margin pos :
  0 <= ws -> ws <= we -> we < 360 ->
  pos_in_wall ws we margin pos = true <-> ws <= pos /\ pos <= we.
Proof.
  intros H0 H1 H2. unfold pos_in_wall.
  rewrite use_absolute_false by lra.
  unfold inWall.
  assert (Hn1 : norm360 ws == ws) by (apply pymod_small; lra).
  assert (Hn2 : norm360 we == we) by (apply pymod_small; lra).
  assert (Hlo : pymin (norm360 ws) (norm360 we) == ws).
  { unfold pymin. destruct (Qltb _ _) eqn:E; bool_to_order; lra. }
  assert (Hhi : pymax (norm360 ws) (norm360 we) == we).
  { unfold pymax. destruct (Qltb _ _) eqn:E; bool_to_order; lra. }
  rewrite andb_true_iff, !Qleb_spec, Hlo, Hhi. reflexivity.
Qed.

Lemma correction_of_exact target current d :
  -(180) <= d -> d < 180 ->
  Presets.same_heading (target - current) d ->
  correction_of target current == d.
Proof.
  intros Hlo Hhi [k Hk]. unfold correction_of.
  assert (E : pymod (target - current + 540) 360 == d + 180).
  { apply (pymod_unique _ _ _ (k + 1)); try lra.
    rewrite inject_Z_plus. change (inject_Z 1) with 1. lra. }
  rewrite E. ring.
Qed.

Lemma trk_set_same ts axis t :
  trk_get ts axis = Some t -> trk_set ts axis (Some t) = ts.
Proof. intro H. destruct axis, ts; cbn in *; rewrite H; reflexivity. Qed.

(** Inside the wall with an entry direction on record the tracker is left
    as it is, and the command is admitted exactly when it runs against
    the entry direction. *)
Lemma guard_inside_with_entry axis current delta dev margin ts t e ws we :
  wall_bounds dev axis = (Some ws, Some we) ->
  trk_get ts axis = Some t ->
  entry_direction t = Some e ->
  pos_in_wall ws we margin current = true ->
  update_virtual_wall_state axis current delta dev true margin ts
  = Ok (if (cmd_sign delta =? - e)%Z then allow
        else {| block := true; trigger_correction := true;
                correction_delta :=
                  correction_of (allowed_exit_target ws we e) current |},
        ts).
Proof.
  intros Hb Ht He Hin. unfold update_virtual_wall_state. cbn [negb].
  rewrite Hb, Ht, Hin. cbn [negb andb]. rewrite He. cbn [get_default].
  rewrite (trk_set_same ts axis t Ht). rewrite ?He. cbn [get_default].
  destruct (cmd_sign delta =? - e)%Z; reflexivity.
Qed.

(** The correction sends the axis back the way it came in.  In a wall
    between ascending bounds in [[0, 360)] less than 179 degrees apart,
    with an entry direction [1] or [-1] on record, a command that does not
    run against the entry direction is blocked, and the correction leads
    from the current position to one degree beyond the bound the axis
    entered through: a position outside the wall, reached by turning
    against the entry direction. *)
Theorem guard_correction_leaves_the_wall
    axis current delta dev margin ts t e ws we :
  wall_bounds dev axis = (Some ws, Some we) ->
  0 <= ws -> ws <= we -> we < 360 -> we - ws < 179 ->
  trk_get ts axis = Some t ->
  entry_direction t = Some e ->
  (e = 1 \/ e = -1)%Z ->
  pos_in_wall ws we margin current = true ->
  cmd_sign delta <> (- e)%Z ->
  exists v,
    update_virtual_wall_state axis current delta dev true margin ts
    = Ok (v, ts)
    /\ block v = true /\ trigger_correction v = true
    /\ current + correction_delta v
       == (if (0 <? e)%Z then ws - 1 else we + 1)
    /\ (if (0 <? e)%Z then correction_delta v < 0
        else 0 < correction_delta v)
    /\ pos_in_wall ws we margin (current + correction_delta v) = false.
Proof.
  intros Hb H0 H1 H2 Hw Ht He Hsign Hin Hcmd.
  pose proof (guard_inside_with_entry axis current delta dev margin ts t e
                ws we Hb Ht He Hin) as Hg.
  assert (Hneq : (cmd_sign delta =? - e)%Z = false)
    by (apply Z.eqb_neq; exact Hcmd).
  rewrite Hneq in Hg.
  eexists. split; [exact Hg|]. cbn [block trigger_correction correction_delta].
  split; [reflexivity|]. split; [reflexivity|].
  apply (pos_in_wall_ascending ws we margin current H0 H1 H2) in Hin.
  destruct Hin as [Hc1 Hc2].
  unfold allowed_exit_target. rewrite use_absolute_false by lra.
  assert (Hn1 : norm360 ws == ws) by (apply pymod_small; lra).
  assert (Hn2 : norm360 we == we) by (apply pymod_small; lra).
  destruct Hsign as [-> | ->]; cbn [Z.ltb Z.compare].
  - assert (E : correction_of (pymod (norm360 ws - 1) 360) current
                == ws - 1 - current).
    { apply correction_of_exact; try lra.
      apply same_heading_add; [|apply same_heading_eq; reflexivity].
      eapply same_heading_trans; [apply same_heading_pymod|].
      apply same_heading_eq. lra. }
    split; [rewrite E; ring|]. split; [rewrite E; lra|].
    destruct (pos_in_wall ws we margin
                (current + correction_of (pymod (norm360 ws - 1) 360) current))
      eqn:Hp; [|reflexivity].
    apply (pos_in_wall_ascending ws we margin _ H0 H1 H2) in Hp.
    rewrite E in Hp. lra.
  - assert (E : correction_of (pymod (norm360 we + 1) 360) current
                == we + 1 - current).
    { apply correction_of_exact; try lra.
      apply same_heading_add; [|apply same_heading_eq; reflexivity].
      eapply same_heading_trans; [apply same_heading_pymod|].
      apply same_heading_eq. lra. }
    split; [rewrite E; ring|]. split; [rewrite E; lra|].
    destruct (pos_in_wall ws we margin
                (current + correction_of (pymod (norm360 we + 1) 360) current))
      eqn:Hp; [|reflexivity].
    apply (pos_in_wall_ascending ws we margin _ H0 H1 H2) in Hp.
    rewrite E in Hp. lra.
Qed.

(** In the wall between 100 and 200 after an entry in the positive
    direction, a further command of +5 from 150 is answered by the
    correction -51, which leads to 99. *)
Lemma guard_correction_leaves_the_wall_witness :
  exists v,
    update_virtual_wall_state WPan 150 5 (Examples.walled_device 100 200)
      true 0
      (trk_set initial_tracker_store WPan
         (Some {| entry_direction := Some 1%Z; entry_position := Some 99 |}))
    = Ok (v,
          trk_set initial_tracker_store WPan
            (Some {| entry_direction := Some 1%Z;
                     entry_position := Some 99 |}))
    /\ block v = true /\ trigger_correction v = true
    /\ 150 + correction_delta v == (if (0 <? 1)%Z then 100 - 1 else 200 + 1)
    /\ (if (0 <? 1)%Z then correction_delta v < 0
        else 0 < correction_delta v)
    /\ pos_in_wall 100 200 0 (150 + correction_delta v) = false.
Proof.
  apply (guard_correction_leaves_the_wall WPan 150 5
           (Examples.walled_device 100 200) 0
           (trk_set initial_tracker_store WPan
              (Some {| entry_direction := Some 1%Z;
                       entry_position := Some 99 |}))
           {| entry_direction := Some 1%Z; entry_position := Some 99 |}
           1%Z 100 200).
  - reflexivity.
  - vm_compute. discriminate.
  - vm_compute. discriminate.
  - vm_compute. reflexivity.
  - vm_compute. reflexivity.
  - reflexivity.
  - reflexivity.
  - left. reflexivity.
  - vm_compute. reflexivity.
  - vm_compute. discriminate.
Defined.

(** Entering and leaving.  A command that would take the axis from
    outside the wall into it is blocked without a correction, and the
    direction and the position of the attempt are recorded.  From then
    on, wherever in the wall the axis is found, the tracker stays as it
    is and a command is admitted exactly when it runs against the
    recorded direction. *)
Theorem guard_entry_then_exit
    axis current delta dev margin ts t ws we current' delta' :
  wall_bounds dev axis = (Some ws, Some we) ->
  trk_get ts axis = Some t ->
  pos_in_wall ws we margin current = false ->
  pos_in_wall ws we margin (current + delta) = true ->
  pos_in_wall ws we margin current' = true ->
  exists ts1 v2,
    update_virtual_wall_state axis current delta dev true margin ts
    = Ok ({| block := true; trigger_correction := true;
             correction_delta := 0 |}, ts1)
    /\ trk_get ts1 axis
       = Some {| entry_direction := Some (entry_sign delta);
                 entry_position := Some current |}
    /\ update_virtual_wall_state axis current' delta' dev true margin ts1
       = Ok (v2, ts1)
    /\ (block v2 = false <-> cmd_sign delta' = (- entry_sign delta)%Z).
Proof.
  intros Hb Ht Hc Hx Hc'.
  exists (trk_set ts axis
            (Some {| entry_direction := Some (entry_sign delta);
                     entry_position := Some current |})).
  eexists. split.
  { unfold update_virtual_wall_state. cbn [negb].
    rewrite Hb, Ht, Hc, Hx. reflexivity. }
  split; [apply trk_get_set|].
  split.
  { apply (guard_inside_with_entry axis current' delta' dev margin _
             {| entry_direction := Some (entry_sign delta);
                entry_position := Some current |}
             (entry_sign delta) ws we Hb); try reflexivity.
    - apply trk_get_set.
    - exact Hc'. }
  destruct (cmd_sign delta' =? - entry_sign delta)%Z eqn:E.
  - apply Z.eqb_eq in E. split; [intros _; exact E|reflexivity].
  - apply Z.eqb_neq in E. cbn [block]. split; [discriminate|].
    intro H. contradiction.
Qed.

(** From pan 99 a command of +5 towards the wall between 100 and 200;
    afterwards the axis is found at 150. *)
Lemma guard_entry_then_exit_witness :
  exists ts1 v2,
    update_virtual_wall_state WPan 99 5 (Examples.walled_device 100 200)
      true 0 (trk_set initial_tracker_store WPan (Some empty_tracker))
    = Ok ({| block := true; trigger_correction := true;
             correction_delta := 0 |}, ts1)
    /\ trk_get ts1 WPan
       = Some {| entry_direction := Some (entry_sign 5);
                 entry_position := Some 99 |}
    /\ update_virtual_wall_state WPan 150 (-(5))
         (Examples.walled_device 100 200) true 0 ts1
       = Ok (v2, ts1)
    /\ (block v2 = false <-> cmd_sign (-(5)) = (- entry_sign 5)%Z).
Proof.
  apply (guard_entry_then_exit WPan 99 5 (Examples.walled_device 100 200) 0
           (trk_set initial_tracker_store WPan (Some empty_tracker))
           empty_tracker 100 200 150 (-(5))).
  - reflexivity.
  - reflexivity.
  - vm_compute. reflexivity.
  - vm_compute. reflexivity.
  - vm_compute. reflexivity.
Defined.

End GuardSafety.

(** * Speeds and frames *)

Section Speeds.
Import Controls.

Lemma int_of_lower (a : Z) q : inject_Z a <= q -> (a <= int_of q)%Z.
Proof.
  intro H. unfold Qle in H. cbn in H. unfold int_of.
  rewrite <- (Z.quot_mul a (Zpos (Qden q))) by lia.
  apply Z.quot_le_mono; lia.
Qed.

Lemma int_of_upper (b : Z) q : q <= inject_Z b -> (int_of q <= b)%Z.
Proof.
  intro H. unfold Qle in H. cbn in H. unfold int_of.
  rewrite <- (Z.quot_mul b (Zpos (Qden q))) by lia.
  apply Z.quot_le_mono; lia.
Qed.

Lemma int_of_mono q r : q <= r -> (int_of q <= int_of r)%Z.
Proof.
  intro H. unfold Qle in H. unfold int_of.
  destruct q as [n1 d1], r as [n2 d2]. cbn in *.
  pose proof (Z.quot_rem' n1 (Zpos d1)) as E1.
  pose proof (Z.quot_rem' n2 (Zpos d2)) as E2.
  assert (P1 : (0 < Zpos d1)%Z) by lia.
  assert (P2 : (0 < Zpos d2)%Z) by lia.
  set (q1 := (n1 ÷ Zpos d1)%Z) in *. set (q2 := (n2 ÷ Zpos d2)%Z) in *.
  set (r1 := Z.rem n1 (Zpos d1)) in *. set (r2 := Z.rem n2 (Zpos d2)) in *.
  assert (B1 : (- Zpos d1 < r1 < Zpos d1)%Z).
  { pose proof (Z.rem_bound_abs n1 (Zpos d1) ltac:(lia)). subst r1. lia. }
  assert (B2 : (- Zpos d2 < r2 < Zpos d2)%Z).
  { pose proof (Z.rem_bound_abs n2 (Zpos d2) ltac:(lia)). subst r2. lia. }
  assert (S1 : (0 <= r1 * n1)%Z) by (apply Z.rem_sign_mul; lia).
  assert (S2 : (0 <= r2 * n2)%Z) by (apply Z.rem_sign_mul; lia).
  clearbody q1 q2 r1 r2.
  destruct (Z_lt_le_dec q2 q1) as [Hlt|Hle]; [exfalso|exact Hle].
  assert (Hq : (Zpos d1 * Zpos d2 * (q2 + 1) <= Zpos d1 * Zpos d2 * q1)%Z).
  { apply Z.mul_le_mono_nonneg_l; lia. }
  assert (R1 : (- (Zpos d1 * Zpos d2) < r1 * Zpos d2)%Z) by nia.
  assert (R2 : (r2 * Zpos d1 < Zpos d1 * Zpos d2)%Z) by nia.
  assert (T1 : (n1 < 0 -> r1 <= 0)%Z).
  { intro N. destruct (Z_lt_le_dec 0 r1) as [A|A]; [|exact A].
    pose proof (Z.mul_pos_neg r1 n1 A N). lia. }
  assert (T2 : (n2 < 0 -> r2 <= 0)%Z).
  { intro N. destruct (Z_lt_le_dec 0 r2) as [A|A]; [|exact A].
    pose proof (Z.mul_pos_neg r2 n2 A N). lia. }
  assert (U1 : (0 < n1 -> 0 <= r1)%Z).
  { intro N. destruct (Z_lt_le_dec r1 0) as [A|A]; [|exact A].
    pose proof (Z.mul_neg_pos r1 n1 A N). lia. }
  assert (U2 : (0 < n2 -> 0 <= r2)%Z).
  { intro N. destruct (Z_lt_le_dec r2 0) as [A|A]; [|exact A].
    pose proof (Z.mul_neg_pos r2 n2 A N). lia. }
  assert (M1 : (n1 * Zpos d2 = Zpos d1 * Zpos d2 * q1 + r1 * Zpos d2)%Z)
    by (rewrite E1 at 1; ring).
  assert (M2 : (n2 * Zpos d1 = Zpos d1 * Zpos d2 * q2 + r2 * Zpos d1)%Z)
    by (rewrite E2 at 1; ring).
  assert (Hq' : (Zpos d1 * Zpos d2 * q2 + Zpos d1 * Zpos d2
                 <= Zpos d1 * Zpos d2 * q1)%Z) by lia.
  destruct (Z_lt_le_dec n2 0) as [N2|N2].
  - assert (r2 * Zpos d1 <= 0)%Z by (apply Z.mul_nonpos_nonneg; lia). lia.
  - destruct (Z_lt_le_dec 0 n1) as [N1|N1].
    + assert (0 <= r1 * Zpos d2)%Z by (apply Z.mul_nonneg_nonneg; lia). lia.
    + assert (Hn : (n1 < 0 \/ n1 = 0)%Z) by lia.
      destruct Hn as [Hn|Hn].
      * assert (n1 * Zpos d2 < 0)%Z by (apply Z.mul_neg_pos; lia).
        assert (0 <= n2 * Zpos d1)%Z by (apply Z.mul_nonneg_nonneg; lia).
        assert (Hq1 : (q1 <= 0)%Z).
        { destruct (Z_lt_le_dec 0 q1) as [A|A]; [|exact A].
          assert (Zpos d1 * 1 <= Zpos d1 * q1)%Z
            by (apply Z.mul_le_mono_nonneg_l; lia). lia. }
        assert (Hq2 : (0 <= q2)%Z).
        { destruct (Z_lt_le_dec q2 0) as [A|A]; [|exact A].
          assert (Zpos d2 * q2 <= Zpos d2 * (-1))%Z
            by (apply Z.mul_le_mono_nonneg_l; lia).
          destruct (Z.eq_dec n2 0) as [Z0|Z0]; [|specialize (U2 ltac:(lia))]; lia. }
        lia.
      * subst n1.
        assert (Hq1 : (q1 <= 0)%Z).
        { destruct (Z_lt_le_dec 0 q1) as [A|A]; [|exact A].
          assert (Zpos d1 * 1 <= Zpos d1 * q1)%Z
            by (apply Z.mul_le_mono_nonneg_l; lia). lia. }
        assert (Hq2 : (0 <= q2)%Z).
        { destruct (Z_lt_le_dec q2 0) as [A|A]; [|exact A].
          assert (Zpos d2 * q2 <= Zpos d2 * (-1))%Z
            by (apply Z.mul_le_mono_nonneg_l; lia).
          destruct (Z.eq_dec n2 0) as [Z0|Z0]; [|specialize (U2 ltac:(lia))]; lia. }
        lia.
Qed.

Lemma speed_value_up as_name d pct :
  drives_positive as_name d = true ->
  speed_value as_name d pct = int_of (20 + (pct - 1) * (2024 - 20) / 99).
Proof.
  unfold drives_positive, speed_value, base_range.
  destruct as_name, (is_positive d); cbn [negb]; try discriminate;
    reflexivity.
Qed.

Lemma speed_value_down as_name d pct :
  drives_positive as_name d = false ->
  speed_value as_name d pct
  = int_of (-(20) + (pct - 1) * (-(2024) - -(20)) / 99).
Proof.
  unfold drives_positive, speed_value, base_range.
  destruct as_name, (is_positive d); cbn [negb]; try discriminate;
    reflexivity.
Qed.

Lemma ramp_up pct :
  20 + (pct - 1) * (2024 - 20) / 99 == 20 + (2004 # 99) * (pct - 1).
Proof. field. Qed.

Lemma ramp_down pct :
  -(20) + (pct - 1) * (-(2024) - -(20)) / 99
  == -(20) - (2004 # 99) * (pct - 1).
Proof. field. Qed.

Lemma speed_value_bounds as_name d pct :
  1 <= pct -> pct <= 100 ->
  if drives_positive as_name d
  then (20 <= speed_value as_name d pct <= 2024)%Z
  else (-2024 <= speed_value as_name d pct <= -20)%Z.
Proof.
  intros H1 H100.
  destruct (drives_positive as_name d) eqn:E.
  - rewrite (speed_value_up _ _ _ E). split.
    + apply int_of_lower. change (inject_Z 20) with 20.
      rewrite ramp_up. lra.
    + apply int_of_upper. change (inject_Z 2024) with 2024.
      rewrite ramp_up. lra.
  - rewrite (speed_value_down _ _ _ E). split.
    + apply int_of_lower. change (inject_Z (-2024)) with (-(2024)).
      rewrite ramp_down. lra.
    + apply int_of_upper. change (inject_Z (-20)) with (-(20)).
      rewrite ramp_down. lra.
Qed.

Lemma delta_of_speed_bounds (v : Z) :
  (-2024 <= v <= 2024)%Z ->
  -(90) <= delta_of_speed v /\ delta_of_speed v <= 90.
Proof.
  intros [Hlo Hhi]. unfold delta_of_speed.
  assert (A : -(2024) <= inject_Z v).
  { change (-(2024)) with (inject_Z (-2024)). rewrite <- Zle_Qle. exact Hlo. }
  assert (B : inject_Z v <= 2024).
  { change 2024 with (inject_Z 2024). rewrite <- Zle_Qle. exact Hhi. }
  set (q := inject_Z v) in *. clearbody q.
  assert (E : q / 2024 * 90 == (90 # 2024) * q) by field.
  rewrite E. split; lra.
Qed.

(** For a percentage between 1 and 100 the packed speed fits the signed
    16-bit field, has magnitude between 20 and 2024 with the sign of the
    commanded movement (tilt inverted), and the angular step
    attributed to it stays within 90 degrees; and a higher percentage
    never gives a lower magnitude. *)
Theorem speed_value_in_range as_name d pct :
  1 <= pct -> pct <= 100 ->
  fits_int16 (speed_value as_name d pct) = true
  /\ (if drives_positive as_name d
      then (20 <= speed_value as_name d pct <= 2024)%Z
      else (-2024 <= speed_value as_name d pct <= -20)%Z)
  /\ -(90) <= delta_of_speed (speed_value as_name d pct)
  /\ delta_of_speed (speed_value as_name d pct) <= 90
  /\ forall pct', pct <= pct' -> pct' <= 100 ->
       (Z.abs (speed_value as_name d pct)
        <= Z.abs (speed_value as_name d pct'))%Z.
Proof.
  intros H1 H100.
  pose proof (speed_value_bounds as_name d pct H1 H100) as Hb.
  assert (Hr : (-2024 <= speed_value as_name d pct <= 2024)%Z).
  { destruct (drives_positive as_name d); lia. }
  split.
  { unfold fits_int16. apply andb_true_iff.
    split; apply Z.leb_le; lia. }
  split; [exact Hb|].
  destruct (delta_of_speed_bounds _ Hr) as [D1 D2].
  split; [exact D1|]. split; [exact D2|].
  intros pct' Hle H100'.
  assert (H1' : 1 <= pct') by lra.
  pose proof (speed_value_bounds as_name d pct' H1' H100') as Hb'.
  destruct (drives_positive as_name d) eqn:E.
  - assert (M : (speed_value as_name d pct <= speed_value as_name d pct')%Z).
    { rewrite !(speed_value_up _ _ _ E). apply int_of_mono.
      rewrite !ramp_up. lra. }
    lia.
  - assert (M : (speed_value as_name d pct' <= speed_value as_name d pct)%Z).
    { rewrite !(speed_value_down _ _ _ E). apply int_of_mono.
      rewrite !ramp_down. lra. }
    lia.
Qed.

(** Pan to the right at 50 percent. *)
Lemma speed_value_in_range_witness :
  fits_int16 (speed_value Pan (Some Positive) 50) = true
  /\ (if drives_positive Pan (Some Positive)
      then (20 <= speed_value Pan (Some Positive) 50 <= 2024)%Z
      else (-2024 <= speed_value Pan (Some Positive) 50 <= -20)%Z)
  /\ -(90) <= delta_of_speed (speed_value Pan (Some Positive) 50)
  /\ delta_of_speed (speed_value Pan (Some Positive) 50) <= 90
  /\ forall pct', 50 <= pct' -> pct' <= 100 ->
       (Z.abs (speed_value Pan (Some Positive) 50)
        <= Z.abs (speed_value Pan (Some Positive) pct'))%Z.
Proof.
  apply (speed_value_in_range Pan (Some Positive) 50).
  - vm_compute. discriminate.
  - vm_compute. discriminate.
Defined.

Lemma live_wall_check_eq wall_start wall_end current_pos command_delta :
  live_wall_check wall_start wall_end current_pos command_delta
  = if live_inside wall_start wall_end current_pos then
      if (cmd_sign command_delta
          =? live_exit_direction wall_start wall_end current_pos)%Z
      then LiveAllow else LiveBlock
    else if live_inside wall_start wall_end (current_pos + command_delta)
         then LiveBlock else LiveAllow.
Proof.
  unfold live_wall_check, live_inside, live_exit_direction.
  destruct (Qltb wall_end wall_start); reflexivity.
Qed.

Lemma speed_value_fits as_name d pct :
  1 <= pct -> pct <= 100 -> fits_int16 (speed_value as_name d pct) = true.
Proof.
  intros H1 H100.
  pose proof (speed_value_bounds as_name d pct H1 H100) as Hb.
  unfold fits_int16. apply andb_true_iff.
  split; apply Z.leb_le; destruct (drives_positive as_name d); lia.
Qed.

(** What leaves for a pan, tilt or roll command of a device whose camera
    id fits one byte, while the wall is on, the bounds are configured
    and the position is known: exactly one frame, and nothing else
    changes.  The frame is the idle frame of the axis, or
    the movement frame; the movement frame leaves only if the axis is
    outside the wall and expected to stay outside, or is inside and
    commanded in the direction in which the check lets it out.  Roll is
    checked against the tilt bounds and the tilt position. *)
Theorem live_check_never_sends_into_the_wall
    as_name d pct apcr ct settings w p ws we :
  (0 <= camid apcr <= 255)%Z ->
  ptr_axis as_name = true ->
  1 <= pct -> pct <= 100 ->
  virtualwall_enabled settings = true ->
  live_bounds as_name apcr = (Some ws, Some we) ->
  get_current_position w apcr = Some p ->
  exists frame,
    send_movement_packet as_name d pct apcr ct settings w
    = send_apcr_command w frame
    /\ (frame = IdlePacket as_name (camid apcr)
        \/ (frame = MovePacket as_name d (camid apcr)
                      (speed_value as_name d pct)
            /\ if live_inside ws we (axis_position as_name p)
               then cmd_sign (delta_of_speed (speed_value as_name d pct))
                    = live_exit_direction ws we (axis_position as_name p)
               else live_inside ws we
                      (axis_position as_name p
                       + delta_of_speed (speed_value as_name d pct))
                    = false)).
Proof.
  intros Hcam Hax H1 H100 He Hb Hp.
  pose proof (speed_value_fits as_name d pct H1 H100) as Hfit.
  assert (Hne : as_name <> Zoom) by (intro E; subst; discriminate Hax).
  destruct (base_packet_is_read as_name d (camid apcr) Hcam Hne)
    as [data Ebase].
  assert (Hsend :
    send_movement_packet as_name d pct apcr ct settings w
    = match live_wall_check ws we (axis_position as_name p)
              (delta_of_speed (speed_value as_name d pct)) with
      | LiveBlock => send_apcr_command w (IdlePacket as_name (camid apcr))
      | LiveAllow =>
          send_apcr_command w
            (MovePacket as_name d (camid apcr) (speed_value as_name d pct))
      end).
  { unfold send_movement_packet. cbv zeta.
    destruct as_name; try discriminate Hax;
      rewrite Hfit, Ebase, He, Hb, Hp, (send_idle_frame_ok _ _ _ Hcam);
      reflexivity. }
  rewrite Hsend, live_wall_check_eq.
  destruct (live_inside ws we (axis_position as_name p)).
  - destruct (cmd_sign _ =? _)%Z eqn:E.
    + eexists. split; [reflexivity|]. right. split; [reflexivity|].
      apply Z.eqb_eq. exact E.
    + eexists. split; [reflexivity|]. left. reflexivity.
  - destruct (live_inside ws we _) eqn:E.
    + eexists. split; [reflexivity|]. left. reflexivity.
    + eexists. split; [reflexivity|]. right. split; reflexivity.
Qed.

(** Pan to the right at full speed from pan 0, the wall between 100 and
    200. *)
Lemma live_check_never_sends_into_the_wall_witness :
  exists frame,
    send_movement_packet Pan (Some Positive) 100
      (Examples.walled_device 100 200) AxisControl
      (Some (Examples.switches true false false))
      (Examples.moving_world false)
    = send_apcr_command (Examples.moving_world false) frame
    /\ (frame = IdlePacket Pan (camid (Examples.walled_device 100 200))
        \/ (frame = MovePacket Pan (Some Positive)
                      (camid (Examples.walled_device 100 200))
                      (speed_value Pan (Some Positive) 100)
            /\ if live_inside 100 200
                    (axis_position Pan
                       {| pos_pan := 0; pos_tilt := 0; pos_roll := 0;
                          pos_zoom := 1 |})
               then cmd_sign
                      (delta_of_speed (speed_value Pan (Some Positive) 100))
                    = live_exit_direction 100 200
                        (axis_position Pan
                           {| pos_pan := 0; pos_tilt := 0; pos_roll := 0;
                              pos_zoom := 1 |})
               else live_inside 100 200
                      (axis_position Pan
                         {| pos_pan := 0; pos_tilt := 0; pos_roll := 0;
                            pos_zoom := 1 |}
                       + delta_of_speed (speed_value Pan (Some Positive) 100))
                    = false)).
Proof.
  apply (live_check_never_sends_into_the_wall Pan (Some Positive) 100
           (Examples.walled_device 100 200) AxisControl
           (Some (Examples.switches true false false))
           (Examples.moving_world false)
           {| pos_pan := 0; pos_tilt := 0; pos_roll := 0; pos_zoom := 1 |}
           100 200).
  - simpl. lia.
  - reflexivity.
  - vm_compute. discriminate.
  - vm_compute. discriminate.
  - reflexivity.
  - reflexivity.
  - reflexivity.
Defined.

End Speeds.

(** * The state machine and its timers *)

Section Process.
Import Controls.

Lemma Axis_eqb_eq a b : Axis_eqb a b = true <-> a = b.
Proof. destruct a, b; split; intro H; try reflexivity; discriminate. Qed.

Lemma Axis_eqb_refl a : Axis_eqb a a = true.
Proof. destruct a; reflexivity. Qed.

Lemma Axis_eqb_neq a b : a <> b -> Axis_eqb a b = false.
Proof.
  intro H. destruct (Axis_eqb a b) eqn:E; [|reflexivity].
  apply Axis_eqb_eq in E. contradiction.
Qed.

Lemma Axis_eq_dec (a b : Axis) : a = b \/ a <> b.
Proof. destruct a, b; (left; reflexivity) || (right; discriminate). Qed.

Lemma notify_zoom_activity_timers b w :
  timers (notify_zoom_activity b w) = timers w.
Proof.
  unfold notify_zoom_activity.
  destruct (Bool.eqb (zoom_active w) b); reflexivity.
Qed.

Lemma send_movement_packet_timers as_name d pct apcr ct settings w :
  timers (send_movement_packet as_name d pct apcr ct settings w) = timers w.
Proof.
  destruct (send_movement_packet_shape as_name d pct apcr ct settings w)
    as [E|[[p E]|[p E]]]; rewrite E; try reflexivity.
  rewrite notify_zoom_activity_timers. reflexivity.
Qed.

Lemma cancel_handle_timers h w :
  timers (cancel_handle h w) = cancel_opt h (timers w).
Proof. destruct h; reflexivity. Qed.

Lemma cancel_opt_length h ts : length (cancel_opt h ts) = length ts.
Proof. destruct h; [apply cancel_at_length|reflexivity]. Qed.

(** A timer that is still pending after a [cancel] is another timer, and
    was pending before. *)
Lemma cancel_at_pending h : forall ts n t,
  nth_error (cancel_at h ts) n = Some t -> is_pending t = true ->
  nth_error ts n = Some t /\ n <> h.
Proof.
  induction h as [|h IH]; intros [|t0 r] n t H Hp.
  - destruct n; discriminate.
  - destruct n as [|n].
    + exfalso. cbn in H.
      destruct (t_status t0) eqn:E; injection H as <-;
        unfold is_pending in Hp; cbn in Hp; rewrite ?E in Hp; discriminate.
    + cbn in H. destruct (t_status t0); cbn in H; split; auto.
  - destruct n; discriminate.
  - destruct n as [|n].
    + cbn in H. split; [exact H|discriminate].
    + cbn in H. destruct (IH r n t H Hp) as [H1 H2].
      split; [exact H1|]. intro E. apply H2. injection E as E. exact E.
Qed.

Lemma cancel_opt_pending h ts n t :
  nth_error (cancel_opt h ts) n = Some t -> is_pending t = true ->
  nth_error ts n = Some t /\ h <> Some n.
Proof.
  destruct h as [k|]; cbn; intros H Hp.
  - destruct (cancel_at_pending k ts n t H Hp) as [H1 H2].
    split; [exact H1|]. intro E. injection E as E. apply H2. symmetry. exact E.
  - split; [exact H|discriminate].
Qed.

Lemma nth_error_snoc {A} (l : list A) x n t :
  nth_error (l ++ [x]) n = Some t ->
  nth_error l n = Some t \/ (n = length l /\ t = x).
Proof.
  intro H. destruct (Nat.lt_ge_cases n (length l)) as [Hlt|Hge].
  - left. rewrite nth_error_app1 in H by exact Hlt. exact H.
  - right. rewrite nth_error_app2 in H by exact Hge.
    destruct (n - length l)%nat as [|k] eqn:E.
    + cbn in H. injection H as <-. split; [lia|reflexivity].
    + cbn in H. destruct k; discriminate.
Qed.

Lemma nth_error_replaced {A} (l : list A) x : forall n m t,
  nth_error (firstn n l ++ x :: skipn (S n) l) m = Some t ->
  (n < length l)%nat ->
  (m = n /\ t = x) \/ (m <> n /\ nth_error l m = Some t).
Proof.
  induction l as [|y l IH]; intros n m t H Hn.
  - cbn in Hn. lia.
  - destruct n as [|n].
    + cbn in H. destruct m as [|m].
      * left. cbn in H. injection H as <-. split; reflexivity.
      * right. split; [discriminate|exact H].
    + cbn in H. destruct m as [|m].
      * right. split; [discriminate|exact H].
      * cbn in Hn. destruct (IH n m t H ltac:(lia)) as [[-> ->]|[Hne Hm]].
        -- left. split; reflexivity.
        -- right. split; [lia|exact Hm].
Qed.

(** The invariant survives when no pending timer is added and the slots
    stay as they are. *)
Lemma owned_when_fewer w w' :
  timers_owned w ->
  (forall n t, nth_error (timers w') n = Some t -> is_pending t = true ->
               nth_error (timers w) n = Some t) ->
  (forall a, movement_state w' a = movement_state w a) ->
  timers_owned w'.
Proof.
  intros Inv Ht Hm n t H Hp.
  specialize (Inv n t (Ht n t H Hp) Hp).
  destruct (t_callback t) as [a ? ? ?|a ?]; rewrite Hm; exact Inv.
Qed.

(** The invariant survives an update of the slot of one axis when every
    pending timer either belongs to another axis and was there before, or
    is held by the new slot. *)
Lemma owned_after_slot_update w w' as_name st' :
  timers_owned w ->
  (forall a, movement_state w' a
             = if Axis_eqb as_name a then st' else movement_state w a) ->
  (forall n t, nth_error (timers w') n = Some t -> is_pending t = true ->
     match t_callback t with
     | RepeatCb a _ _ _ =>
         (a <> as_name /\ nth_error (timers w) n = Some t)
         \/ (a = as_name /\ timer st' = Some n /\ active st' = true)
     | IdleCb a _ =>
         (a <> as_name /\ nth_error (timers w) n = Some t)
         \/ (a = as_name /\ idle_timer st' = Some n)
     end) ->
  timers_owned w'.
Proof.
  intros Inv Hm Ht n t H Hp.
  specialize (Ht n t H Hp).
  destruct (t_callback t) as [a ap s c|a ap] eqn:Ecb.
  - destruct Ht as [[Hne Hold]|[-> [Htm Hact]]].
    + specialize (Inv n t Hold Hp). rewrite Ecb in Inv.
      rewrite Hm, Axis_eqb_neq by (intro E; apply Hne; symmetry; exact E).
      exact Inv.
    + rewrite Hm, Axis_eqb_refl. split; assumption.
  - destruct Ht as [[Hne Hold]|[-> Hid]].
    + specialize (Inv n t Hold Hp). rewrite Ecb in Inv.
      rewrite Hm, Axis_eqb_neq by (intro E; apply Hne; symmetry; exact E).
      exact Inv.
    + rewrite Hm, Axis_eqb_refl. exact Hid.
Qed.

(** What a call of [start_or_update_movement] that does start or update
    leaves behind. *)
Lemma start_shape as_name d pct apcr ct axis_idx settings dev_map w :
  start_or_update_movement as_name d pct apcr ct axis_idx settings dev_map w
  = w
  \/ exists st',
       (forall a,
           movement_state
             (start_or_update_movement as_name d pct apcr ct axis_idx
                settings dev_map w) a
           = if Axis_eqb as_name a then st' else movement_state w a)
       /\ timers
            (start_or_update_movement as_name d pct apcr ct axis_idx
               settings dev_map w)
          = cancel_opt (idle_timer (movement_state w as_name))
              (cancel_opt (timer (movement_state w as_name)) (timers w)
               ++ [{| t_delay := REPEAT_INTERVAL;
                      t_callback := RepeatCb as_name apcr settings None;
                      t_status := Pending |}])
       /\ active st' = true
       /\ timer st' = Some (length (timers w))
       /\ idle_timer st' = None
       /\ direction st' = d
       /\ control_type st' = Some ct
       /\ (ptr_axis as_name && adaptive_speed_enabled settings = false ->
           percentage st' = pct).
Proof.
  unfold start_or_update_movement. cbv zeta.
  destruct (claimed_by_mapping ct axis_idx settings dev_map);
    [left; reflexivity|].
  match goal with |- (if ?c then _ else _) = _ \/ _ => destruct c end;
    [|left; reflexivity].
  right. unfold start_timer.
  set (pct' := get_default _ pct).
  set (orig := match _ with Some _ => Some pct | None => _ end).
  set (st := movement_state w as_name).
  set (st1 := {| active := true; direction := d; percentage := pct';
                 control_type := Some ct; original_percentage := orig;
                 timer := timer st; idle_timer := idle_timer st |}).
  set (w1 := with_movement w (set_axis (movement_state w) as_name st1)).
  set (w2 := send_movement_packet as_name d pct' apcr ct settings w1).
  assert (Hm2 : movement_state w2 = set_axis (movement_state w) as_name st1).
  { subst w2. rewrite (proj1 (send_movement_packet_movement _ _ _ _ _ _ _)).
    reflexivity. }
  assert (Ht2 : timers w2 = timers w).
  { subst w2. rewrite send_movement_packet_timers. reflexivity. }
  exists {| active := true; direction := d; percentage := pct';
            control_type := Some ct; original_percentage := orig;
            timer := Some (length (timers w)); idle_timer := None |}.
  assert (Hlen : length (timers (cancel_handle (timer st) w2))
                 = length (timers w)).
  { rewrite cancel_handle_length, Ht2. reflexivity. }
  split; [|split; [|repeat split]].
  3:{ intro Hoff. cbn [percentage]. subst pct'. rewrite Hoff. reflexivity. }
  - intro a.
    assert (E : forall w0,
               movement_state
                 (match as_name with
                  | Zoom => notify_zoom_activity true w0
                  | _ => w0
                  end) = movement_state w0).
    { intro w0. destruct as_name; try reflexivity.
      apply (proj1 (notify_zoom_activity_movement true w0)). }
    rewrite E. cbn [movement_state with_movement].
    rewrite Hlen. unfold set_axis at 1.
    destruct (Axis_eqb as_name a) eqn:Ea; [reflexivity|].
    rewrite cancel_handle_movement. cbn [movement_state with_timers].
    rewrite cancel_handle_movement, Hm2. unfold set_axis. rewrite Ea.
    reflexivity.
  - assert (E : forall w0,
               timers
                 (match as_name with
                  | Zoom => notify_zoom_activity true w0
                  | _ => w0
                  end) = timers w0).
    { intro w0. destruct as_name; try reflexivity.
      apply notify_zoom_activity_timers. }
    rewrite E. cbn [timers with_movement].
    rewrite cancel_handle_timers. cbn [timers with_timers].
    rewrite cancel_handle_timers, Ht2. reflexivity.
Qed.

Lemma start_keeps_timers_owned
    as_name d pct apcr ct axis_idx settings dev_map w :
  timers_owned w ->
  timers_owned
    (start_or_update_movement as_name d pct apcr ct axis_idx settings
       dev_map w).
Proof.
  intro Inv.
  destruct (start_shape as_name d pct apcr ct axis_idx settings dev_map w)
    as [E|[st' [Hm [Ht [Hact [Htm [Hid _]]]]]]].
  { rewrite E. exact Inv. }
  apply (owned_after_slot_update w _ as_name st' Inv Hm).
  intros n t H Hp. rewrite Ht in H.
  destruct (cancel_opt_pending _ _ _ _ H Hp) as [H1 Hn1].
  apply nth_error_snoc in H1. destruct H1 as [H1|[Hn ->]].
  - destruct (cancel_opt_pending _ _ _ _ H1 Hp) as [H2 Hn2].
    pose proof (Inv n t H2 Hp) as Hold.
    destruct (t_callback t) as [a ap s c|a ap].
    + left. split; [|exact H2]. intros ->. apply Hn2. apply Hold.
    + left. split; [|exact H2]. intros ->. apply Hn1. exact Hold.
  - cbn [t_callback]. right. rewrite cancel_opt_length in Hn.
    split; [reflexivity|]. split; [rewrite Htm, Hn; reflexivity|exact Hact].
Qed.

Lemma cancelled_timers_pending st ts n t :
  nth_error (cancelled_timers st ts) n = Some t -> is_pending t = true ->
  nth_error ts n = Some t /\ timer st <> Some n /\ idle_timer st <> Some n.
Proof.
  unfold cancelled_timers. intros H Hp.
  fold (cancel_opt (timer st) ts) in H.
  fold (cancel_opt (idle_timer st) (cancel_opt (timer st) ts)) in H.
  destruct (cancel_opt_pending _ _ _ _ H Hp) as [H1 Hn1].
  destruct (cancel_opt_pending _ _ _ _ H1 Hp) as [H2 Hn2].
  repeat split; assumption.
Qed.

Lemma stop_keeps_timers_owned as_name apcr w :
  timers_owned w -> timers_owned (after_stop as_name apcr w).
Proof.
  intro Inv.
  destruct (after_stop_cases as_name apcr w) as [E|[Hact [Ht [_ Hm]]]].
  { rewrite E. exact Inv. }
  apply (owned_after_slot_update w _ as_name
           {| active := false; direction := None; percentage := 0;
              control_type := None;
              original_percentage :=
                original_percentage (movement_state w as_name);
              timer := None;
              idle_timer := Some (length (timers w)) |} Inv).
  { intro a. rewrite Hm. reflexivity. }
  intros n t H Hp. rewrite Ht in H.
  apply nth_error_snoc in H. destruct H as [H|[Hn ->]].
  - destruct (cancelled_timers_pending _ _ _ _ H Hp) as [H1 [Hn1 Hn2]].
    pose proof (Inv n t H1 Hp) as Hold.
    destruct (t_callback t) as [a ap s c|a ap].
    + left. split; [|exact H1]. intros ->. apply Hn1. apply Hold.
    + left. split; [|exact H1]. intros ->. apply Hn2. exact Hold.
  - cbn [t_callback idle_timer]. right.
    rewrite cancelled_timers_length in Hn. split; [reflexivity|].
    rewrite Hn. reflexivity.
Qed.

(** What a repeat tick leaves behind: the slots and the timers as they
    were, or the slot of its axis holding one more timer. *)
Lemma repeat_shape now as_name apcr settings w :
  (timers (repeat_command now as_name apcr settings w) = timers w
   /\ forall a, movement_state (repeat_command now as_name apcr settings w) a
                = movement_state w a)
  \/ exists st' c,
       (forall a,
           movement_state (repeat_command now as_name apcr settings w) a
           = if Axis_eqb as_name a then st' else movement_state w a)
       /\ timers (repeat_command now as_name apcr settings w)
          = timers w
            ++ [{| t_delay := REPEAT_INTERVAL;
                   t_callback := RepeatCb as_name apcr settings c;
                   t_status := Pending |}]
       /\ active st' = true
       /\ timer st' = Some (length (timers w))
       /\ idle_timer st' = idle_timer (movement_state w as_name).
Proof.
  unfold repeat_command. cbv zeta.
  change (movement_state (user_input_received now w)) with (movement_state w).
  destruct (active (movement_state w as_name)) eqn:Hact.
  2:{ left. split; [reflexivity|]. intro a. reflexivity. }
  match goal with |- context [if predicted_block ?x then _ else _] =>
    destruct (predicted_block x) end.
  { left. split; [reflexivity|]. intro a. reflexivity. }
  right. unfold start_timer.
  match goal with
  | |- context [send_movement_packet ?a ?d ?p ?ap ?ct ?se ?w0] =>
      set (w3 := send_movement_packet a d p ap ct se w0);
      assert (Hm3 : movement_state w3 = movement_state w0)
        by apply (proj1 (send_movement_packet_movement a d p ap ct se w0));
      assert (Ht3 : timers w3 = timers w0)
        by apply send_movement_packet_timers;
      set (w2 := w0) in *
  end.
  assert (Ht2 : timers w2 = timers w).
  { subst w2. destruct (Qeqb _ _); reflexivity. }
  assert (Hm2 : forall a,
             movement_state w2 a
             = if Axis_eqb as_name a
               then {| active := true;
                       direction := direction (movement_state w as_name);
                       percentage := percentage (movement_state w2 as_name);
                       control_type :=
                         control_type (movement_state w as_name);
                       original_percentage :=
                         original_percentage (movement_state w as_name);
                       timer := timer (movement_state w as_name);
                       idle_timer := idle_timer (movement_state w as_name) |}
               else movement_state w a).
  { intro a. subst w2. destruct (Qeqb _ _) eqn:Eq.
    - cbn [movement_state update_cumulative_delta with_cumulative
           user_input_received].
      destruct (Axis_eqb as_name a) eqn:Ea; [|reflexivity].
      apply Axis_eqb_eq in Ea. subst a.
      destruct (movement_state w as_name) eqn:Est. cbn in *.
      rewrite Hact. reflexivity.
    - cbn [movement_state update_cumulative_delta with_cumulative
           user_input_received with_movement].
      unfold set_axis. rewrite Axis_eqb_refl. cbn [percentage].
      destruct (Axis_eqb as_name a); reflexivity. }
  eexists. eexists. split; [|split; [|split; [|split]]].
  - intro a. cbn [movement_state with_movement with_timers].
    unfold set_axis at 1.
    destruct (Axis_eqb as_name a) eqn:Ea; [reflexivity|].
    rewrite Hm3, Hm2, Ea. reflexivity.
  - cbn [timers with_movement with_timers]. rewrite Ht3, Ht2. reflexivity.
  - cbn [active]. rewrite Hm3, Hm2, Axis_eqb_refl. reflexivity.
  - cbn [timer]. rewrite Ht3, Ht2. reflexivity.
  - cbn [idle_timer]. rewrite Hm3, Hm2, Axis_eqb_refl. reflexivity.
Qed.

(** The idle-grace callback sends its idle frame, or leaves the state
    as it found it: when the axis moves again, and when it raises. *)
Lemma send_idle_if_still_inactive_cases as_name apcr w :
  (active (movement_state w as_name) = false
   /\ send_idle_if_still_inactive as_name apcr w
      = Ok (send_apcr_command w (IdlePacket as_name (camid apcr))))
  \/ send_idle_if_still_inactive as_name apcr w = Ok w
  \/ exists e, send_idle_if_still_inactive as_name apcr w = Raised e.
Proof.
  unfold send_idle_if_still_inactive.
  destruct (active (movement_state w as_name)); cbn [negb];
    [right; left; reflexivity|].
  destruct as_name; cbn [get_idle_packet];
    match goal with
    | |- context [bytes_fromhex ?t] => destruct (bytes_fromhex t)
    end;
    ((left; split; reflexivity) || (right; right; eexists; reflexivity)).
Qed.

Lemma send_idle_if_still_inactive_frame as_name apcr w :
  timers match send_idle_if_still_inactive as_name apcr w with
         | Ok w2 => w2
         | Raised _ => w
         end = timers w
  /\ movement_state match send_idle_if_still_inactive as_name apcr w with
                    | Ok w2 => w2
                    | Raised _ => w
                    end
     = movement_state w.
Proof.
  destruct (send_idle_if_still_inactive_cases as_name apcr w)
    as [[_ E]|[E|[e E]]]; rewrite E; split; reflexivity.
Qed.

Lemma fire_keeps_timers_owned now n w :
  timers_owned w -> timers_owned (fire_timer now n w).
Proof.
  intro Inv. unfold fire_timer.
  destruct (nth_error (timers w) n) as [t|] eqn:Hn; [|exact Inv].
  destruct (is_pending t) eqn:Hp; [|exact Inv].
  set (fired := {| t_delay := t_delay t; t_callback := t_callback t;
                   t_status := Fired |}).
  set (w1 := with_timers w (firstn n (timers w) ++ fired
                            :: skipn (S n) (timers w))).
  assert (Hlen : (n < length (timers w))%nat).
  { apply nth_error_Some. rewrite Hn. discriminate. }
  assert (Hold : forall m t', nth_error (timers w1) m = Some t' ->
                   is_pending t' = true ->
                   m <> n /\ nth_error (timers w) m = Some t').
  { intros m t' H Hp'. subst w1. cbn [timers with_timers] in H.
    destruct (nth_error_replaced _ _ _ _ _ H Hlen) as [[_ ->]|Hm].
    - discriminate Hp'.
    - exact Hm. }
  assert (Inv1 : timers_owned w1).
  { apply (owned_when_fewer w w1 Inv).
    - intros m t' H Hp'. apply (Hold m t' H Hp').
    - intro a. reflexivity. }
  pose proof (Inv n t Hn Hp) as Hfired.
  destruct (t_callback t) as [a ap s c|a ap] eqn:Ecb.
  - destruct (repeat_shape now a ap s w1)
      as [[Ht Hm]|[st' [c' [Hm [Ht [Hact [Htm Hid]]]]]]].
    + apply (owned_when_fewer w1 _ Inv1).
      * intros m t' H Hp'. rewrite Ht in H. exact H.
      * exact Hm.
    + apply (owned_after_slot_update w1 _ a st' Inv1 Hm).
      intros m t' H Hp'. rewrite Ht in H.
      apply nth_error_snoc in H. destruct H as [H|[Hmn ->]].
      * destruct (Hold m t' H Hp') as [Hne Hw].
        pose proof (Inv1 m t' H Hp') as Hown.
        destruct (t_callback t') as [a' ap' s' c''|a' ap'].
        -- left. split; [|exact H]. intros ->.
           apply Hne. destruct Hown as [Hown _]. destruct Hfired as [Hf _].
           change (movement_state w1) with (movement_state w) in Hown.
           rewrite Hf in Hown. injection Hown as Hown. symmetry. exact Hown.
        -- destruct (Axis_eq_dec a' a) as [->|Hne'].
           ++ right. split; [reflexivity|]. rewrite Hid. exact Hown.
           ++ left. split; assumption.
      * cbn [t_callback]. right. split; [reflexivity|].
        split; [rewrite Htm, Hmn; reflexivity|exact Hact].
  - destruct (send_idle_if_still_inactive_frame a ap w1) as [Ht Hm].
    apply (owned_when_fewer w1 _ Inv1).
    + intros m t' H Hp'. rewrite Ht in H. exact H.
    + intro b. rewrite Hm. reflexivity.
Qed.

Lemma at_rest_timers_owned w : at_rest w -> timers_owned w.
Proof.
  intros [Ht _] n t H _. rewrite Ht in H. destruct n; discriminate.
Qed.



Lemma same_direction_refl d : same_direction d d = true.
Proof. destruct d as [[]|]; reflexivity. Qed.

Lemma same_control_type_refl c : same_control_type c c = true.
Proof. destruct c as [[]|]; reflexivity. Qed.

Lemma Qeqb_refl q : Qeqb q q = true.
Proof. apply Qeq_bool_iff. reflexivity. Qed.

(** Holding a control does not flood the device.  Unless adaptive speed
    recomputes the percentage, a second call with the arguments of the
    first changes nothing: no frame is sent and no timer is touched; the
    repeats come from the timer alone. *)
Theorem start_twice_is_start_once
    as_name d pct apcr ct axis_idx settings dev_map w :
  ptr_axis as_name && adaptive_speed_enabled settings = false ->
  start_or_update_movement as_name d pct apcr ct axis_idx settings dev_map
    (start_or_update_movement as_name d pct apcr ct axis_idx settings
       dev_map w)
  = start_or_update_movement as_name d pct apcr ct axis_idx settings
      dev_map w.
Proof.
  intro Hoff.
  destruct (start_shape as_name d pct apcr ct axis_idx settings dev_map w)
    as [E|[st' [Hm [_ [Hact [_ [_ [Hd [Hc Hp]]]]]]]]].
  { rewrite !E. reflexivity. }
  set (w' := start_or_update_movement as_name d pct apcr ct axis_idx
               settings dev_map w) in *.
  specialize (Hm as_name). rewrite Axis_eqb_refl in Hm.
  unfold start_or_update_movement at 1. cbv zeta.
  destruct (claimed_by_mapping ct axis_idx settings dev_map); [reflexivity|].
  rewrite Hoff, Hm, Hact, Hd, Hc, (Hp Hoff).
  rewrite same_direction_refl, same_control_type_refl, Qeqb_refl.
  reflexivity.
Qed.

(** Pan held to the right at half speed, adaptive speed off. *)
Lemma start_twice_is_start_once_witness :
  start_or_update_movement Pan (Some Positive) 50 Examples.plain_device
    AxisControl None (Some (Examples.switches false false false)) []
    (start_or_update_movement Pan (Some Positive) 50 Examples.plain_device
       AxisControl None (Some (Examples.switches false false false)) []
       Examples.rest_world)
  = start_or_update_movement Pan (Some Positive) 50 Examples.plain_device
      AxisControl None (Some (Examples.switches false false false)) []
      Examples.rest_world.
Proof.
  apply (start_twice_is_start_once Pan (Some Positive) 50
           Examples.plain_device AxisControl None
           (Some (Examples.switches false false false)) []
           Examples.rest_world).
  reflexivity.
Defined.

(** The frames a call of [send_movement_packet] adds are addressed to
    its axis. *)
Lemma send_movement_packet_outbox as_name d pct apcr ct settings w :
  exists l,
    outbox (send_movement_packet as_name d pct apcr ct settings w)
    = outbox w ++ l
    /\ Forall (fun p => packet_axis p = as_name) l.
Proof.
  assert (Hnil : forall a,
             exists l, outbox w = outbox w ++ l
                       /\ Forall (fun p => packet_axis p = a) l).
  { intro a. exists []. rewrite app_nil_r. split; [reflexivity|constructor]. }
  assert (Hone : forall a p, packet_axis p = a ->
             exists l, outbox (send_apcr_command w p) = outbox w ++ l
                       /\ Forall (fun p => packet_axis p = a) l).
  { intros a p Hp. exists [p]. split; [reflexivity|].
    constructor; [exact Hp|constructor]. }
  unfold send_movement_packet.
  destruct as_name;
    try (destruct (negb (fits_int16 _)); [apply Hnil|];
         match goal with
         | |- context [get_base_packet ?a ?b ?c] =>
             destruct (get_base_packet a b c) as [[data|]|e];
             try apply Hnil
         end;
         match goal with
         | |- context [match ?v with LiveAllow => _ | LiveBlock => _ end] =>
             destruct v
         end;
         [apply Hone; reflexivity|];
         match goal with
         | |- context [send_idle_frame ?a ?c ?w] =>
             destruct (send_idle_frame_cases a c w) as [E|[e' E]];
             rewrite E; [apply Hone; reflexivity|apply Hnil]
         end).
  destruct (get_zoom_packet pct d ct (camid apcr)) as [zp|] eqn:Ez.
  - exists [zp]. split.
    + unfold notify_zoom_activity.
      match goal with |- context [if ?c then _ else _] => destruct c end;
        reflexivity.
    + repeat constructor. unfold get_zoom_packet in Ez.
      cbv zeta beta in Ez.
      destruct d as [[]|]; try discriminate;
        destruct (as_int pct); try discriminate;
        match type of Ez with (if ?c then _ else _) = _ =>
          destruct c; try discriminate end;
        match type of Ez with context [bytes_fromhex ?t] =>
          destruct (bytes_fromhex t); try discriminate end;
        injection Ez as <-; reflexivity.
  - exists []. rewrite app_nil_r. split; [reflexivity|constructor].
Qed.

Lemma repeat_command_outbox now as_name apcr settings w :
  exists l,
    outbox (repeat_command now as_name apcr settings w) = outbox w ++ l
    /\ Forall (fun p => packet_axis p = as_name) l.
Proof.
  unfold repeat_command. cbv zeta.
  change (movement_state (user_input_received now w)) with (movement_state w).
  destruct (active (movement_state w as_name)).
  2:{ exists []. rewrite app_nil_r. split; [reflexivity|constructor]. }
  match goal with |- context [if predicted_block ?x then _ else _] =>
    destruct (predicted_block x) end.
  { exists []. rewrite app_nil_r. split; [reflexivity|constructor]. }
  unfold start_timer. cbn [outbox with_movement with_timers].
  match goal with
  | |- context [send_movement_packet ?a ?d ?p ?ap ?ct ?se ?w0] =>
      destruct (send_movement_packet_outbox a d p ap ct se w0) as [l [Hl Hf]];
      assert (Ho : outbox w0 = outbox w) by (destruct (Qeqb _ _); reflexivity)
  end.
  exists l. rewrite Hl, Ho. split; [reflexivity|exact Hf].
Qed.

(** An axis at rest is left alone by the timers.  In a state where every
    pending timer is held by its axis, whichever timer reaches its delay
    while an axis is inactive, the axis stays inactive, no frame that
    moves it leaves, and the timers are again all held by their axes; so
    the same holds for the next timer, and the one after. *)
Theorem resting_axis_gets_no_movement_frame now n a w :
  timers_owned w ->
  active (movement_state w a) = false ->
  timers_owned (fire_timer now n w)
  /\ active (movement_state (fire_timer now n w) a) = false
  /\ exists l,
       outbox (fire_timer now n w) = outbox w ++ l
       /\ forallb (fun p => negb (moves_axis a p)) l = true.
Proof.
  intros Inv Hrest.
  split; [apply fire_keeps_timers_owned; exact Inv|].
  unfold fire_timer.
  destruct (nth_error (timers w) n) as [t|] eqn:Hn.
  2:{ split; [exact Hrest|]. exists []. rewrite app_nil_r.
      split; reflexivity. }
  destruct (is_pending t) eqn:Hp.
  2:{ split; [exact Hrest|]. exists []. rewrite app_nil_r.
      split; reflexivity. }
  pose proof (Inv n t Hn Hp) as Hown.
  set (w1 := with_timers w _).
  destruct (t_callback t) as [a' ap s c|a' ap].
  - assert (Hne : a' <> a).
    { intros ->. destruct Hown as [_ Hact]. rewrite Hrest in Hact.
      discriminate. }
    split.
    + destruct (repeat_shape now a' ap s w1)
        as [[_ Hm]|[st' [c' [Hm _]]]]; rewrite Hm.
      * exact Hrest.
      * rewrite (Axis_eqb_neq a' a Hne). exact Hrest.
    + destruct (repeat_command_outbox now a' ap s w1) as [l [Hl Hf]].
      exists l. split; [exact Hl|].
      apply forallb_forall. intros p Hin.
      rewrite Forall_forall in Hf. specialize (Hf p Hin).
      destruct p; cbn [moves_axis negb]; try reflexivity;
        cbn [packet_axis] in *; rewrite Hf;
        rewrite Axis_eqb_neq by (intro E; apply Hne; symmetry; exact E);
        reflexivity.
  - destruct (send_idle_if_still_inactive_frame a' ap w1) as [_ Hm].
    split; [rewrite Hm; exact Hrest|].
    destruct (send_idle_if_still_inactive_cases a' ap w1)
      as [[_ E]|[E|[e E]]]; rewrite E.
    + exists [IdlePacket a' (camid ap)]. split; reflexivity.
    + exists []. rewrite app_nil_r. split; reflexivity.
    + exists []. rewrite app_nil_r. split; reflexivity.
Qed.

(** Pan started and stopped; then the first timer reaches its delay. *)
Lemma resting_axis_gets_no_movement_frame_witness :
  timers_owned
    (fire_timer 1 0
       (after_stop Pan Examples.plain_device
          (start_or_update_movement Pan (Some Positive) 50
             Examples.plain_device AxisControl None None []
             Examples.rest_world)))
  /\ active
       (movement_state
          (fire_timer 1 0
             (after_stop Pan Examples.plain_device
                (start_or_update_movement Pan (Some Positive) 50
                   Examples.plain_device AxisControl None None []
                   Examples.rest_world))) Pan) = false
  /\ exists l,
       outbox
         (fire_timer 1 0
            (after_stop Pan Examples.plain_device
               (start_or_update_movement Pan (Some Positive) 50
                  Examples.plain_device AxisControl None None []
                  Examples.rest_world)))
       = outbox
           (after_stop Pan Examples.plain_device
              (start_or_update_movement Pan (Some Positive) 50
                 Examples.plain_device AxisControl None None []
                 Examples.rest_world)) ++ l
       /\ forallb (fun p => negb (moves_axis Pan p)) l = true.
Proof.
  apply (resting_axis_gets_no_movement_frame 1 0 Pan
           (after_stop Pan Examples.plain_device
              (start_or_update_movement Pan (Some Positive) 50
                 Examples.plain_device AxisControl None None []
                 Examples.rest_world))).
  - apply stop_keeps_timers_owned, start_keeps_timers_owned,
      at_rest_timers_owned.
    split; [reflexivity|]. intro a. reflexivity.
  - reflexivity.
Defined.

End Process.

(** * The stand-alone wall check *)

Section WallCheck.
Import Controls.

Lemma inWall_ascending ws we x :
  0 <= ws -> ws <= we -> we < 360 ->
  inWall x ws we = true <-> ws <= x /\ x <= we.
Proof.
  intros H0 H1 H2.
  pose proof (pos_in_wall_ascending ws we 0 x H0 H1 H2) as H.
  unfold pos_in_wall in H. rewrite use_absolute_false in H by lra.
  exact H.
Qed.

Lemma inWall_ascending_false ws we x :
  0 <= ws -> ws <= we -> we < 360 ->
  x < ws \/ we < x -> inWall x ws we = false.
Proof.
  intros H0 H1 H2 Hx. destruct (inWall x ws we) eqn:E; [|reflexivity].
  apply (inWall_ascending ws we x H0 H1 H2) in E. lra.
Qed.

(** What [check_virtual_wall] hands back, for a wall between ascending
    bounds in [[0, 360)] less than 358 degrees wide.  From outside the
    wall a delta is handed back unchanged only if it ends outside the
    wall, and is replaced by 0 otherwise.  From inside, a delta that ends
    outside is handed back unchanged, and one that ends inside is
    replaced by a correction that leads to one degree beyond the nearer
    bound, outside the wall, over at most half the width of the wall
    plus one degree. *)
Theorem check_virtual_wall_is_safe axis current delta ws we :
  0 <= ws -> ws <= we -> we < 360 -> we - ws < 358 ->
  (inWall current ws we = false ->
   snd (check_virtual_wall axis current delta ws we) = false
   /\ (fst (check_virtual_wall axis current delta ws we) = 0
       \/ (fst (check_virtual_wall axis current delta ws we) = delta
           /\ inWall (pymod (current + delta) 360) ws we = false)))
  /\ (inWall current ws we = true ->
      inWall (pymod (current + delta) 360) ws we = false ->
      check_virtual_wall axis current delta ws we = (delta, false))
  /\ (inWall current ws we = true ->
      inWall (pymod (current + delta) 360) ws we = true ->
      snd (check_virtual_wall axis current delta ws we) = true
      /\ (current + fst (check_virtual_wall axis current delta ws we)
          == ws - 1
          \/ current + fst (check_virtual_wall axis current delta ws we)
             == we + 1)
      /\ inWall (current + fst (check_virtual_wall axis current delta ws we))
           ws we = false
      /\ pyabs (fst (check_virtual_wall axis current delta ws we))
         <= (we - ws) / 2 + 1).
Proof.
  intros H0 H1 H2 Hw. unfold check_virtual_wall.
  split; [|split].
  - intro Hc. rewrite Hc.
    destruct (inWall (pymod (current + delta) 360) ws we) eqn:Hn; cbn.
    + split; [reflexivity|left; reflexivity].
    + split; [reflexivity|right; split; reflexivity].
  - intros Hc Hn. rewrite Hn. reflexivity.
  - intros Hc Hn. rewrite Hn, Hc. cbn [fst snd].
    split; [reflexivity|].
    apply (inWall_ascending ws we current H0 H1 H2) in Hc.
    destruct Hc as [Hc1 Hc2].
    assert (Hn1 : norm360 ws == ws) by (apply pymod_small; lra).
    assert (Hn2 : norm360 we == we) by (apply pymod_small; lra).
    assert (Hlo : pymin (norm360 ws) (norm360 we) == ws).
    { unfold pymin. destruct (Qltb _ _) eqn:E; bool_to_order; lra. }
    assert (Hhi : pymax (norm360 ws) (norm360 we) == we).
    { unfold pymax. destruct (Qltb _ _) eqn:E; bool_to_order; lra. }
    set (lower := pymin (norm360 ws) (norm360 we)) in *.
    set (upper := pymax (norm360 ws) (norm360 we)) in *.
    assert (E1 : Qleb lower current = true) by (apply Qleb_spec; lra).
    assert (E2 : Qleb current upper = true) by (apply Qleb_spec; lra).
    rewrite E1, E2.
    assert (Hhalf : (we - ws) / 2 == (1 # 2) * (we - ws)) by field.
    destruct (Qltb (current - lower) (upper - current)) eqn:E;
      bool_to_order.
    + assert (Ed : pymod (pymod (lower - 1) 360 - current + 540) 360 - 180
                   == ws - 1 - current).
      { apply (correction_of_exact (pymod (lower - 1) 360) current
                 (ws - 1 - current)); try lra.
        apply same_heading_add; [|apply same_heading_eq; reflexivity].
        eapply same_heading_trans; [apply same_heading_pymod|].
        apply same_heading_eq. lra. }
      split; [left; rewrite Ed; ring|].
      split.
      * apply inWall_ascending_false; try assumption. left. rewrite Ed. lra.
      * rewrite Hhalf.
        destruct (pyabs_spec
                    (pymod (pymod (lower - 1) 360 - current + 540) 360 - 180))
          as [[_ Ea]|[_ Ea]]; rewrite Ea, Ed; lra.
    + assert (Ed : pymod (pymod (upper + 1) 360 - current + 540) 360 - 180
                   == we + 1 - current).
      { apply (correction_of_exact (pymod (upper + 1) 360) current
                 (we + 1 - current)); try lra.
        apply same_heading_add; [|apply same_heading_eq; reflexivity].
        eapply same_heading_trans; [apply same_heading_pymod|].
        apply same_heading_eq. lra. }
      split; [right; rewrite Ed; ring|].
      split.
      * apply inWall_ascending_false; try assumption. right. rewrite Ed. lra.
      * rewrite Hhalf.
        destruct (pyabs_spec
                    (pymod (pymod (upper + 1) 360 - current + 540) 360 - 180))
          as [[_ Ea]|[_ Ea]]; rewrite Ea, Ed; lra.
Qed.

(** The wall between 100 and 200, the axis at 150, a delta of 5. *)
Lemma check_virtual_wall_is_safe_witness :
  (inWall 150 100 200 = false ->
   snd (check_virtual_wall WPan 150 5 100 200) = false
   /\ (fst (check_virtual_wall WPan 150 5 100 200) = 0
       \/ (fst (check_virtual_wall WPan 150 5 100 200) = 5
           /\ inWall (pymod (150 + 5) 360) 100 200 = false)))
  /\ (inWall 150 100 200 = true ->
      inWall (pymod (150 + 5) 360) 100 200 = false ->
      check_virtual_wall WPan 150 5 100 200 = (5, false))
  /\ (inWall 150 100 200 = true ->
      inWall (pymod (150 + 5) 360) 100 200 = true ->
      snd (check_virtual_wall WPan 150 5 100 200) = true
      /\ (150 + fst (check_virtual_wall WPan 150 5 100 200) == 100 - 1
          \/ 150 + fst (check_virtual_wall WPan 150 5 100 200) == 200 + 1)
      /\ inWall (150 + fst (check_virtual_wall WPan 150 5 100 200))
           100 200 = false
      /\ pyabs (fst (check_virtual_wall WPan 150 5 100 200))
         <= (200 - 100) / 2 + 1).
Proof.
  apply (check_virtual_wall_is_safe WPan 150 5 100 200).
  - vm_compute. discriminate.
  - vm_compute. discriminate.
  - vm_compute. reflexivity.
  - vm_compute. reflexivity.
Defined.

End WallCheck.

(** * One pass of the movement loop *)

Section MoveSegment.
Import Presets.

Lemma clamp_between val b :
  0 <= b ->
  - b <= clamp val (- b) b /\ clamp val (- b) b <= b
  /\ pyabs (clamp val (- b) b) <= pyabs val
  /\ (0 < val -> 0 < b -> 0 < clamp val (- b) b)
  /\ (val < 0 -> 0 < b -> clamp val (- b) b < 0)
  /\ (0 <= val -> 0 <= clamp val (- b) b)
  /\ (val <= 0 -> clamp val (- b) b <= 0).
Proof.
  intro Hb.
  assert (Hc : (clamp val (- b) b == b /\ b <= val)
               \/ (clamp val (- b) b == val /\ - b <= val /\ val <= b)
               \/ (clamp val (- b) b == - b /\ val <= - b)).
  { unfold clamp, pymax, pymin.
    destruct (Qltb b val) eqn:E1; bool_to_order.
    - destruct (Qltb (- b) b) eqn:E2; bool_to_order.
      + left. split; [reflexivity|lra].
      + left. split; lra.
    - destruct (Qltb (- b) val) eqn:E2; bool_to_order.
      + right. left. split; [reflexivity|lra].
      + right. right. split; [reflexivity|lra]. }
  set (c := clamp val (- b) b) in *. clearbody c.
  destruct (pyabs_spec c) as [[Hs Ea]|[Hs Ea]];
    destruct (pyabs_spec val) as [[Hv Ev]|[Hv Ev]];
    rewrite Ea, Ev;
    destruct Hc as [[Ec Hc]|[[Ec Hc]|[Ec Hc]]];
    repeat split; intros; lra.
Qed.

Lemma scaled_step_bounds a f :
  0 <= a -> 0 <= f -> f <= 1 -> 0 <= a * f /\ a * f <= a.
Proof.
  intros Ha Hf0 Hf1. split; nra.
Qed.

Lemma approach_factor_bounds x :
  3 # 10 <= pymax (3 # 10) (pymin 1 x) /\ pymax (3 # 10) (pymin 1 x) <= 1.
Proof.
  unfold pymax, pymin.
  destruct (Qltb x 1) eqn:E1; bool_to_order.
  - destruct (Qltb (3 # 10) x) eqn:E2; bool_to_order; split; lra.
  - destruct (Qltb (3 # 10) 1) eqn:E2; bool_to_order; split; lra.
Qed.

Lemma st_pan_max_bounds speed :
  0 <= speed ->
  0 <= pymin (MAX_STEP_SIZE_PAN * speed / 100) 90
  /\ pymin (MAX_STEP_SIZE_PAN * speed / 100) 90 <= 90
  /\ (0 < speed -> 0 < pymin (MAX_STEP_SIZE_PAN * speed / 100) 90).
Proof.
  intro H. unfold MAX_STEP_SIZE_PAN.
  assert (E : 140 * speed / 100 == (14 # 10) * speed) by field.
  unfold pymin.
  destruct (Qltb 90 (140 * speed / 100)) eqn:E1; bool_to_order;
    rewrite ?E in *; repeat split; intros; lra.
Qed.

(** The step sizes of a pass: the pan step lies between 0 and 90 (and is
    positive for a positive speed), the tilt and roll steps between 0 and
    their shares of the speed. *)
Lemma pan_step_size_bounds speed fd eased :
  0 <= speed ->
  0 <= (if eased : bool
        then (if Qltb (pyabs fd) 20
              then pymin (MAX_STEP_SIZE_PAN * speed / 100) 90
                   * pymax (3 # 10) (pymin 1 (pyabs fd / 20))
              else pymin (MAX_STEP_SIZE_PAN * speed / 100) 90) * (1 # 2)
        else (if Qltb (pyabs fd) 20
              then pymin (MAX_STEP_SIZE_PAN * speed / 100) 90
                   * pymax (3 # 10) (pymin 1 (pyabs fd / 20))
              else pymin (MAX_STEP_SIZE_PAN * speed / 100) 90))
  /\ (if eased
      then (if Qltb (pyabs fd) 20
            then pymin (MAX_STEP_SIZE_PAN * speed / 100) 90
                 * pymax (3 # 10) (pymin 1 (pyabs fd / 20))
            else pymin (MAX_STEP_SIZE_PAN * speed / 100) 90) * (1 # 2)
      else (if Qltb (pyabs fd) 20
            then pymin (MAX_STEP_SIZE_PAN * speed / 100) 90
                 * pymax (3 # 10) (pymin 1 (pyabs fd / 20))
            else pymin (MAX_STEP_SIZE_PAN * speed / 100) 90)) <= 90
  /\ (0 < speed ->
      0 < (if eased
           then (if Qltb (pyabs fd) 20
                 then pymin (MAX_STEP_SIZE_PAN * speed / 100) 90
                      * pymax (3 # 10) (pymin 1 (pyabs fd / 20))
                 else pymin (MAX_STEP_SIZE_PAN * speed / 100) 90) * (1 # 2)
           else (if Qltb (pyabs fd) 20
                 then pymin (MAX_STEP_SIZE_PAN * speed / 100) 90
                      * pymax (3 # 10) (pymin 1 (pyabs fd / 20))
                 else pymin (MAX_STEP_SIZE_PAN * speed / 100) 90))).
Proof.
  intro Hs.
  destruct (st_pan_max_bounds speed Hs) as [A0 [A90 Apos]].
  destruct (approach_factor_bounds (pyabs fd / 20)) as [F0 F1].
  set (a := pymin (MAX_STEP_SIZE_PAN * speed / 100) 90) in *.
  set (f := pymax (3 # 10) (pymin 1 (pyabs fd / 20))) in *.
  clearbody a f.
  destruct eased; destruct (Qltb (pyabs fd) 20);
    repeat split; intros; try specialize (Apos ltac:(assumption)); nra.
Qed.

(** Every pass of the loop moves each axis towards its target by a
    bounded step.  For a speed between 0 and 100 the pan move is at most
    90 degrees and at most the folded distance to the target, the tilt
    and roll moves are at most their distances and at most [speed] and
    [speed / 2] degrees; pan counts as done exactly when the folded
    distance is within one degree; and with the preset wall off the pan
    move has the sign of the folded distance, the short way round. *)
Theorem ptr_step_is_bounded speed direction virtual_wall_active
    tgtPan localPan_ tgtTilt cTilt tgtRoll cRoll last_dp_sign
    overshoot_count :
  0 <= speed -> speed <= 100 ->
  pyabs (mv_p (ptr_step speed direction virtual_wall_active tgtPan localPan_
                 tgtTilt cTilt tgtRoll cRoll last_dp_sign overshoot_count))
  <= 90
  /\ pyabs (mv_p (ptr_step speed direction virtual_wall_active tgtPan
                    localPan_ tgtTilt cTilt tgtRoll cRoll last_dp_sign
                    overshoot_count))
     <= pyabs (folded_delta tgtPan localPan_)
  /\ pyabs (mv_t (ptr_step speed direction virtual_wall_active tgtPan
                    localPan_ tgtTilt cTilt tgtRoll cRoll last_dp_sign
                    overshoot_count))
     <= pyabs (tgtTilt - cTilt)
  /\ pyabs (mv_t (ptr_step speed direction virtual_wall_active tgtPan
                    localPan_ tgtTilt cTilt tgtRoll cRoll last_dp_sign
                    overshoot_count))
     <= speed
  /\ pyabs (mv_r (ptr_step speed direction virtual_wall_active tgtPan
                    localPan_ tgtTilt cTilt tgtRoll cRoll last_dp_sign
                    overshoot_count))
     <= pyabs (tgtRoll - cRoll)
  /\ pyabs (mv_r (ptr_step speed direction virtual_wall_active tgtPan
                    localPan_ tgtTilt cTilt tgtRoll cRoll last_dp_sign
                    overshoot_count))
     <= speed / 2
  /\ doneP (ptr_step speed direction virtual_wall_active tgtPan localPan_
              tgtTilt cTilt tgtRoll cRoll last_dp_sign overshoot_count)
     = Qleb (pyabs (folded_delta tgtPan localPan_)) 1
  /\ (virtual_wall_active = false ->
      (0 <= folded_delta tgtPan localPan_ ->
       0 <= mv_p (ptr_step speed direction virtual_wall_active tgtPan
                    localPan_ tgtTilt cTilt tgtRoll cRoll last_dp_sign
                    overshoot_count))
      /\ (folded_delta tgtPan localPan_ <= 0 ->
          mv_p (ptr_step speed direction virtual_wall_active tgtPan
                  localPan_ tgtTilt cTilt tgtRoll cRoll last_dp_sign
                  overshoot_count) <= 0)).
Proof.
  intros Hs0 Hs100.
  unfold ptr_step. cbv zeta. cbn [mv_p mv_t mv_r doneP].
  set (fd := folded_delta tgtPan localPan_).
  set (od := match last_dp_sign with
             | Some l => _
             | None => false
             end).
  set (keep := Qleb (pyabs fd) (EASE_MARGIN * 3) || od
               || (2 <=? (if od then S overshoot_count else overshoot_count))%nat
               || negb virtual_wall_active).
  set (dp := if keep then fd
             else if ((direction =? 1)%Z && Qltb fd 0)
                     || ((direction =? -1)%Z && Qltb 0 fd)
                  then - fd else fd).
  assert (Hdp : pyabs dp == pyabs fd
                /\ (keep = true -> dp = fd)).
  { subst dp. destruct keep; [split; [reflexivity|reflexivity]|].
    split; [|discriminate].
    destruct (_ || _); [|reflexivity].
    destruct (pyabs_spec (- fd)) as [[H1 E1]|[H1 E1]];
      destruct (pyabs_spec fd) as [[H2 E2]|[H2 E2]];
      rewrite E1, E2; lra. }
  destruct Hdp as [Habs Hkeep].
  set (eased := Qltb _ _).
  destruct (pan_step_size_bounds speed fd eased Hs0) as [P0 [P90 _]].
  set (p_st := if eased then _ else _) in *.
  assert (Ht : 0 <= (if eased then MAX_STEP_SIZE_TILT * speed / 100 * (1 # 2)
                     else MAX_STEP_SIZE_TILT * speed / 100)
               /\ (if eased then MAX_STEP_SIZE_TILT * speed / 100 * (1 # 2)
                   else MAX_STEP_SIZE_TILT * speed / 100) <= speed).
  { unfold MAX_STEP_SIZE_TILT.
    assert (E : 100 * speed / 100 == speed) by field.
    destruct eased; rewrite E; split; lra. }
  assert (Hr : 0 <= (if eased then MAX_STEP_SIZE_ROLL * speed / 100 * (1 # 2)
                     else MAX_STEP_SIZE_ROLL * speed / 100)
               /\ (if eased then MAX_STEP_SIZE_ROLL * speed / 100 * (1 # 2)
                   else MAX_STEP_SIZE_ROLL * speed / 100) <= speed / 2).
  { unfold MAX_STEP_SIZE_ROLL.
    assert (E : 50 * speed / 100 == (1 # 2) * speed) by field.
    assert (E' : speed / 2 == (1 # 2) * speed) by field.
    destruct eased; rewrite E, E'; split; lra. }
  set (t_st := if eased then _ else MAX_STEP_SIZE_TILT * speed / 100) in *.
  set (r_st := if eased then _ else MAX_STEP_SIZE_ROLL * speed / 100) in *.
  clearbody p_st t_st r_st.
  destruct (clamp_between dp p_st P0) as [Cp1 [Cp2 [Cp3 [_ [_ [Cp6 Cp7]]]]]].
  destruct (clamp_between (tgtTilt - cTilt) t_st (proj1 Ht))
    as [Ct1 [Ct2 [Ct3 _]]].
  destruct (clamp_between (tgtRoll - cRoll) r_st (proj1 Hr))
    as [Cr1 [Cr2 [Cr3 _]]].
  assert (Bound : forall c b, - b <= c -> c <= b -> pyabs c <= b).
  { intros c b H1 H2.
    destruct (pyabs_spec c) as [[_ E]|[_ E]]; rewrite E; lra. }
  split; [apply Bound; lra|].
  split; [rewrite <- Habs; exact Cp3|].
  split; [exact Ct3|].
  split; [apply Bound; lra|].
  split; [exact Cr3|].
  split; [apply Bound; lra|].
  split.
  { unfold EASE_MARGIN, Qleb. rewrite Habs. reflexivity. }
  intro Hoff.
  assert (Hk : keep = true).
  { subst keep. rewrite Hoff. cbn [negb]. apply orb_true_r. }
  split; intro H; [apply Cp6|apply Cp7]; rewrite (Hkeep Hk); exact H.
Qed.

(** A pass at half speed from pan 50 towards pan 250. *)
Lemma ptr_step_is_bounded_witness :
  pyabs (mv_p (ptr_step 50 1 true 250 50 0 0 0 0 None 0)) <= 90
  /\ pyabs (mv_p (ptr_step 50 1 true 250 50 0 0 0 0 None 0))
     <= pyabs (folded_delta 250 50)
  /\ pyabs (mv_t (ptr_step 50 1 true 250 50 0 0 0 0 None 0)) <= pyabs (0 - 0)
  /\ pyabs (mv_t (ptr_step 50 1 true 250 50 0 0 0 0 None 0)) <= 50
  /\ pyabs (mv_r (ptr_step 50 1 true 250 50 0 0 0 0 None 0)) <= pyabs (0 - 0)
  /\ pyabs (mv_r (ptr_step 50 1 true 250 50 0 0 0 0 None 0)) <= 50 / 2
  /\ doneP (ptr_step 50 1 true 250 50 0 0 0 0 None 0)
     = Qleb (pyabs (folded_delta 250 50)) 1
  /\ (true = false ->
      (0 <= folded_delta 250 50 ->
       0 <= mv_p (ptr_step 50 1 true 250 50 0 0 0 0 None 0))
      /\ (folded_delta 250 50 <= 0 ->
          mv_p (ptr_step 50 1 true 250 50 0 0 0 0 None 0) <= 0)).
Proof.
  apply (ptr_step_is_bounded 50 1 true 250 50 0 0 0 0 None 0).
  - vm_compute. discriminate.
  - vm_compute. discriminate.
Defined.

(** With the preset wall on, a pass that is at least 5 degrees from the
    target and has seen fewer than two overshoots turns the way the
    planner chose, whichever way is shorter: the pan move is not zero and
    has the sign of [direction]; pan is not done, and no overshoot is
    counted. *)
Theorem ptr_step_follows_the_plan speed direction
    tgtPan localPan_ tgtTilt cTilt tgtRoll cRoll last_dp_sign
    overshoot_count :
  0 < speed ->
  (direction = 1 \/ direction = -1)%Z ->
  5 <= pyabs (folded_delta tgtPan localPan_) ->
  (overshoot_count < 2)%nat ->
  (if (direction =? 1)%Z
   then 0 < mv_p (ptr_step speed direction true tgtPan localPan_ tgtTilt
                    cTilt tgtRoll cRoll last_dp_sign overshoot_count)
   else mv_p (ptr_step speed direction true tgtPan localPan_ tgtTilt
                cTilt tgtRoll cRoll last_dp_sign overshoot_count) < 0)
  /\ doneP (ptr_step speed direction true tgtPan localPan_ tgtTilt cTilt
              tgtRoll cRoll last_dp_sign overshoot_count) = false
  /\ next_overshoot_count
       (ptr_step speed direction true tgtPan localPan_ tgtTilt cTilt
          tgtRoll cRoll last_dp_sign overshoot_count)
     = overshoot_count.
Proof.
  intros Hs Hdir Hfar Hcount.
  unfold ptr_step. cbv zeta. cbn [mv_p doneP next_overshoot_count].
  set (fd := folded_delta tgtPan localPan_) in *.
  assert (H5 : Qltb (pyabs fd) (EASE_MARGIN * 5) = false).
  { unfold EASE_MARGIN. destruct (Qltb _ _) eqn:E; bool_to_order;
      [lra|reflexivity]. }
  assert (H3 : Qleb (pyabs fd) (EASE_MARGIN * 3) = false).
  { unfold EASE_MARGIN. destruct (Qleb _ _) eqn:E; bool_to_order;
      [lra|reflexivity]. }
  assert (Hod : match last_dp_sign with
                | Some l =>
                    negb ((if Qleb 0 fd then 1 else -1) =? l)%Z
                    && Qltb (pyabs fd) (EASE_MARGIN * 5)
                | None => false
                end = false).
  { destruct last_dp_sign; [|reflexivity]. rewrite H5. apply andb_false_r. }
  rewrite Hod, H3. cbn [orb negb].
  assert (Hc : (2 <=? overshoot_count)%nat = false)
    by (apply Nat.leb_gt; exact Hcount).
  rewrite Hc. cbn [orb].
  set (dp := if _ || _ then - fd else fd).
  assert (Hdp : pyabs dp == pyabs fd
                /\ if (direction =? 1)%Z then 0 < dp else dp < 0).
  { subst dp.
    destruct (pyabs_spec fd) as [[Hf Ef]|[Hf Ef]]; rewrite Ef in Hfar;
      destruct Hdir as [-> | ->]; cbn [Z.eqb Pos.eqb andb orb].
    - assert (E : Qltb fd 0 = false)
        by (destruct (Qltb fd 0) eqn:E; bool_to_order; [lra|reflexivity]).
      rewrite E. cbn [orb]. split; [reflexivity|lra].
    - assert (E : Qltb 0 fd = true) by (apply Qltb_spec; lra).
      rewrite E. cbn [orb]. split; [|lra].
      destruct (pyabs_spec (- fd)) as [[H1 E1]|[H1 E1]]; rewrite E1, Ef; lra.
    - assert (E : Qltb fd 0 = true) by (apply Qltb_spec; lra).
      rewrite E. cbn [orb]. split; [|lra].
      destruct (pyabs_spec (- fd)) as [[H1 E1]|[H1 E1]]; rewrite E1, Ef; lra.
    - assert (E : Qltb 0 fd = false)
        by (destruct (Qltb 0 fd) eqn:E; bool_to_order; [lra|reflexivity]).
      rewrite E. cbn [orb]. split; [reflexivity|lra]. }
  destruct Hdp as [Habs Hsign].
  set (eased := Qltb _ _).
  assert (Hs0 : 0 <= speed) by lra.
  destruct (pan_step_size_bounds speed fd eased Hs0) as [P0 [_ Ppos]].
  specialize (Ppos Hs).
  set (p_st := if eased then _ else _) in *. clearbody p_st.
  destruct (clamp_between dp p_st P0) as [_ [_ [_ [Cpos [Cneg _]]]]].
  split.
  - destruct (direction =? 1)%Z; [apply Cpos|apply Cneg]; assumption.
  - split; [|reflexivity].
    unfold EASE_MARGIN.
    destruct (Qleb (pyabs dp) 1) eqn:E; [|reflexivity].
    bool_to_order. rewrite Habs in E. lra.
Qed.

(** From pan 50 to pan 250 in direction 1, the short way being the other
    way round the circle. *)
Lemma ptr_step_follows_the_plan_witness :
  (if (1 =? 1)%Z
   then 0 < mv_p (ptr_step 50 1 true 250 50 0 0 0 0 None 0)
   else mv_p (ptr_step 50 1 true 250 50 0 0 0 0 None 0) < 0)
  /\ doneP (ptr_step 50 1 true 250 50 0 0 0 0 None 0) = false
  /\ next_overshoot_count (ptr_step 50 1 true 250 50 0 0 0 0 None 0) = 0%nat.
Proof.
  apply (ptr_step_follows_the_plan 50 1 250 50 0 0 0 0 None 0).
  - vm_compute. reflexivity.
  - left. reflexivity.
  - vm_compute. discriminate.
  - lia.
Defined.

End MoveSegment.

(** * The frames of a recall on the wire *)

Section Frames.
Import Hex Wire Ascii String.

(** The two bytes of a signed 16-bit value, and the value they carry. *)
Lemma le16_bytes (v : Z) :
  (-32768 <= v <= 32767)%Z ->
  (0 <= (v mod 65536) mod 256 < 256)%Z
  /\ (0 <= (v mod 65536) / 256 < 256)%Z
  /\ le16_signed ((v mod 65536) mod 256) ((v mod 65536) / 256) = v.
Proof.
  intro Hv.
  assert (Hu : (0 <= v mod 65536 < 65536)%Z) by (apply Z.mod_pos_bound; lia).
  split; [apply Z.mod_pos_bound; lia|].
  split.
  { split; [apply Z.div_pos; lia|].
    apply Z.div_lt_upper_bound; lia. }
  unfold le16_signed.
  assert (E : ((v mod 65536) mod 256 + 256 * ((v mod 65536) / 256)
               = v mod 65536)%Z).
  { rewrite Z.add_comm. symmetry. apply Z.div_mod. lia. }
  rewrite E.
  destruct (Z_lt_le_dec v 0) as [Hneg|Hpos].
  - assert (Em : (v mod 65536 = v + 65536)%Z).
    { symmetry. apply (Z.mod_unique v 65536 (-1)); lia. }
    rewrite Em.
    destruct (v + 65536 <? 32768)%Z eqn:El;
      [apply Z.ltb_lt in El; lia|lia].
  - rewrite Z.mod_small by lia.
    destruct (v <? 32768)%Z eqn:El; [reflexivity|].
    apply Z.ltb_ge in El. lia.
Qed.

Lemma clamp_int_range v lo hi :
  (lo <= hi)%Z -> (lo <= clamp_int v lo hi <= hi)%Z.
Proof. unfold clamp_int. lia. Qed.

(** [round] stays within half a unit of its argument. *)
Lemma py_round_near x :
  inject_Z (py_round x) - (1 # 2) <= x /\ x <= inject_Z (py_round x) + (1 # 2).
Proof.
  unfold py_round.
  pose proof (Qfloor_le x) as Hlo. pose proof (Qlt_floor x) as Hhi.
  rewrite inject_Z_plus in Hhi. change (inject_Z 1) with 1 in Hhi.
  set (f := Qfloor x) in *.
  destruct (Qltb (x - inject_Z f) (1 # 2)) eqn:E1; bool_to_order.
  - split; lra.
  - assert (Hup : inject_Z (f + 1) == inject_Z f + 1).
    { rewrite inject_Z_plus. reflexivity. }
    destruct (Qltb (1 # 2) (x - inject_Z f)) eqn:E2; bool_to_order.
    + rewrite Hup. split; lra.
    + destruct (Z.even f); [split; lra|rewrite Hup; split; lra].
Qed.

Lemma py_round_between x (a b : Z) :
  inject_Z a <= x -> x <= inject_Z b -> (a <= py_round x <= b)%Z.
Proof.
  intros Ha Hb.
  destruct (py_round_near x) as [H1 H2].
  split.
  - destruct (Z_lt_le_dec (py_round x) a) as [Hlt|Hge]; [|exact Hge].
    exfalso.
    assert (Hq : inject_Z (py_round x) + 1 <= inject_Z a).
    { change 1 with (inject_Z 1). rewrite <- inject_Z_plus.
      rewrite <- Zle_Qle. lia. }
    unfold py_round in *.
    pose proof (Qfloor_le x) as Hlo. pose proof (Qlt_floor x) as Hhi.
    rewrite inject_Z_plus in Hhi. change (inject_Z 1) with 1 in Hhi.
    set (f := Qfloor x) in *.
    assert (Hfa : (a <= f)%Z).
    { unfold f. rewrite <- (Qfloor_Z a). apply Qfloor_resp_le. exact Ha. }
    destruct (Qltb (x - inject_Z f) (1 # 2)); [lia|].
    destruct (Qltb (1 # 2) (x - inject_Z f)); [lia|].
    destruct (Z.even f); lia.
  - destruct (Z_lt_le_dec b (py_round x)) as [Hlt|Hge]; [|exact Hge].
    exfalso.
    unfold py_round in *.
    pose proof (Qfloor_le x) as Hlo. pose proof (Qlt_floor x) as Hhi.
    rewrite inject_Z_plus in Hhi. change (inject_Z 1) with 1 in Hhi.
    set (f := Qfloor x) in *.
    assert (Hfb : (f <= b)%Z).
    { unfold f. rewrite <- (Qfloor_Z b). apply Qfloor_resp_le. exact Hb. }
    assert (Hcase : (f < b)%Z \/ f = b) by lia.
    destruct Hcase as [Hcase|Hcase].
    + destruct (Qltb (x - inject_Z f) (1 # 2)); [lia|].
      destruct (Qltb (1 # 2) (x - inject_Z f)); [lia|].
      destruct (Z.even f); lia.
    + assert (Hx : x == inject_Z f).
      { rewrite Hcase in *. lra. }
      assert (E1 : Qltb (x - inject_Z f) (1 # 2) = true).
      { apply Qltb_spec. lra. }
      rewrite E1 in Hlt. lia.
Qed.

Lemma two_pow_Z (k : Z) : (0 <= k)%Z -> 2 ^ k == inject_Z (2 ^ k).
Proof. intro H. rewrite Zpower_Qpower by exact H. reflexivity. Qed.

(** The exponent [floor_log2] finds is not too large. *)
Lemma floor_log2_le x : 0 < x -> 2 ^ floor_log2 x <= x.
Proof.
  intro Hx. unfold floor_log2.
  destruct (Qleb _ x) eqn:E.
  { apply Qle_bool_iff. exact E. }
  clear E. destruct x as [n d].
  assert (Hn : (0 < n)%Z).
  { unfold Qlt in Hx. simpl in Hx. lia. }
  cbn [Qnum Qden].
  set (a := Z.log2 n). set (b := Z.log2 (Z.pos d)).
  assert (Ha : (0 <= a)%Z) by apply Z.log2_nonneg.
  assert (Hb : (0 <= b)%Z) by apply Z.log2_nonneg.
  destruct (Z.log2_spec n Hn) as [Hlo _]. fold a in Hlo.
  destruct (Z.log2_spec (Z.pos d) (Pos2Z.is_pos d)) as [_ Hhi].
  fold b in Hhi.
  replace (a - b - 1)%Z with (a - (b + 1))%Z by lia.
  rewrite Qpower_minus by (intro H; discriminate H).
  rewrite (two_pow_Z a Ha), (two_pow_Z (b + 1)) by lia.
  rewrite (Qmake_Qdiv n d).
  assert (HA : (0 < 2 ^ a)%Z) by (apply Z.pow_pos_nonneg; lia).
  assert (HB : (0 < 2 ^ (b + 1))%Z) by (apply Z.pow_pos_nonneg; lia).
  unfold Z.succ in Hhi.
  set (A := (2 ^ a)%Z) in *. set (B := (2 ^ (b + 1))%Z) in *.
  assert (HqB : 0 < inject_Z B).
  { change 0 with (inject_Z 0). rewrite <- Zlt_Qlt. exact HB. }
  assert (HqD : 0 < inject_Z (Z.pos d)).
  { change 0 with (inject_Z 0). rewrite <- Zlt_Qlt. lia. }
  apply Qle_shift_div_l; [exact HqD|].
  assert (Hm : inject_Z A * inject_Z (Z.pos d) <= inject_Z n * inject_Z B).
  { rewrite <- !inject_Z_mult. rewrite <- Zle_Qle. nia. }
  assert (E : inject_Z A / inject_Z B * inject_Z (Z.pos d)
              == inject_Z A * inject_Z (Z.pos d) / inject_Z B).
  { field. intro H. rewrite H in HqB. apply (Qlt_irrefl 0). exact HqB. }
  rewrite E. apply Qle_shift_div_r; [exact HqB|exact Hm].
Qed.

Lemma pyabs_pos x : ~ x == 0 -> 0 < pyabs x.
Proof.
  intro H. unfold pyabs, Qltb.
  destruct (Qle_bool 0 x) eqn:E; cbn [negb].
  - apply Qle_bool_iff in E.
    destruct (Qle_lt_or_eq _ _ E) as [Hl|He]; [exact Hl|].
    exfalso. apply H. symmetry. exact He.
  - assert (Hn : ~ 0 <= x) by (intro Hc; apply Qle_bool_iff in Hc; congruence).
    lra.
Qed.

(** A float operation is off by at most half a unit in the last place of
    its result. *)
Lemma b64_near x k :
  pyabs x <= 2 ^ k ->
  b64 x - (1 # 2) * 2 ^ (k - 52) <= x /\ x <= b64 x + (1 # 2) * 2 ^ (k - 52).
Proof.
  intro Hk. unfold b64.
  assert (HU : 0 < 2 ^ (k - 52)) by (apply Qpower_0_lt; reflexivity).
  destruct (Qeqb x 0) eqn:E0.
  { apply Qeq_bool_iff in E0. rewrite E0. split; lra. }
  assert (Hx0 : ~ x == 0).
  { intro H. apply Qeq_bool_iff in H. unfold Qeqb in E0. congruence. }
  pose proof (floor_log2_le (pyabs x) (pyabs_pos x Hx0)) as He.
  set (e := floor_log2 (pyabs x)) in *.
  assert (Hek : (e <= k)%Z).
  { apply (Qpower_le_compat_l_inv 2); [|reflexivity]. lra. }
  assert (Hu : 2 ^ (e - 52) <= 2 ^ (k - 52)).
  { apply Qpower_le_compat_l; [lia|]. discriminate. }
  assert (Hu0 : 0 < 2 ^ (e - 52)) by (apply Qpower_0_lt; reflexivity).
  set (u := 2 ^ (e - 52)) in *. set (U := 2 ^ (k - 52)) in *.
  destruct (py_round_near (x / u)) as [H1 H2].
  set (r := inject_Z (py_round (x / u))) in *.
  assert (Ex : x == (x / u) * u) by (field; lra).
  set (y := x / u) in *. clearbody y r u U.
  rewrite Ex. split; nra.
Qed.

(** The float literals [13.48] and [13.365]: the values binary64 holds
    for them. *)
Example SCALES_are_the_float_literals :
  SCALES Controls.Pan == 3794282686059643 # 281474976710656
  /\ SCALES Controls.Tilt == 7523826127475835 # 562949953421312
  /\ SCALES Controls.Roll == 7523826127475835 # 562949953421312.
Proof. repeat split; vm_compute; reflexivity. Qed.

Lemma SCALES_near axis :
  axis_scale axis - (1 # 100000000000000) <= SCALES axis
  /\ SCALES axis <= axis_scale axis + (1 # 100000000000000).
Proof.
  destruct axis; split; apply Qle_bool_iff; vm_compute; reflexivity.
Qed.

(** Within 2400 degrees the float product stays within [2 ^ -38] of
    itself when rounded to binary64, and within the signed 16-bit
    range. *)
Lemma scaled_degrees_near axis degrees :
  -(2400) <= degrees -> degrees <= 2400 ->
  b64 (degrees * SCALES axis) - (1 # 274877906944) <= degrees * SCALES axis
  /\ degrees * SCALES axis
     <= b64 (degrees * SCALES axis) + (1 # 274877906944)
  /\ degrees * axis_scale axis - (1 # 10000000000)
     <= degrees * SCALES axis
  /\ degrees * SCALES axis
     <= degrees * axis_scale axis + (1 # 10000000000)
  /\ -(32400) <= degrees * axis_scale axis
  /\ degrees * axis_scale axis <= 32400.
Proof.
  intros Hd1 Hd2.
  destruct (SCALES_near axis) as [Hs1 Hs2].
  assert (Ha : 13 <= axis_scale axis /\ axis_scale axis <= 1348 # 100).
  { unfold axis_scale. destruct axis; split; lra. }
  destruct Ha as [Ha1 Ha2].
  set (S := SCALES axis) in *. set (A := axis_scale axis) in *.
  clearbody S A.
  assert (Hx : pyabs (degrees * S) <= 2 ^ 15).
  { change (2 ^ 15) with 32768. unfold pyabs.
    destruct (Qltb (degrees * S) 0); nra. }
  destruct (b64_near (degrees * S) 15 Hx) as [Hb1 Hb2].
  assert (E : (1 # 2) * 2 ^ (15 - 52) == 1 # 274877906944)
    by (vm_compute; reflexivity).
  rewrite E in Hb1, Hb2.
  split; [exact Hb1|]. split; [exact Hb2|].
  repeat split; nra.
Qed.

(** A pan, tilt or roll frame of a recall, for a camera id that fits one
    byte: the string parses into 11 bytes, the header, the camera id, the
    command of the axis, the relative or absolute marker, and two bytes
    that carry, as a little-endian signed 16-bit number, the float
    product of the degrees and the scale of the axis, rounded to an
    integer and clamped to the 16-bit range.  Within 2400 degrees either
    way nothing is clamped, and the number sent is within half a unit,
    and the float error of at most [1e-9], of the degrees times 13.48
    for pan and 13.365 for tilt and roll. *)
Theorem pan_tilt_roll_frame_carries_the_move camid axis degrees relative :
  (0 <= camid <= 255)%Z ->
  axis <> Controls.Zoom ->
  exists packet lo hi,
    build_pan_tilt_roll_packet camid axis degrees relative = Some packet
    /\ fromhex packet
       = Some [10; camid; 6; 0; 0; 14; axis_command axis;
               if relative then 128 else 129; 0; lo; hi]%Z
    /\ (0 <= lo < 256)%Z /\ (0 <= hi < 256)%Z
    /\ le16_signed lo hi
       = clamp_int (py_round (b64 (degrees * SCALES axis))) (-32768) 32767
    /\ (-(2400) <= degrees -> degrees <= 2400 ->
        le16_signed lo hi = py_round (b64 (degrees * SCALES axis))
        /\ inject_Z (le16_signed lo hi) - (1 # 2) - (1 # 1000000000)
           <= degrees * axis_scale axis
        /\ degrees * axis_scale axis
           <= inject_Z (le16_signed lo hi) + (1 # 2) + (1 # 1000000000)).
Proof.
  intros Hcam Hax.
  set (sval := clamp_int (py_round (b64 (degrees * SCALES axis)))
                 (-32768) 32767).
  assert (Hs : (-32768 <= sval <= 32767)%Z)
    by (apply clamp_int_range; lia).
  destruct (le16_bytes sval Hs) as [Hlo [Hhi Hval]].
  exists (String.append "0A"
            (String.append (format_02 true camid)
               (String.append
                  (String.append "0600000E"
                     (String.append
                        (match axis with
                         | Controls.Pan => "06"
                         | Controls.Tilt => "07"
                         | _ => "08"
                         end)
                        (String.append (if relative then "80" else "81")
                           "00")))
                  (le16_hex sval))))%string.
  exists ((sval mod 65536) mod 256)%Z, ((sval mod 65536) / 256)%Z.
  split.
  { unfold build_pan_tilt_roll_packet. fold sval.
    destruct axis; try contradiction; destruct relative; reflexivity. }
  split.
  { read_bytes.
    rewrite (fromhex_byte true camid) by lia.
    unfold le16_hex.
    assert (Etail : fromhex
                      (String.append
                         (format_02 false ((sval mod 65536) mod 256))
                         (format_02 false ((sval mod 65536) / 256)))
                    = Some [((sval mod 65536) mod 256)%Z;
                            ((sval mod 65536) / 256)%Z]).
    { rewrite fromhex_byte by exact Hlo.
      rewrite fromhex_last_byte by exact Hhi. reflexivity. }
    destruct axis; try contradiction; destruct relative;
      read_bytes; rewrite Etail; reflexivity. }
  split; [exact Hlo|]. split; [exact Hhi|]. split; [exact Hval|].
  intros Hd1 Hd2. rewrite Hval.
  destruct (scaled_degrees_near axis degrees Hd1 Hd2)
    as [Hb1 [Hb2 [Hc1 [Hc2 [Hr1 Hr2]]]]].
  destruct (py_round_near (b64 (degrees * SCALES axis))) as [Hn1 Hn2].
  assert (Hr : (-32767 <= py_round (b64 (degrees * SCALES axis))
                <= 32767)%Z).
  { apply py_round_between.
    - change (inject_Z (-32767)) with (-(32767)). lra.
    - change (inject_Z 32767) with 32767. lra. }
  assert (Es : sval = py_round (b64 (degrees * SCALES axis))).
  { unfold sval, clamp_int. lia. }
  rewrite Es. split; [reflexivity|]. split; lra.
Qed.

(** A relative pan move of -7.5 degrees for camera 1. *)
Lemma pan_tilt_roll_frame_carries_the_move_witness :
  exists packet lo hi,
    build_pan_tilt_roll_packet 1 Controls.Pan (-(75 # 10)) true = Some packet
    /\ fromhex packet
       = Some [10; 1; 6; 0; 0; 14; axis_command Controls.Pan;
               if true then 128 else 129; 0; lo; hi]%Z
    /\ (0 <= lo < 256)%Z /\ (0 <= hi < 256)%Z
    /\ le16_signed lo hi
       = clamp_int (py_round (b64 (-(75 # 10) * SCALES Controls.Pan)))
           (-32768) 32767
    /\ (-(2400) <= -(75 # 10) -> -(75 # 10) <= 2400 ->
        le16_signed lo hi
        = py_round (b64 (-(75 # 10) * SCALES Controls.Pan))
        /\ inject_Z (le16_signed lo hi) - (1 # 2) - (1 # 1000000000)
           <= -(75 # 10) * axis_scale Controls.Pan
        /\ -(75 # 10) * axis_scale Controls.Pan
           <= inject_Z (le16_signed lo hi) + (1 # 2) + (1 # 1000000000)).
Proof.
  apply (pan_tilt_roll_frame_carries_the_move 1 Controls.Pan (-(75 # 10))
           true).
  - lia.
  - discriminate.
Defined.

(** The float product can round where the exact one does not: for the
    float nearest to 0.11127596439169139 the product with 13.48 lies
    just below 1.5 and would round to 1; the float product is 1.5 and
    rounds to 2, and 2 is what the pan frame carries. *)
Example float_product_rounds_to_even :
  py_round ((8018278268315423 # 72057594037927936) * axis_scale Controls.Pan)
  = 1%Z
  /\ b64 ((8018278268315423 # 72057594037927936) * SCALES Controls.Pan)
     == 3 # 2
  /\ option_map fromhex
       (build_pan_tilt_roll_packet 1 Controls.Pan
          (8018278268315423 # 72057594037927936) true)
     = Some (Some [10; 1; 6; 0; 0; 14; 6; 128; 0; 2; 0]%Z).
Proof. repeat split; vm_compute; reflexivity. Qed.

Lemma low_byte z : (0 <= z)%Z -> Z.land z 255 = (z mod 256)%Z.
Proof.
  intro H. change 255%Z with (Z.ones 8).
  rewrite Z.land_ones by lia. reflexivity.
Qed.

(** The zoom frames of a recall, for a camera id that fits one byte.  The
    absolute frame parses into 11 bytes whose last two carry, low byte
    first, the zoom value rounded and clamped to 0..4095; the relative
    frame parses into 11 bytes whose last two carry the speed, clamped to
    the signed 16-bit range, as a little-endian signed number. *)
Theorem zoom_frames_carry_the_value camid zoom_val speed_int :
  (0 <= camid <= 255)%Z ->
  (exists lo hi,
      fromhex (build_absolute_zoom_packet camid zoom_val)
      = Some [10; camid; 6; 0; 0; 14; 10; 128; 0; lo; hi]%Z
      /\ (0 <= lo < 256)%Z /\ (0 <= hi < 16)%Z
      /\ (lo + 256 * hi)%Z = clamp_int (py_round zoom_val) 0 4095)
  /\ (exists lo hi,
         fromhex (build_relative_zoom_packet camid speed_int)
         = Some [10; camid; 6; 0; 0; 0; 9; 128; 0; lo; hi]%Z
         /\ (0 <= lo < 256)%Z /\ (0 <= hi < 256)%Z
         /\ le16_signed lo hi = clamp_int speed_int (-32768) 32767).
Proof.
  intro Hcam. split.
  - set (z := clamp_int (py_round zoom_val) 0 4095).
    assert (Hz : (0 <= z <= 4095)%Z) by (apply clamp_int_range; lia).
    assert (Elo : Z.land z 255 = (z mod 256)%Z) by (apply low_byte; lia).
    assert (Ehi : Z.land (Z.shiftr z 8) 255 = (z / 256)%Z).
    { rewrite Z.shiftr_div_pow2 by lia. change (2 ^ 8)%Z with 256%Z.
      rewrite low_byte by (apply Z.div_pos; lia).
      apply Z.mod_small. split; [apply Z.div_pos; lia|].
      apply Z.div_lt_upper_bound; lia. }
    assert (Hlo : (0 <= z mod 256 < 256)%Z) by (apply Z.mod_pos_bound; lia).
    assert (Hhi : (0 <= z / 256 < 16)%Z).
    { split; [apply Z.div_pos; lia|]. apply Z.div_lt_upper_bound; lia. }
    exists (z mod 256)%Z, (z / 256)%Z.
    split.
    + unfold build_absolute_zoom_packet. fold z. rewrite Elo, Ehi.
      cbn [String.append]. rewrite append_assoc.
      read_bytes.
      rewrite (fromhex_byte true camid) by lia.
      read_bytes.
      rewrite fromhex_byte by exact Hlo.
      rewrite fromhex_last_byte by lia. reflexivity.
    + split; [exact Hlo|]. split; [exact Hhi|].
      rewrite Z.add_comm. symmetry. apply Z.div_mod. lia.
  - set (v := clamp_int speed_int (-32768) 32767).
    assert (Hv : (-32768 <= v <= 32767)%Z) by (apply clamp_int_range; lia).
    destruct (le16_bytes v Hv) as [Hlo [Hhi Hval]].
    exists ((v mod 65536) mod 256)%Z, ((v mod 65536) / 256)%Z.
    split.
    + unfold build_relative_zoom_packet. fold v.
      read_bytes.
      rewrite (fromhex_byte true camid) by lia.
      read_bytes.
      unfold le16_hex.
      rewrite fromhex_byte by exact Hlo.
      rewrite fromhex_last_byte by exact Hhi. reflexivity.
    + split; [exact Hlo|]. split; [exact Hhi|exact Hval].
Qed.

(** Zoom position 2048.5 and zoom speed -40000 for camera 1. *)
Lemma zoom_frames_carry_the_value_witness :
  (exists lo hi,
      fromhex (build_absolute_zoom_packet 1 (20485 # 10))
      = Some [10; 1; 6; 0; 0; 14; 10; 128; 0; lo; hi]%Z
      /\ (0 <= lo < 256)%Z /\ (0 <= hi < 16)%Z
      /\ (lo + 256 * hi)%Z = clamp_int (py_round (20485 # 10)) 0 4095)
  /\ (exists lo hi,
         fromhex (build_relative_zoom_packet 1 (-40000))
         = Some [10; 1; 6; 0; 0; 0; 9; 128; 0; lo; hi]%Z
         /\ (0 <= lo < 256)%Z /\ (0 <= hi < 256)%Z
         /\ le16_signed lo hi = clamp_int (-40000) (-32768) 32767).
Proof.
  apply (zoom_frames_carry_the_value 1 (20485 # 10) (-40000)). lia.
Defined.

End Frames.
